(** * AeroShare: room registry, relay server, peer negotiation and chunked
    transfer, embedded from the TypeScript sources.

    - [Backend]  : backend/src/types.ts, backend/src/roomManager.ts and the
      relay server (Express + ws entry point).
    - [Base64]   : the platform functions [btoa] / [atob] the transfer code calls.
    - [JSNumber] : IEEE-754 binary64 arithmetic for the progress computation.
    - [Frontend] : frontend/src/store (zustand store), hooks/useSignaling.ts,
      hooks/useWebRTC.ts and hooks/useRoom.ts.
    - [EndToEnd] : the client and the server across the signaling socket. *)

From Stdlib Require Import ZArith NArith String Ascii List Lia Bool ZifyNat ZifyN.
From Stdlib Require Import Floats.SpecFloat.
From stdpp Require Import gmap strings list fin_maps.

Open Scope string_scope.
Open Scope list_scope.

(** ** JSON values

    Payloads are typed [unknown] in the sources and only ever pass through
    [JSON.parse] / [JSON.stringify]; they are kept as JSON trees.  An object
    property whose value is [undefined] is dropped by [JSON.stringify], so an
    optional field is a key that may be missing. *)

#[local] Unset Elimination Schemes.
Inductive JSON : Type :=
| JNull
| JBool (b : bool)
| JNum (z : Z)
| JStr (s : string)
| JArr (items : list JSON)
| JObj (fields : list (string * JSON)).
#[local] Set Elimination Schemes.

Fixpoint assoc_get {A : Type} (k : string) (l : list (string * A)) : option A :=
  match l with
  | [] => None
  | (k', v) :: l' => if String.eqb k k' then Some v else assoc_get k l'
  end.

(** JavaScript truthiness of an optional string: [undefined] and [""] are falsy. *)
Definition truthy (o : option string) : option string :=
  match o with
  | Some s => if String.eqb s "" then None else Some s
  | None => None
  end.

(** JavaScript truthiness of a JSON value: [null], [false], [0] and [""] are
    falsy; every other value, the empty array and the empty object included,
    is truthy. *)
Definition js_truthy (v : JSON) : bool :=
  match v with
  | JNull => false
  | JBool b => b
  | JNum z => negb (z =? 0)%Z
  | JStr s => negb (String.eqb s "")
  | JArr _ | JObj _ => true
  end.

Module Backend.

(** *** backend/src/types.ts *)

Inductive SignalingMessageType : Type :=
| join | leave | offer | answer | candidate
| peer_list | peer_joined | peer_left | error
| unknown_type (tag : string).

Record SignalingMessage : Type := mkMsg {
  msg_type : SignalingMessageType;
  msg_roomId : string;
  msg_senderId : string;
  msg_targetId : option string;
  msg_payload : option JSON
}.

(** [username] is declared [string]; the declaration is not checked at run
    time, and the field holds whatever JSON value the [join] payload carried
    (see [handleSignalingMessage]). *)
Record PeerInfo : Type := mkPeerInfo {
  pi_id : string;
  pi_username : option JSON;
  pi_joinedAt : Z
}.

(** [JSON.stringify] of a [PeerInfo]: the [username] key is present only when
    the field is defined. *)
Definition PeerInfo_json (p : PeerInfo) : JSON :=
  JObj (("id", JStr (pi_id p)) ::
        match pi_username p with
        | Some u => [("username", u)]
        | None => []
        end ++
        [("joinedAt", JNum (pi_joinedAt p))]).

Inductive ReadyState : Type := CONNECTING | OPEN | CLOSING | CLOSED.

Definition ReadyState_eqb (a b : ReadyState) : bool :=
  match a, b with
  | CONNECTING, CONNECTING | OPEN, OPEN | CLOSING, CLOSING | CLOSED, CLOSED => true
  | _, _ => false
  end.

(** [ExtendedWebSocket]: the fields the server adds ([id], [roomId],
    [username], [isAlive]), the transport's [readyState], and the log of the
    messages handed to [ws.send] on this socket, oldest first. *)
Record ExtendedWebSocket : Type := mkWs {
  ws_id : string;
  ws_roomId : option string;
  ws_username : option JSON;
  ws_isAlive : bool;
  ws_readyState : ReadyState;
  ws_sent : list SignalingMessage
}.

(** [Room].  [peers] is a JS [Map<string, ExtendedWebSocket>]: keys in
    insertion order; the value stored under a key is always the socket object
    whose [id] is that key ([room.peers.set(ws.id, ws)] is the only insertion),
    so the map is kept as its key list and the socket is read from the heap of
    socket objects. *)
Record Room : Type := mkRoom {
  room_id : string;
  room_peers : list string;
  room_createdAt : Z
}.

(** The process state: [RoomManager.rooms] and the heap of socket objects
    (shared, mutable; keyed by the id given at connection time). *)
Record Server : Type := mkServer {
  rooms : gmap string Room;
  sockets : gmap string ExtendedWebSocket
}.

Definition empty_server : Server := mkServer ∅ ∅.

(** *** Socket and Map primitives *)

Definition set_rooms (f : gmap string Room -> gmap string Room) (st : Server) : Server :=
  mkServer (f (rooms st)) (sockets st).

Definition set_sockets (f : gmap string ExtendedWebSocket -> gmap string ExtendedWebSocket)
    (st : Server) : Server :=
  mkServer (rooms st) (f (sockets st)).

(** [ws.send(message)] *)
Definition ws_push (m : SignalingMessage) (w : ExtendedWebSocket) : ExtendedWebSocket :=
  mkWs (ws_id w) (ws_roomId w) (ws_username w) (ws_isAlive w) (ws_readyState w)
       (ws_sent w ++ [m]).

Definition send (ws : string) (m : SignalingMessage) (st : Server) : Server :=
  set_sockets (alter (ws_push m) ws) st.

Definition ws_set_roomId (r : option string) (w : ExtendedWebSocket) : ExtendedWebSocket :=
  mkWs (ws_id w) r (ws_username w) (ws_isAlive w) (ws_readyState w) (ws_sent w).

Definition ws_set_username (u : option JSON) (w : ExtendedWebSocket) : ExtendedWebSocket :=
  mkWs (ws_id w) (ws_roomId w) u (ws_isAlive w) (ws_readyState w) (ws_sent w).

Definition ws_set_isAlive (b : bool) (w : ExtendedWebSocket) : ExtendedWebSocket :=
  mkWs (ws_id w) (ws_roomId w) (ws_username w) b (ws_readyState w) (ws_sent w).

Definition ws_set_readyState (r : ReadyState) (w : ExtendedWebSocket) : ExtendedWebSocket :=
  mkWs (ws_id w) (ws_roomId w) (ws_username w) (ws_isAlive w) r (ws_sent w).

Definition username_of (st : Server) (ws : string) : option JSON :=
  sockets st !! ws ≫= ws_username.

Definition roomId_of (st : Server) (ws : string) : option string :=
  sockets st !! ws ≫= ws_roomId.

Definition sent_to (st : Server) (ws : string) : list SignalingMessage :=
  from_option ws_sent [] (sockets st !! ws).

Definition is_open (st : Server) (ws : string) : bool :=
  match sockets st !! ws with
  | Some w => ReadyState_eqb (ws_readyState w) OPEN
  | None => false
  end.

Definition mem (k : string) (l : list string) : bool :=
  existsb (String.eqb k) l.

(** [Map.prototype.set] on the key list: an existing key keeps its position. *)
Definition peers_set (k : string) (l : list string) : list string :=
  if mem k l then l else l ++ [k].

(** [Map.prototype.delete] on the key list. *)
Definition peers_delete (k : string) (l : list string) : list string :=
  filter (fun k' => negb (String.eqb k k')) l.

Definition room_set_peers (f : list string -> list string) (r : Room) : Room :=
  mkRoom (room_id r) (f (room_peers r)) (room_createdAt r).

Definition peers_of (st : Server) (roomId : string) : list string :=
  from_option room_peers [] (rooms st !! roomId).

(** *** backend/src/roomManager.ts *)

(** [createRoom]: [now] is the value [Date.now()] returns.  Throughout, the
    reads of the clock inside one synchronous handler see the same value. *)
Definition createRoom (roomId : string) (now : Z) (st : Server) : Room * Server :=
  let room := mkRoom roomId [] now in
  (room, set_rooms (insert roomId room) st).

Definition getRoom (roomId : string) (st : Server) : option Room :=
  rooms st !! roomId.

Definition roomExists (roomId : string) (st : Server) : bool :=
  bool_decide (is_Some (rooms st !! roomId)).

Definition getPeerList (roomId : string) (now : Z) (st : Server) : list PeerInfo :=
  match rooms st !! roomId with
  | None => []
  | Some room => map (fun id => mkPeerInfo id (username_of st id) now) (room_peers room)
  end.

Definition broadcastToRoom (roomId : string) (message : SignalingMessage)
    (excludePeerId : option string) (st : Server) : Server :=
  match rooms st !! roomId with
  | None => st
  | Some room =>
      fold_left
        (fun acc id =>
           if negb (bool_decide (Some id = excludePeerId)) && is_open acc id
           then send id message acc
           else acc)
        (room_peers room) st
  end.

Definition peerJoinedMessage (roomId : string) (p : PeerInfo) : SignalingMessage :=
  mkMsg peer_joined roomId "server" None (Some (PeerInfo_json p)).

Definition peerListMessage (roomId : string) (l : list PeerInfo) : SignalingMessage :=
  mkMsg peer_list roomId "server" None (Some (JArr (map PeerInfo_json l))).

Definition peerLeftMessage (roomId peerId : string) : SignalingMessage :=
  mkMsg peer_left roomId "server" None (Some (JObj [("peerId", JStr peerId)])).

Definition joinRoom (roomId ws : string) (now : Z) (st : Server) : bool * Server :=
  (* let room = this.rooms.get(roomId); if (!room) room = this.createRoom(roomId) *)
  let st1 := match rooms st !! roomId with
             | Some _ => st
             | None => snd (createRoom roomId now st)
             end in
  (* room.peers.set(ws.id, ws); ws.roomId = roomId *)
  let st2 := set_rooms (alter (room_set_peers (peers_set ws)) roomId) st1 in
  let st3 := set_sockets (alter (ws_set_roomId (Some roomId)) ws) st2 in
  let newPeerInfo := mkPeerInfo ws (username_of st3 ws) now in
  let st4 := broadcastToRoom roomId (peerJoinedMessage roomId newPeerInfo) (Some ws) st3 in
  let peerList := getPeerList roomId now st4 in
  let st5 := send ws (peerListMessage roomId peerList) st4 in
  (true, st5).

Definition leaveRoom (ws : string) (st : Server) : Server :=
  match truthy (roomId_of st ws) with
  | None => st                                   (* if (!ws.roomId) return *)
  | Some rid =>
      match rooms st !! rid with
      | None => st                               (* if (!room) return *)
      | Some _ =>
          let st1 := set_rooms (alter (room_set_peers (peers_delete ws)) rid) st in
          let st2 := broadcastToRoom rid (peerLeftMessage rid ws) None st1 in
          let st3 := if (length (peers_of st2 rid) =? 0)%nat
                     then set_rooms (delete rid) st2
                     else st2 in
          set_sockets (alter (ws_set_roomId None) ws) st3
      end
  end.

Definition sendToPeer (roomId peerId : string) (message : SignalingMessage)
    (st : Server) : bool * Server :=
  match rooms st !! roomId with
  | None => (false, st)
  | Some room =>
      if mem peerId (room_peers room) && is_open st peerId
      then (true, send peerId message st)
      else (false, st)
  end.

Definition getRoomCount (st : Server) : nat := size (rooms st).

Definition getTotalPeerCount (st : Server) : nat :=
  map_fold (fun _ room count => (count + length (room_peers room))%nat) 0%nat (rooms st).

Definition maxAge : Z := 24 * 60 * 60 * 1000.

(** [cleanupStaleRooms]: deleting the entry being visited inside
    [Map.prototype.forEach] does not disturb the iteration, so the loop keeps
    exactly the entries that fail the test. *)
Definition cleanupStaleRooms (now : Z) (st : Server) : Server :=
  set_rooms
    (filter (fun kv => negb ((length (room_peers (snd kv)) =? 0)%nat
                             && (maxAge <? now - room_createdAt (snd kv))%Z)))
    st.

(** *** The relay server (Express + ws entry point) *)

Definition sendError (ws : string) (code errorMessage : string) (st : Server) : Server :=
  let error_msg :=
    mkMsg error (default "" (truthy (roomId_of st ws))) "server" None
          (Some (JObj [("code", JStr code); ("message", JStr errorMessage)])) in
  send ws error_msg st.

(** [joinPayload?.username]: the cast of the payload to
    [{ username?: string }] checks nothing, so the property is read as it
    was parsed; on a payload that is not an object ([undefined], [null], a
    number, a string, an array) the read gives [undefined]. *)
Definition payload_username (payload : option JSON) : option JSON :=
  match payload with
  | Some (JObj fields) => assoc_get "username" fields
  | _ => None
  end.

(** [joinPayload?.username || `Peer-${ws.id.substring(0, 4)}`]: any truthy
    value is kept, whatever its type. *)
Definition joined_username (ws : string) (payload : option JSON) : JSON :=
  match payload_username payload with
  | Some v => if js_truthy v then v else JStr ("Peer-" +:+ String.substring 0 4 ws)
  | None => JStr ("Peer-" +:+ String.substring 0 4 ws)
  end.

(** The wire tag of a message type. *)
Definition type_tag (t : SignalingMessageType) : string :=
  match t with
  | join => "join" | leave => "leave" | offer => "offer" | answer => "answer"
  | candidate => "candidate" | peer_list => "peer-list" | peer_joined => "peer-joined"
  | peer_left => "peer-left" | error => "error" | unknown_type tag => tag
  end.

Definition handleSignalingMessage (ws : string) (message : SignalingMessage)
    (now : Z) (st : Server) : Server :=
  let type := msg_type message in
  let roomId := msg_roomId message in
  let targetId := msg_targetId message in
  let payload := msg_payload message in
  match type with
  | join =>
      let username := joined_username ws payload in
      let st1 := set_sockets (alter (ws_set_username (Some username)) ws) st in
      snd (joinRoom roomId ws now st1)
  | leave => leaveRoom ws st
  | offer | answer | candidate =>
      match truthy targetId with
      | None => sendError ws "MISSING_TARGET" "Target peer ID is required" st
      | Some target =>
          let forwardMessage := mkMsg type roomId ws (Some target) payload in
          let '(sent, st1) := sendToPeer roomId target forwardMessage st in
          if sent then st1
          else sendError ws "PEER_NOT_FOUND" ("Target peer " +:+ target +:+ " not found") st1
      end
  | _ => sendError ws "UNKNOWN_TYPE" ("Unknown message type: " +:+ type_tag type) st
  end.

(** What the process reacts to.  [Connection id] is a new socket with the
    freshly drawn [id]; [Message ws None] is a frame [JSON.parse] rejects;
    [Close ws] is the [close] event (the socket is CLOSED when its handler
    runs) and [Error ws] the [error] event; [Transport ws r] is the transport
    moving the socket to [readyState] [r] without a handler of the server
    running; [PostCreateRoom] is [POST /create-room] with the id it drew;
    [Sweep] is the hourly timer.  The liveness timer is [heartbeatTick],
    further down. *)
Inductive Event : Type :=
| Connection (id : string)
| Message (ws : string) (data : option SignalingMessage)
| Close (ws : string)
| Error (ws : string)
| Pong (ws : string)
| Transport (ws : string) (r : ReadyState)
| PostCreateRoom (roomId : string)
| Sweep.

Definition step (now : Z) (st : Server) (e : Event) : Server :=
  match e with
  | Connection id =>
      match sockets st !! id with
      | Some _ => st            (* ids are drawn fresh *)
      | None => set_sockets (insert id (mkWs id None None true OPEN [])) st
      end
  | Message ws (Some m) => handleSignalingMessage ws m now st
  | Message ws None => sendError ws "INVALID_MESSAGE" "Invalid message format" st
  | Close ws => leaveRoom ws (set_sockets (alter (ws_set_readyState CLOSED) ws) st)
  | Error ws => leaveRoom ws st
  | Pong ws => set_sockets (alter (ws_set_isAlive true) ws) st
  | Transport ws r => set_sockets (alter (ws_set_readyState r) ws) st
  | PostCreateRoom roomId => snd (createRoom roomId now st)
  | Sweep => cleanupStaleRooms now st
  end.

(** A run: each event comes with the clock value its handler reads. *)
Definition run (st : Server) (es : list (Z * Event)) : Server :=
  fold_left (fun acc te => step (fst te) acc (snd te)) es st.

(** *** Well-formed registries

    A JS [Map] has no duplicate keys; on the key-list representation this is
    [NoDup], kept by every operation. *)

Definition wf (st : Server) : Prop :=
  forall r room, rooms st !! r = Some room -> NoDup (room_peers room).

(** The fan-out loop of [broadcastToRoom] over a key list. *)
Definition fanout (message : SignalingMessage) (excludePeerId : option string)
    (l : list string) (st : Server) : Server :=
  fold_left
    (fun acc id =>
       if negb (bool_decide (Some id = excludePeerId)) && is_open acc id
       then send id message acc
       else acc)
    l st.

Section BackendFacts.

Implicit Types (st : Server) (ws id r roomId : string) (m : SignalingMessage).

Lemma mem_true k (l : list string) : mem k l = true <-> k ∈ l.
Proof.
  unfold mem. rewrite existsb_exists. split.
  - intros (x & Hx & He). apply String.eqb_eq in He. subst. by apply list_elem_of_In.
  - intros H. exists k. split; [by apply list_elem_of_In | apply String.eqb_refl].
Qed.

Lemma mem_false k (l : list string) : mem k l = false <-> k ∉ l.
Proof.
  rewrite <- mem_true. destruct (mem k l); split; congruence.
Qed.

Lemma elem_of_peers_set k k' (l : list string) :
  k' ∈ peers_set k l <-> k' ∈ l \/ k' = k.
Proof.
  unfold peers_set. destruct (mem k l) eqn:E.
  - apply mem_true in E. split; [tauto | intros [H | ->]; done].
  - rewrite elem_of_app, list_elem_of_singleton. tauto.
Qed.

Lemma NoDup_peers_set k (l : list string) : NoDup l -> NoDup (peers_set k l).
Proof.
  intros H. unfold peers_set. destruct (mem k l) eqn:E; [done |].
  apply mem_false in E. apply NoDup_app. split_and!; [done | | apply NoDup_singleton].
  intros x Hx Hk. apply list_elem_of_singleton in Hk. by subst.
Qed.

Lemma elem_of_peers_delete k k' (l : list string) :
  k' ∈ peers_delete k l <-> k' ∈ l /\ k' <> k.
Proof.
  unfold peers_delete. rewrite list_elem_of_filter.
  destruct (String.eqb_spec k k'); simpl; split; intros [? ?]; split; auto; congruence.
Qed.

Lemma NoDup_peers_delete k (l : list string) : NoDup l -> NoDup (peers_delete k l).
Proof. apply NoDup_filter. Qed.

Lemma rooms_send ws m st : rooms (send ws m st) = rooms st.
Proof. reflexivity. Qed.

Lemma lookup_send ws m st id :
  sockets (send ws m st) !! id =
  if decide (ws = id) then ws_push m <$> sockets st !! id else sockets st !! id.
Proof.
  unfold send, set_sockets; simpl. rewrite lookup_alter.
  destruct (decide (ws = id)); by subst.
Qed.

Lemma is_open_send ws m st id : is_open (send ws m st) id = is_open st id.
Proof.
  unfold is_open. rewrite lookup_send.
  destruct (decide (ws = id)); [| done].
  by destruct (sockets st !! id).
Qed.

Lemma rooms_fanout m ex l st : rooms (fanout m ex l st) = rooms st.
Proof.
  revert st. induction l as [| a l IH]; intros st; [done |].
  unfold fanout in *. simpl. rewrite IH.
  by destruct (negb (bool_decide (Some a = ex)) && is_open st a).
Qed.

Lemma is_open_fanout m ex l st id : is_open (fanout m ex l st) id = is_open st id.
Proof.
  revert st. induction l as [| a l IH]; intros st; [done |].
  unfold fanout in *. simpl. rewrite IH.
  destruct (negb (bool_decide (Some a = ex)) && is_open st a); [| done].
  apply is_open_send.
Qed.

(** Who gets the message in a fan-out. *)
Definition reached (ex : option string) (l : list string) (st : Server) (id : string) : bool :=
  mem id l && negb (bool_decide (Some id = ex)) && is_open st id.

Lemma lookup_fanout_notin m ex l st id :
  id ∉ l -> sockets (fanout m ex l st) !! id = sockets st !! id.
Proof.
  revert st. induction l as [| a l IH]; intros st Hn; [done |].
  apply not_elem_of_cons in Hn as [Hne Hn].
  unfold fanout in *. simpl. rewrite IH by done.
  destruct (negb (bool_decide (Some a = ex)) && is_open st a); [| done].
  rewrite lookup_send. by destruct (decide (a = id)).
Qed.

Lemma lookup_fanout m ex l st id :
  NoDup l ->
  sockets (fanout m ex l st) !! id =
  if reached ex l st id then ws_push m <$> sockets st !! id else sockets st !! id.
Proof.
  revert st. induction l as [| a l IH]; intros st Hnd; [done |].
  apply NoDup_cons in Hnd as [Ha Hnd].
  unfold reached. simpl.
  destruct (String.eqb_spec id a) as [-> | Hne]; simpl.
  - change (fanout m ex (a :: l) st) with
      (fanout m ex l (if negb (bool_decide (Some a = ex)) && is_open st a
                      then send a m st else st)).
    rewrite lookup_fanout_notin by done.
    destruct (negb (bool_decide (Some a = ex)) && is_open st a); [| done].
    rewrite lookup_send. by rewrite decide_True.
  - change (fanout m ex (a :: l) st) with
      (fanout m ex l (if negb (bool_decide (Some a = ex)) && is_open st a
                      then send a m st else st)).
    rewrite IH by done. unfold reached.
    destruct (negb (bool_decide (Some a = ex)) && is_open st a).
    + rewrite is_open_send, lookup_send. rewrite decide_False by congruence. done.
    + done.
Qed.

Lemma broadcastToRoom_fanout roomId m ex st :
  broadcastToRoom roomId m ex st = fanout m ex (peers_of st roomId) st.
Proof.
  unfold broadcastToRoom, peers_of, fanout.
  by destruct (rooms st !! roomId).
Qed.

Lemma sent_to_push st st' id m :
  sockets st' !! id = ws_push m <$> sockets st !! id ->
  is_Some (sockets st !! id) ->
  sent_to st' id = sent_to st id ++ [m].
Proof.
  unfold sent_to. intros -> [w ->]. reflexivity.
Qed.

Lemma username_of_send ws m st id : username_of (send ws m st) id = username_of st id.
Proof.
  unfold username_of. rewrite lookup_send.
  destruct (decide (ws = id)); [| done]. by destruct (sockets st !! id).
Qed.

Lemma username_of_fanout m ex l st id :
  username_of (fanout m ex l st) id = username_of st id.
Proof.
  revert st. induction l as [| a l IH]; intros st; [done |].
  unfold fanout in *. simpl. rewrite IH.
  destruct (negb (bool_decide (Some a = ex)) && is_open st a); [| done].
  apply username_of_send.
Qed.

Lemma lookup_fanout_excluded m l st ws :
  sockets (fanout m (Some ws) l st) !! ws = sockets st !! ws.
Proof.
  revert st. induction l as [| a l IH]; intros st; [done |].
  unfold fanout in *. simpl. rewrite IH.
  destruct (decide (a = ws)) as [-> | Hne].
  - by rewrite bool_decide_eq_true_2.
  - destruct (negb (bool_decide (Some a = Some ws)) && is_open st a); [| done].
    rewrite lookup_send. by rewrite decide_False.
Qed.

(** The room a join works on: the existing one, or a fresh one. *)
Definition room_for_join (roomId : string) (now : Z) (st : Server) : Server :=
  match rooms st !! roomId with
  | Some _ => st
  | None => snd (createRoom roomId now st)
  end.

Lemma room_for_join_peers roomId now st :
  exists room, rooms (room_for_join roomId now st) !! roomId = Some room /\
               room_peers room = peers_of st roomId /\
               room_id room = from_option room_id roomId (rooms st !! roomId) /\
               room_createdAt room = from_option room_createdAt now (rooms st !! roomId).
Proof.
  unfold room_for_join, peers_of. destruct (rooms st !! roomId) as [room |] eqn:E.
  - exists room. by rewrite E.
  - eexists. simpl. rewrite lookup_insert_eq. done.
Qed.

Lemma joinRoom_unfold roomId ws now st :
  snd (joinRoom roomId ws now st) =
  let st3 := set_sockets (alter (ws_set_roomId (Some roomId)) ws)
               (set_rooms (alter (room_set_peers (peers_set ws)) roomId)
                  (room_for_join roomId now st)) in
  let st4 := fanout (peerJoinedMessage roomId (mkPeerInfo ws (username_of st3 ws) now))
               (Some ws) (peers_of st3 roomId) st3 in
  send ws (peerListMessage roomId (getPeerList roomId now st4)) st4.
Proof.
  unfold joinRoom. simpl. rewrite broadcastToRoom_fanout. reflexivity.
Qed.

Lemma joinRoom_peers roomId ws now st :
  peers_of (snd (joinRoom roomId ws now st)) roomId = peers_set ws (peers_of st roomId).
Proof.
  rewrite joinRoom_unfold. cbv zeta. unfold peers_of at 1.
  rewrite rooms_send, rooms_fanout. simpl.
  destruct (room_for_join_peers roomId now st) as (room & Hr & Hp & _).
  rewrite lookup_alter_eq, Hr. simpl. by rewrite Hp.
Qed.

Lemma joinRoom_sent_to_joiner roomId ws now st :
  is_Some (sockets st !! ws) ->
  sent_to (snd (joinRoom roomId ws now st)) ws =
  sent_to st ws ++
  [peerListMessage roomId
     (map (fun id => mkPeerInfo id (username_of st id) now)
          (peers_set ws (peers_of st roomId)))].
Proof.
  intros [w Hw].
  pose proof (joinRoom_peers roomId ws now st) as Hpeers.
  rewrite joinRoom_unfold in *. cbv zeta in *.
  set (st3 := set_sockets _ _) in *.
  set (st4 := fanout _ _ _ st3) in *.
  assert (Hs3 : sockets st3 !! ws = Some (ws_set_roomId (Some roomId) w)).
  { unfold st3, room_for_join. simpl. rewrite lookup_alter_eq.
    destruct (rooms st !! roomId); simpl; by rewrite Hw. }
  assert (Hs4 : sockets st4 !! ws = Some (ws_set_roomId (Some roomId) w)).
  { unfold st4. by rewrite lookup_fanout_excluded. }
  assert (Hu : forall id, username_of st4 id = username_of st id).
  { intros id. unfold st4. rewrite username_of_fanout.
    unfold username_of, st3, room_for_join. simpl. rewrite lookup_alter.
    destruct (decide (ws = id)) as [-> |].
    - destruct (rooms st !! roomId); simpl; by rewrite Hw.
    - by destruct (rooms st !! roomId). }
  assert (Hl : getPeerList roomId now st4 =
               map (fun id => mkPeerInfo id (username_of st id) now)
                   (peers_set ws (peers_of st roomId))).
  { unfold getPeerList.
    unfold peers_of at 1 in Hpeers. rewrite rooms_send in Hpeers.
    destruct (rooms st4 !! roomId) as [room |] eqn:E; simpl in Hpeers.
    - rewrite Hpeers. apply map_ext. intros id. by rewrite Hu.
    - unfold peers_set in Hpeers. destruct (mem ws (peers_of st roomId)) eqn:Em.
      + rewrite <- Hpeers in Em. discriminate.
      + destruct (peers_of st roomId); simpl in Hpeers; discriminate. }
  rewrite Hl.
  unfold sent_to at 1. rewrite lookup_send, decide_True, Hs4 by done. simpl.
  unfold sent_to. by rewrite Hw.
Qed.

Lemma sent_to_alter (f : ExtendedWebSocket -> ExtendedWebSocket) ws st id :
  (forall w, ws_sent (f w) = ws_sent w) ->
  sent_to (set_sockets (alter f ws) st) id = sent_to st id.
Proof.
  intros Hf. unfold sent_to. simpl. rewrite lookup_alter.
  destruct (decide (ws = id)) as [-> |]; [| done].
  destruct (sockets st !! id); simpl; [apply Hf | done].
Qed.

Lemma is_open_alter (f : ExtendedWebSocket -> ExtendedWebSocket) ws st id :
  (forall w, ws_readyState (f w) = ws_readyState w) ->
  is_open (set_sockets (alter f ws) st) id = is_open st id.
Proof.
  intros Hf. unfold is_open. simpl. rewrite lookup_alter.
  destruct (decide (ws = id)) as [-> |]; [| done].
  destruct (sockets st !! id); simpl; [by rewrite Hf | done].
Qed.

Lemma roomId_of_alter_ne (f : ExtendedWebSocket -> ExtendedWebSocket) ws st id :
  ws <> id -> roomId_of (set_sockets (alter f ws) st) id = roomId_of st id.
Proof. intros H. unfold roomId_of. simpl. by rewrite lookup_alter_ne. Qed.

Lemma sent_to_fanout m ex l st id :
  NoDup l ->
  sent_to (fanout m ex l st) id =
  sent_to st id ++ (if reached ex l st id then [m] else []).
Proof.
  intros Hnd. unfold sent_to. rewrite lookup_fanout by done.
  unfold reached, is_open.
  destruct (sockets st !! id) as [w |]; simpl.
  - destruct (mem id l && negb (bool_decide (Some id = ex)) &&
              ReadyState_eqb (ws_readyState w) OPEN); simpl; [done |].
    by rewrite app_nil_r.
  - by rewrite andb_false_r.
Qed.

Lemma roomId_of_fanout m ex l st id :
  roomId_of (fanout m ex l st) id = roomId_of st id.
Proof.
  revert st. induction l as [| a l IH]; intros st; [done |].
  unfold fanout in *. simpl. rewrite IH.
  destruct (negb (bool_decide (Some a = ex)) && is_open st a); [| done].
  unfold roomId_of. rewrite lookup_send.
  destruct (decide (a = id)); [| done]. by destruct (sockets st !! id).
Qed.

(** The body of [leaveRoom] once both guards have passed. *)
Lemma leaveRoom_unfold ws rid room st :
  truthy (roomId_of st ws) = Some rid ->
  rooms st !! rid = Some room ->
  leaveRoom ws st =
  let remaining := peers_delete ws (room_peers room) in
  let st2 := fanout (peerLeftMessage rid ws) None remaining
               (set_rooms (alter (room_set_peers (peers_delete ws)) rid) st) in
  set_sockets (alter (ws_set_roomId None) ws)
    (if (length remaining =? 0)%nat then set_rooms (delete rid) st2 else st2).
Proof.
  intros Ht Hr. unfold leaveRoom. rewrite Ht, Hr. cbv zeta.
  rewrite broadcastToRoom_fanout.
  assert (Hp : peers_of (set_rooms (alter (room_set_peers (peers_delete ws)) rid) st) rid
               = peers_delete ws (room_peers room)).
  { unfold peers_of. simpl. by rewrite lookup_alter_eq, Hr. }
  rewrite Hp. unfold peers_of at 1. rewrite rooms_fanout. simpl.
  by rewrite lookup_alter_eq, Hr.
Qed.

Lemma leaveRoom_effect ws rid room st :
  NoDup (room_peers room) ->
  truthy (roomId_of st ws) = Some rid ->
  rooms st !! rid = Some room ->
  let st' := leaveRoom ws st in
  let remaining := peers_delete ws (room_peers room) in
  (forall id, sent_to st' id =
              sent_to st id ++
              (if mem id remaining && is_open st id then [peerLeftMessage rid ws] else [])) /\
  rooms st' !! rid =
    (if (length remaining =? 0)%nat then None
     else Some (mkRoom (room_id room) remaining (room_createdAt room))) /\
  (forall r, r <> rid -> rooms st' !! r = rooms st !! r).
Proof.
  intros Hnd Ht Hr. cbv zeta. rewrite (leaveRoom_unfold ws rid room) by done. cbv zeta.
  set (remaining := peers_delete ws (room_peers room)).
  set (st1 := set_rooms _ st).
  split_and!.
  - intros id. rewrite sent_to_alter by done.
    assert (Hs : forall b : bool,
               sent_to (if b then set_rooms (delete rid) (fanout (peerLeftMessage rid ws) None remaining st1)
                        else fanout (peerLeftMessage rid ws) None remaining st1) id
               = sent_to (fanout (peerLeftMessage rid ws) None remaining st1) id)
      by (by intros []).
    rewrite Hs, sent_to_fanout by (by apply NoDup_peers_delete).
    unfold reached. by rewrite andb_true_r.
  - simpl. destruct (length remaining =? 0)%nat; simpl.
    + by rewrite lookup_delete_eq.
    + rewrite rooms_fanout. simpl. by rewrite lookup_alter_eq, Hr.
  - intros r Hne. simpl. destruct (length remaining =? 0)%nat; simpl.
    + rewrite lookup_delete_ne by done. rewrite rooms_fanout. simpl.
      by rewrite lookup_alter_ne.
    + rewrite rooms_fanout. simpl. by rewrite lookup_alter_ne.
Qed.

(** Every handler keeps the registry well formed, so every state the
    server reaches from the empty registry is. *)

Lemma wf_alter_peers (f : list string -> list string) r st :
  (forall l, NoDup l -> NoDup (f l)) ->
  wf st -> wf (set_rooms (alter (room_set_peers f) r) st).
Proof.
  intros Hf Hwf r' room. simpl. rewrite lookup_alter.
  destruct (decide (r = r')) as [-> |]; [| apply Hwf].
  destruct (rooms st !! r') as [room0 |] eqn:E; simpl; [| done].
  intros [= <-]. simpl. apply Hf. by eapply Hwf.
Qed.

Lemma wf_same_rooms st st' : rooms st' = rooms st -> wf st -> wf st'.
Proof. unfold wf. by intros ->. Qed.

Lemma wf_createRoom roomId now st : wf st -> wf (snd (createRoom roomId now st)).
Proof.
  intros Hwf r room. simpl. rewrite lookup_insert.
  destruct (decide (roomId = r)) as [-> |]; [| apply Hwf].
  intros [= <-]. constructor.
Qed.

Lemma wf_joinRoom roomId ws now st : wf st -> wf (snd (joinRoom roomId ws now st)).
Proof.
  intros Hwf. rewrite joinRoom_unfold. cbv zeta.
  eapply wf_same_rooms; [by rewrite rooms_send, rooms_fanout |].
  eapply wf_same_rooms; [reflexivity |].
  apply wf_alter_peers; [intros l; apply NoDup_peers_set |].
  unfold room_for_join. destruct (rooms st !! roomId); [done | by apply wf_createRoom].
Qed.

Lemma wf_leaveRoom ws st : wf st -> wf (leaveRoom ws st).
Proof.
  intros Hwf. unfold leaveRoom.
  destruct (truthy (roomId_of st ws)) as [rid |]; [| done].
  destruct (rooms st !! rid) as [room |] eqn:Er; [| done].
  cbv zeta. eapply wf_same_rooms; [reflexivity |].
  rewrite broadcastToRoom_fanout.
  set (st2 := fanout _ _ _ _).
  assert (Hwf2 : wf st2).
  { eapply wf_same_rooms; [apply rooms_fanout |].
    apply wf_alter_peers; [intros l; apply NoDup_peers_delete | done]. }
  destruct (length (peers_of st2 rid) =? 0)%nat; [| done].
  intros r room'. simpl. rewrite lookup_delete.
  destruct (decide (rid = r)); [done | apply Hwf2].
Qed.

Lemma wf_handleSignalingMessage ws m now st :
  wf st -> wf (handleSignalingMessage ws m now st).
Proof.
  intros Hwf. unfold handleSignalingMessage.
  destruct (msg_type m); try (by eapply wf_same_rooms; [reflexivity |]).
  - apply wf_joinRoom. by eapply wf_same_rooms; [reflexivity |].
  - by apply wf_leaveRoom.
  - destruct (truthy (msg_targetId m)); [| done].
    unfold sendToPeer. destruct (rooms st !! msg_roomId m); [| done].
    by destruct (mem s (room_peers r) && is_open st s).
  - destruct (truthy (msg_targetId m)); [| done].
    unfold sendToPeer. destruct (rooms st !! msg_roomId m); [| done].
    by destruct (mem s (room_peers r) && is_open st s).
  - destruct (truthy (msg_targetId m)); [| done].
    unfold sendToPeer. destruct (rooms st !! msg_roomId m); [| done].
    by destruct (mem s (room_peers r) && is_open st s).
Qed.

Lemma wf_step now st e : wf st -> wf (step now st e).
Proof.
  intros Hwf. destruct e as [id | ws [m |] | ws | ws | ws | ws r | roomId |]; simpl.
  - by destruct (sockets st !! id).
  - by apply wf_handleSignalingMessage.
  - done.
  - by apply wf_leaveRoom.
  - by apply wf_leaveRoom.
  - done.
  - done.
  - by apply wf_createRoom.
  - intros r room. simpl. rewrite map_lookup_filter_Some. intros [H _]. by eapply Hwf.
Qed.

Lemma wf_run es st : wf st -> wf (run st es).
Proof.
  revert st. induction es as [| [now e] es IH]; intros st Hwf; [done |].
  simpl. apply IH. by apply wf_step.
Qed.

Lemma wf_reachable es : wf (run empty_server es).
Proof. apply wf_run. intros r room H. simpl in H. by rewrite lookup_empty in H. Qed.

End BackendFacts.

(** *** Scenarios *)

Definition join_msg (roomId : string) (username : option string) : SignalingMessage :=
  mkMsg join roomId "client" None
        (Some (JObj match username with
                    | Some u => [("username", JStr u)]
                    | None => []
                    end)).

Definition leave_msg (roomId : string) : SignalingMessage :=
  mkMsg leave roomId "client" None None.

(** One connection ["a"], not yet in any room. *)
Definition one_client : Server := run empty_server [(0, Connection "a")]%Z.

(** The claim as the specification words it: the peer list handed to the
    joiner names exactly the prior members other than the joiner. *)
Definition peer_list_excludes_joiner (roomId ws : string) (now : Z) (st : Server) : Prop :=
  exists entries : list PeerInfo,
    last (sent_to (snd (joinRoom roomId ws now st)) ws) = Some (peerListMessage roomId entries) /\
    forall id, id ∈ map pi_id entries <-> id ∈ peers_of st roomId /\ id <> ws.

(** C1, counterexample: the first member to join a fresh room is sent a
    peer list that holds its own entry, where the specification promises the
    empty list. *)
Lemma joinRoom_peer_list_contains_joiner :
  ~ peer_list_excludes_joiner "r" "a" 0 one_client.
Proof.
  intros (entries & Hlast & Hiff).
  vm_compute in Hlast.
  destruct entries as [| e [| e' entries]]; simpl in Hlast; try discriminate.
  destruct e as [i u t]. injection Hlast as Hid _. simpl in Hid. subst i.
  destruct (Hiff "a") as [H _].
  destruct H as [_ Hne]; [apply list_elem_of_here | by apply Hne].
Qed.

(** C1, as amended: after [joinRoom] the peer list sent to the joiner is the
    last message on its socket and has one entry (id, username, timestamp) per
    member of the room after the join, in Map order: the prior members and the
    joiner itself. *)
Theorem joinRoom_peer_list_all_members (roomId ws : string) (now : Z) (st : Server) :
  wf st ->
  is_Some (sockets st !! ws) ->
  let st' := snd (joinRoom roomId ws now st) in
  let members := peers_set ws (peers_of st roomId) in
  peers_of st' roomId = members /\
  NoDup members /\
  (forall id, id ∈ members <-> id ∈ peers_of st roomId \/ id = ws) /\
  sent_to st' ws =
    sent_to st ws ++
    [peerListMessage roomId (map (fun id => mkPeerInfo id (username_of st id) now) members)].
Proof.
  intros Hwf Hws. cbv zeta. split_and!.
  - apply joinRoom_peers.
  - apply NoDup_peers_set. unfold peers_of.
    destruct (rooms st !! roomId) as [room |] eqn:E; simpl; [by eapply Hwf | constructor].
  - intros id. apply elem_of_peers_set.
  - by apply joinRoom_sent_to_joiner.
Qed.

Lemma wf_one_client : wf one_client.
Proof. apply wf_reachable. Qed.

(** The first join into a fresh room: the list sent to ["a"] is ["a"] itself. *)
Lemma joinRoom_peer_list_all_members_witness :
  let st' := snd (joinRoom "r" "a" 7 one_client) in
  peers_of st' "r" = ["a"] /\
  sent_to st' "a" = [peerListMessage "r" [mkPeerInfo "a" None 7]].
Proof.
  destruct (joinRoom_peer_list_all_members "r" "a" 7 one_client wf_one_client)
    as (H1 & _ & _ & H4).
  - vm_compute. eauto.
  - split; [exact H1 | exact H4].
Defined.

(** **** createRoom *)

(** Room ["r"] created by the first join at time 0, holding member ["a"]. *)
Definition room_with_one_member : Server :=
  run empty_server
      [(0, Connection "a"); (0, Message "a" (Some (join_msg "r" (Some "alice"))))]%Z.

(** The claim as the specification words it: on an existing id, [createRoom]
    hands back the stored room and changes nothing. *)
Definition createRoom_returns_existing (roomId : string) (now : Z) (st : Server) : Prop :=
  forall room, rooms st !! roomId = Some room ->
    fst (createRoom roomId now st) = room /\ snd (createRoom roomId now st) = st.

(** C2, counterexample: [createRoom "r"] on a registry where ["r"] has a
    member and creation time 0 returns an empty room stamped with the new
    time. *)
Lemma createRoom_overwrites_existing :
  ~ createRoom_returns_existing "r" 5 room_with_one_member.
Proof.
  intros H.
  destruct (H (mkRoom "r" ["a"] 0)) as [Hfst _]; [by vm_compute |].
  vm_compute in Hfst. discriminate.
Qed.

(** C2, as amended: [createRoom] always builds, registers and returns a
    fresh room (no members, creation time = the clock), replacing whatever
    was stored under the id and touching nothing else; repeating the call at
    the same clock value changes nothing further.  An existing room survives
    only on the join path, where [createRoom] runs for absent ids only: the
    join keeps the stored creation time and members. *)
Theorem createRoom_installs_fresh_room (roomId : string) (now : Z) (st : Server) :
  fst (createRoom roomId now st) = mkRoom roomId [] now /\
  rooms (snd (createRoom roomId now st)) !! roomId = Some (mkRoom roomId [] now) /\
  (forall r, r <> roomId -> rooms (snd (createRoom roomId now st)) !! r = rooms st !! r) /\
  sockets (snd (createRoom roomId now st)) = sockets st /\
  snd (createRoom roomId now (snd (createRoom roomId now st))) = snd (createRoom roomId now st) /\
  (forall room ws now', rooms st !! roomId = Some room ->
     rooms (snd (joinRoom roomId ws now' st)) !! roomId =
     Some (mkRoom (room_id room) (peers_set ws (room_peers room)) (room_createdAt room))).
Proof.
  split_and!.
  - reflexivity.
  - simpl. apply lookup_insert_eq.
  - intros r Hne. simpl. by apply lookup_insert_ne.
  - reflexivity.
  - unfold createRoom, set_rooms. simpl. f_equal. apply insert_insert_eq.
  - intros room ws now' Hr. rewrite joinRoom_unfold. cbv zeta.
    rewrite rooms_send, rooms_fanout. simpl.
    unfold room_for_join. rewrite Hr, lookup_alter_eq, Hr. reflexivity.
Qed.

(** **** One room per connection *)

Definition in_at_most_one_room (st : Server) : Prop :=
  forall ws r1 r2, ws ∈ peers_of st r1 -> ws ∈ peers_of st r2 -> r1 = r2.

(** Connection ["a"] joins room ["A"], then room ["B"]. *)
Definition joined_twice : Server :=
  run empty_server
      [(0, Connection "a");
       (1, Message "a" (Some (join_msg "A" None)));
       (2, Message "a" (Some (join_msg "B" None)))]%Z.

(** C6, the code at the failing input: after the second join the
    connection is a member of both rooms, its [roomId] names only the second,
    and neither an explicit leave nor the close of the transport removes it
    from the first. *)
Theorem join_second_room_keeps_first :
  peers_of joined_twice "A" = ["a"] /\
  peers_of joined_twice "B" = ["a"] /\
  roomId_of joined_twice "a" = Some "B" /\
  ~ in_at_most_one_room joined_twice /\
  peers_of (run joined_twice [(3, Message "a" (Some (leave_msg "B"))); (4, Close "a")]%Z) "A"
    = ["a"].
Proof.
  split_and!; try (vm_compute; reflexivity).
  intros H. specialize (H "a" "A" "B").
  assert (Hab : "A" = "B") by (apply H; vm_compute; apply list_elem_of_here).
  discriminate.
Qed.

(** **** Targeted relay *)

Definition is_relayed (t : SignalingMessageType) : bool :=
  match t with
  | offer | answer | candidate => true
  | _ => false
  end.

Definition peerNotFound (st : Server) (ws target : string) : SignalingMessage :=
  mkMsg error (default "" (truthy (roomId_of st ws))) "server" None
        (Some (JObj [("code", JStr "PEER_NOT_FOUND");
                     ("message", JStr ("Target peer " +:+ target +:+ " not found"))])).

(** C7: for an offer/answer/candidate whose [targetId] passes the
    [!targetId] guard.  If the room is missing, the target is not in it, or the
    target's socket is not OPEN, [sendToPeer] returns [false], the sender's
    socket is handed [error{PEER_NOT_FOUND}] and no other socket changes.
    Otherwise [sendToPeer] returns [true] and the only effect is one message
    on the target's socket: the same type, room and payload, with [senderId]
    set to the sending connection's id. *)
Theorem relay_forwards_or_reports (ws target : string) (m : SignalingMessage)
    (now : Z) (st : Server) :
  is_relayed (msg_type m) = true ->
  truthy (msg_targetId m) = Some target ->
  is_Some (sockets st !! ws) ->
  let fwd := mkMsg (msg_type m) (msg_roomId m) ws (Some target) (msg_payload m) in
  let st' := handleSignalingMessage ws m now st in
  rooms st' = rooms st /\
  ((rooms st !! msg_roomId m = None \/ target ∉ peers_of st (msg_roomId m)
    \/ is_open st target = false) ->
     fst (sendToPeer (msg_roomId m) target fwd st) = false /\
     sent_to st' ws = sent_to st ws ++ [peerNotFound st ws target] /\
     (forall id, id <> ws -> sockets st' !! id = sockets st !! id)) /\
  (target ∈ peers_of st (msg_roomId m) -> is_open st target = true ->
     fst (sendToPeer (msg_roomId m) target fwd st) = true /\
     sent_to st' target = sent_to st target ++ [fwd] /\
     msg_payload fwd = msg_payload m /\ msg_senderId fwd = ws /\
     (forall id, id <> target -> sockets st' !! id = sockets st !! id)).
Proof.
  intros Hty Htg [w Hw]. cbv zeta.
  set (fwd := mkMsg _ _ _ _ _).
  assert (Hh : handleSignalingMessage ws m now st =
               let '(sent, st1) := sendToPeer (msg_roomId m) target fwd st in
               if sent then st1
               else sendError ws "PEER_NOT_FOUND" ("Target peer " +:+ target +:+ " not found") st1).
  { unfold handleSignalingMessage. destruct (msg_type m); try discriminate; by rewrite Htg. }
  rewrite Hh. clear Hh. unfold sendToPeer, peers_of.
  destruct (rooms st !! msg_roomId m) as [room |] eqn:Er; simpl.
  - destruct (mem target (room_peers room)) eqn:Em; simpl.
    + apply mem_true in Em. destruct (is_open st target) eqn:Eo; simpl.
      * split_and!; [done | intros [? | [? | ?]]; done |].
        intros _ _. split_and!; try done.
        -- unfold is_open in Eo. destruct (sockets st !! target) as [wt |] eqn:Et; [| done].
           apply sent_to_push; [| by rewrite Et].
           simpl. by rewrite lookup_alter_eq.
        -- intros id Hne. simpl. by rewrite lookup_alter_ne.
      * split_and!; [done | | intros _ ?; done].
        intros _. split_and!; [done | |].
        -- apply sent_to_push; [| by rewrite Hw].
           simpl. by rewrite lookup_alter_eq.
        -- intros id Hne. simpl. by rewrite lookup_alter_ne.
    + apply mem_false in Em. split_and!; [done | | intros ?; done].
      intros _. split_and!; [done | |].
      * apply sent_to_push; [| by rewrite Hw].
        simpl. by rewrite lookup_alter_eq.
      * intros id Hne. simpl. by rewrite lookup_alter_ne.
  - split_and!; [done | | intros H; by apply elem_of_nil in H].
    intros _. split_and!; [done | |].
    + apply sent_to_push; [| by rewrite Hw].
      simpl. by rewrite lookup_alter_eq.
    + intros id Hne. simpl. by rewrite lookup_alter_ne.
Qed.

(** Members ["a"] and ["b"] in room ["r"], both sockets OPEN. *)
Definition two_members : Server :=
  run empty_server
      [(0, Connection "a"); (0, Connection "b");
       (1, Message "a" (Some (join_msg "r" (Some "alice"))));
       (2, Message "b" (Some (join_msg "r" (Some "bob"))))]%Z.

(** ["a"] sends an offer to ["b"] with a forged sender id: ["b"] is handed it re-stamped. *)
Lemma relay_forwards_or_reports_witness :
  let m := mkMsg offer "r" "forged" (Some "b") (Some (JStr "sdp")) in
  sent_to (handleSignalingMessage "a" m 9 two_members) "b" =
  sent_to two_members "b" ++ [mkMsg offer "r" "a" (Some "b") (Some (JStr "sdp"))].
Proof.
  cbv zeta.
  destruct (relay_forwards_or_reports "a" "b"
              (mkMsg offer "r" "forged" (Some "b") (Some (JStr "sdp"))) 9 two_members)
    as (_ & _ & H).
  - reflexivity.
  - reflexivity.
  - vm_compute. eauto.
  - destruct H as (_ & H & _).
    + apply mem_true. vm_compute. reflexivity.
    + vm_compute. reflexivity.
    + exact H.
Defined.

(** **** Leaving *)

(** The three ways a member leaves: a [leave] message, the transport's
    [close] event, the transport's [error] event. *)
Inductive leaving (ws : string) : Event -> Prop :=
| leaving_message m : msg_type m = leave -> leaving ws (Message ws (Some m))
| leaving_close : leaving ws (Close ws)
| leaving_error : leaving ws (Error ws).

(** The claim as the specification words it: every other member of the
    leaver's room is handed exactly one [peer-left]. *)
Definition every_remaining_member_notified (ws : string) (e : Event) (now : Z)
    (st : Server) : Prop :=
  forall rid id, roomId_of st ws = Some rid -> id ∈ peers_of st rid -> id <> ws ->
    sent_to (step now st e) id = sent_to st id ++ [peerLeftMessage rid ws].

(** Members ["a"] and ["b"] in room ["r"]; the transport of ["b"] has started
    closing and its [close] event has not been delivered yet. *)
Definition member_closing : Server :=
  run two_members [(3, Transport "b" CLOSING)]%Z.

(** C8, counterexample: when ["a"] leaves, the remaining member ["b"], whose
    socket is not OPEN, is skipped by the fan-out and is handed nothing. *)
Lemma leave_skips_unwritable_member :
  ~ every_remaining_member_notified "a" (Message "a" (Some (leave_msg "r"))) 4 member_closing.
Proof.
  intros H. specialize (H "r" "b").
  assert (Hs : sent_to (step 4 member_closing (Message "a" (Some (leave_msg "r")))) "b"
               = sent_to member_closing "b" ++ [peerLeftMessage "r" "a"]).
  { apply H; [vm_compute; reflexivity | apply mem_true; vm_compute; reflexivity | discriminate]. }
  vm_compute in Hs. discriminate.
Qed.

(** C8, as amended: when a member whose recorded room id is a non-empty
    string leaves (leave message, close or error event), every remaining
    member of that room whose socket is OPEN is handed exactly one
    [peer-left{peerId}], nobody else is handed anything, and the room is
    deleted from the registry iff no member remains; otherwise it stays with
    the remaining members; other rooms are untouched. *)
Theorem leave_notifies_writable_members (ws rid : string) (room : Room) (e : Event)
    (now : Z) (st : Server) :
  wf st ->
  roomId_of st ws = Some rid ->
  rid <> "" ->
  rooms st !! rid = Some room ->
  leaving ws e ->
  let st' := step now st e in
  let remaining := peers_delete ws (room_peers room) in
  (forall id, id ∈ remaining <-> id ∈ room_peers room /\ id <> ws) /\
  (forall id, sent_to st' id =
              sent_to st id ++
              (if mem id remaining && is_open st id then [peerLeftMessage rid ws] else [])) /\
  (rooms st' !! rid = None <-> remaining = []) /\
  (remaining <> [] ->
     rooms st' !! rid = Some (mkRoom (room_id room) remaining (room_createdAt room))) /\
  (forall r, r <> rid -> rooms st' !! r = rooms st !! r).
Proof.
  intros Hwf Hrid Hne Hr Hl. cbv zeta.
  set (remaining := peers_delete ws (room_peers room)).
  assert (Ht : truthy (roomId_of st ws) = Some rid).
  { rewrite Hrid. simpl. destruct (String.eqb_spec rid ""); [done | done]. }
  assert (Hnd : NoDup (room_peers room)) by (by eapply Hwf).
  assert (Hgoal : forall st0,
             rooms st0 = rooms st ->
             roomId_of st0 ws = roomId_of st ws ->
             (forall id, sent_to st0 id = sent_to st id) ->
             (forall id, id <> ws -> is_open st0 id = is_open st id) ->
             (forall id, id ∈ remaining <-> id ∈ room_peers room /\ id <> ws) /\
             (forall id, sent_to (leaveRoom ws st0) id =
                sent_to st id ++
                (if mem id remaining && is_open st id then [peerLeftMessage rid ws] else [])) /\
             (rooms (leaveRoom ws st0) !! rid = None <-> remaining = []) /\
             (remaining <> [] ->
                rooms (leaveRoom ws st0) !! rid =
                Some (mkRoom (room_id room) remaining (room_createdAt room))) /\
             (forall r, r <> rid -> rooms (leaveRoom ws st0) !! r = rooms st !! r)).
  { intros st0 Hrooms Hroom Hsent Hopen.
    destruct (leaveRoom_effect ws rid room st0 Hnd) as (H1 & H2 & H3).
    - by rewrite Hroom.
    - by rewrite Hrooms.
    - fold remaining in H1, H2. split_and!.
      + intros id. apply elem_of_peers_delete.
      + intros id. rewrite H1, Hsent.
        destruct (mem id remaining) eqn:Em; simpl; [| done].
        apply mem_true, elem_of_peers_delete in Em as [_ Hn].
        by rewrite Hopen.
      + rewrite H2. destruct remaining; simpl; split; done.
      + intros Hnn. rewrite H2. by destruct remaining.
      + intros r Hr'. rewrite H3 by done. by rewrite Hrooms. }
  destruct Hl as [m Hm | |]; simpl.
  - unfold handleSignalingMessage. rewrite Hm. by apply Hgoal.
  - apply Hgoal; try done.
    + unfold roomId_of. simpl. rewrite lookup_alter_eq. by destruct (sockets st !! ws).
    + intros id. by apply sent_to_alter.
    + intros id Hn. unfold is_open. simpl. by rewrite lookup_alter_ne.
  - by apply Hgoal.
Qed.

Lemma wf_two_members : wf two_members.
Proof. apply wf_reachable. Qed.

(** The transport of ["a"] closes: ["b"] is handed one [peer-left], the room stays with ["b"]. *)
Lemma leave_notifies_writable_members_witness :
  sent_to (step 5 two_members (Close "a")) "b" =
    sent_to two_members "b" ++ [peerLeftMessage "r" "a"] /\
  rooms (step 5 two_members (Close "a")) !! "r" = Some (mkRoom "r" ["b"] 1).
Proof.
  destruct (leave_notifies_writable_members "a" "r" (mkRoom "r" ["a"; "b"] 1)
              (Close "a") 5 two_members wf_two_members)
    as (_ & H1 & _ & H2 & _).
  - vm_compute. reflexivity.
  - discriminate.
  - vm_compute. reflexivity.
  - constructor.
  - split; [exact (H1 "b") | apply H2; discriminate].
Defined.

(** **** The stale-room sweep *)

(** C10: [cleanupStaleRooms] at clock [now] deletes a room iff it has no
    member and [now - createdAt] exceeds 24 hours (86 400 000 ms).  So every
    empty room past the threshold goes, and a room with a member stays
    unchanged whatever its age; no socket is touched and no room appears. *)
Theorem cleanupStaleRooms_exact (now : Z) (st : Server) :
  maxAge = 86400000%Z /\
  sockets (cleanupStaleRooms now st) = sockets st /\
  (forall r room, rooms st !! r = Some room ->
     (rooms (cleanupStaleRooms now st) !! r = None <->
      room_peers room = [] /\ (maxAge < now - room_createdAt room)%Z) /\
     (room_peers room <> [] -> rooms (cleanupStaleRooms now st) !! r = Some room) /\
     ((now - room_createdAt room <= maxAge)%Z ->
      rooms (cleanupStaleRooms now st) !! r = Some room)) /\
  (forall r, rooms st !! r = None -> rooms (cleanupStaleRooms now st) !! r = None).
Proof.
  assert (Hl : forall r,
             rooms (cleanupStaleRooms now st) !! r =
             match rooms st !! r with
             | Some room =>
                 if (length (room_peers room) =? 0)%nat && (maxAge <? now - room_createdAt room)%Z
                 then None else Some room
             | None => None
             end).
  { intros r. unfold cleanupStaleRooms. simpl. rewrite map_lookup_filter.
    destruct (rooms st !! r) as [room |]; simpl; [| done].
    destruct ((length (room_peers room) =? 0)%nat && (maxAge <? now - room_createdAt room)%Z);
      simpl; by simplify_option_eq. }
  split_and!; [reflexivity | reflexivity | |].
  - intros r room Hr. rewrite Hl, Hr.
    destruct (room_peers room) as [| p ps] eqn:Ep; simpl.
    + destruct (Z.ltb_spec maxAge (now - room_createdAt room)); split_and!;
        try done; try lia; try tauto.
      split; [done | intros [_ ?]; lia].
    + split_and!; try done. split; [done | intros [? _]; done].
  - intros r Hr. by rewrite Hl, Hr.
Qed.

(** ** Further properties of the room registry and the relay server *)

Section MembershipFacts.

Implicit Types (st : Server) (ws id r roomId : string) (m : SignalingMessage).

Lemma peers_delete_nil ws (l : list string) :
  (length (peers_delete ws l) =? 0)%nat = true -> peers_delete ws l = [].
Proof. destruct (peers_delete ws l); [done | discriminate]. Qed.

(** Membership after [leaveRoom]: only the room recorded on the socket
    loses the socket; a room that ends up empty is deleted, which reads as no
    member. *)
Lemma peers_of_leaveRoom ws st r :
  peers_of (leaveRoom ws st) r =
  if decide (truthy (roomId_of st ws) = Some r) then peers_delete ws (peers_of st r)
  else peers_of st r.
Proof.
  destruct (truthy (roomId_of st ws)) as [rid |] eqn:Et.
  - destruct (rooms st !! rid) as [room |] eqn:Er.
    + rewrite (leaveRoom_unfold ws rid room st Et Er). cbv zeta.
      unfold peers_of at 1. cbn [rooms set_sockets].
      destruct (decide (Some rid = Some r)) as [[= <-] | Hne].
      * destruct (length (peers_delete ws (room_peers room)) =? 0)%nat eqn:El.
        -- cbn [rooms set_rooms]. rewrite lookup_delete_eq. simpl.
           unfold peers_of. rewrite Er. simpl. symmetry. by apply peers_delete_nil.
        -- rewrite rooms_fanout. cbn [rooms set_rooms]. rewrite lookup_alter_eq, Er. simpl.
           unfold peers_of. by rewrite Er.
      * assert (rid <> r) by congruence.
        destruct (length (peers_delete ws (room_peers room)) =? 0)%nat.
        -- cbn [rooms set_rooms]. rewrite lookup_delete_ne by done.
           rewrite rooms_fanout. cbn [rooms set_rooms]. by rewrite lookup_alter_ne.
        -- rewrite rooms_fanout. cbn [rooms set_rooms]. by rewrite lookup_alter_ne.
    + assert (Hl : leaveRoom ws st = st) by (unfold leaveRoom; by rewrite Et, Er).
      rewrite Hl. destruct (decide (Some rid = Some r)) as [[= <-] | Hne]; [| done].
      unfold peers_of. by rewrite Er.
  - assert (Hl : leaveRoom ws st = st) by (unfold leaveRoom; by rewrite Et).
    rewrite Hl. by rewrite decide_False.
Qed.

(** Whether the two guards of [leaveRoom] let it through. *)
Definition leaves (ws : string) (st : Server) : bool :=
  match truthy (roomId_of st ws) with
  | Some rid => bool_decide (is_Some (rooms st !! rid))
  | None => false
  end.

Lemma leaveRoom_guarded ws st : leaves ws st = false -> leaveRoom ws st = st.
Proof.
  unfold leaves, leaveRoom. destruct (truthy (roomId_of st ws)) as [rid |]; [| done].
  destruct (rooms st !! rid); [| done]. intros H.
  apply bool_decide_eq_false in H. destruct H. by eexists.
Qed.

Lemma truthy_Some (o : option string) s : truthy o = Some s -> o = Some s /\ s <> "".
Proof.
  destruct o as [s' |]; simpl; [| done].
  destruct (String.eqb_spec s' ""); [done |]. intros [= <-]. done.
Qed.

Lemma roomId_of_leaveRoom ws st id :
  roomId_of (leaveRoom ws st) id =
  if decide (id = ws) then (if leaves ws st then None else roomId_of st ws)
  else roomId_of st id.
Proof.
  destruct (leaves ws st) eqn:El.
  - unfold leaves in El. destruct (truthy (roomId_of st ws)) as [rid |] eqn:Et; [| done].
    apply bool_decide_eq_true in El as [room Er].
    rewrite (leaveRoom_unfold ws rid room st Et Er). cbv zeta.
    apply truthy_Some in Et as [Ht _].
    assert (Hs : forall b : bool, forall X Y : Server, sockets X = sockets Y ->
               sockets (if b then X else Y) = sockets Y) by (by intros []).
    destruct (decide (id = ws)) as [-> | Hne].
    + unfold roomId_of in *. cbn [sockets set_sockets]. rewrite lookup_alter_eq.
      destruct (sockets (if (length (peers_delete ws (room_peers room)) =? 0)%nat
                         then _ else _) !! ws); [done | done].
    + rewrite roomId_of_alter_ne by done.
      destruct (length (peers_delete ws (room_peers room)) =? 0)%nat.
      * change (roomId_of (set_rooms (delete rid) ?s) id) with (roomId_of s id).
        rewrite roomId_of_fanout. done.
      * rewrite roomId_of_fanout. done.
  - rewrite leaveRoom_guarded by done. by destruct (decide (id = ws)) as [-> |].
Qed.

Lemma leaves_leaveRoom ws st : leaves ws (leaveRoom ws st) = false.
Proof.
  destruct (leaves ws st) eqn:El.
  - unfold leaves at 1. rewrite roomId_of_leaveRoom, decide_True, El by done. done.
  - by rewrite leaveRoom_guarded.
Qed.

(** [leaveRoom] twice is [leaveRoom] once. *)
Lemma leaveRoom_idempotent ws st : leaveRoom ws (leaveRoom ws st) = leaveRoom ws st.
Proof. apply leaveRoom_guarded, leaves_leaveRoom. Qed.

Lemma leaves_alter_readyState ws (rs : ReadyState) st :
  leaves ws (set_sockets (alter (ws_set_readyState rs) ws) st) = leaves ws st.
Proof.
  unfold leaves, roomId_of. cbn [sockets rooms set_sockets]. rewrite lookup_alter_eq.
  by destruct (sockets st !! ws).
Qed.

End MembershipFacts.

Section JoinFacts.

Implicit Types (st : Server) (ws id r roomId : string) (m : SignalingMessage).

Lemma sockets_room_for_join roomId now st : sockets (room_for_join roomId now st) = sockets st.
Proof. unfold room_for_join. by destruct (rooms st !! roomId). Qed.

Lemma rooms_room_for_join_ne roomId now st r :
  r <> roomId -> rooms (room_for_join roomId now st) !! r = rooms st !! r.
Proof.
  intros Hne. unfold room_for_join. destruct (rooms st !! roomId); [done |].
  simpl. by rewrite lookup_insert_ne.
Qed.

(** The registry after [joinRoom]. *)
Lemma rooms_joinRoom roomId ws now st r :
  rooms (snd (joinRoom roomId ws now st)) !! r =
  if decide (r = roomId) then
    Some (mkRoom (from_option room_id roomId (rooms st !! roomId))
                 (peers_set ws (peers_of st roomId))
                 (from_option room_createdAt now (rooms st !! roomId)))
  else rooms st !! r.
Proof.
  rewrite joinRoom_unfold. cbv zeta. rewrite rooms_send, rooms_fanout.
  cbn [rooms set_sockets set_rooms].
  destruct (decide (r = roomId)) as [-> | Hne].
  - rewrite lookup_alter_eq.
    destruct (room_for_join_peers roomId now st) as (room & -> & Hp & Hi & Hc).
    simpl. unfold room_set_peers. by rewrite Hp, Hi, Hc.
  - rewrite lookup_alter_ne by done. by apply rooms_room_for_join_ne.
Qed.

(** The socket heap after [joinRoom], up to the message logs. *)
Lemma roomId_of_send ws m st id : roomId_of (send ws m st) id = roomId_of st id.
Proof.
  unfold roomId_of. rewrite lookup_send.
  destruct (decide (ws = id)); [| done]. by destruct (sockets st !! id).
Qed.

Lemma roomId_of_joinRoom roomId ws now st id :
  roomId_of (snd (joinRoom roomId ws now st)) id =
  if decide (id = ws) then (if sockets st !! ws is Some _ then Some roomId else None)
  else roomId_of st id.
Proof.
  rewrite joinRoom_unfold. cbv zeta. rewrite roomId_of_send, roomId_of_fanout.
  destruct (decide (id = ws)) as [-> | Hne].
  - unfold roomId_of. cbn [sockets set_sockets set_rooms]. rewrite lookup_alter_eq.
    rewrite sockets_room_for_join. by destruct (sockets st !! ws).
  - rewrite roomId_of_alter_ne by done. unfold roomId_of. cbn [sockets set_rooms].
    by rewrite sockets_room_for_join.
Qed.

Lemma mem_peers_set_ne ws id (l : list string) :
  id <> ws -> mem id (peers_set ws l) = mem id l.
Proof.
  intros Hne. destruct (mem id l) eqn:E.
  - apply mem_true. apply elem_of_peers_set. left. by apply mem_true.
  - apply mem_false. rewrite elem_of_peers_set. apply mem_false in E. tauto.
Qed.

Lemma peers_delete_peers_set ws (l : list string) :
  ws ∉ l -> peers_delete ws (peers_set ws l) = l.
Proof.
  intros Hn. unfold peers_set. apply mem_false in Hn as Hm. rewrite Hm.
  unfold peers_delete. rewrite filter_app, filter_cons, filter_nil.
  rewrite String.eqb_refl. simpl. rewrite app_nil_r.
  clear Hm. induction l as [| a l IH]; [done |].
  apply not_elem_of_cons in Hn as [Hne Hn].
  rewrite filter_cons. destruct (String.eqb_spec ws a); [congruence |].
  simpl. by rewrite IH.
Qed.

(** What the sockets other than the joiner are handed by [joinRoom]. *)
Lemma sent_to_joinRoom_other roomId ws now st id :
  wf st -> id <> ws ->
  sent_to (snd (joinRoom roomId ws now st)) id =
  sent_to st id ++
  (if mem id (peers_of st roomId) && is_open st id
   then [peerJoinedMessage roomId (mkPeerInfo ws (username_of st ws) now)] else []).
Proof.
  intros Hwf Hne.
  pose proof (joinRoom_peers roomId ws now st) as Hpeers.
  rewrite joinRoom_unfold in *. cbv zeta in *.
  set (st3 := set_sockets _ _) in *.
  assert (Hp3 : peers_of st3 roomId = peers_set ws (peers_of st roomId)).
  { unfold peers_of at 1 in Hpeers. rewrite rooms_send, rooms_fanout in Hpeers. exact Hpeers. }
  assert (Hu : username_of st3 ws = username_of st ws).
  { unfold username_of, st3. cbn [sockets set_sockets set_rooms]. rewrite lookup_alter_eq.
    rewrite sockets_room_for_join. by destruct (sockets st !! ws). }
  assert (Hs3 : sockets st3 !! id = sockets st !! id).
  { unfold st3. cbn [sockets set_sockets set_rooms]. rewrite lookup_alter_ne by done.
    by rewrite sockets_room_for_join. }
  unfold sent_to at 1. rewrite lookup_send, decide_False by done.
  fold (sent_to (fanout (peerJoinedMessage roomId (mkPeerInfo ws (username_of st3 ws) now))
                   (Some ws) (peers_of st3 roomId) st3) id).
  rewrite sent_to_fanout.
  2:{ rewrite Hp3. apply NoDup_peers_set. unfold peers_of.
      destruct (rooms st !! roomId) as [room |] eqn:E; simpl; [by eapply Hwf | constructor]. }
  unfold reached. rewrite Hp3, mem_peers_set_ne by done.
  rewrite bool_decide_eq_false_2 by congruence. simpl. rewrite andb_true_r.
  unfold sent_to, is_open. rewrite Hs3, Hu. done.
Qed.

End JoinFacts.

(** X1: [joinRoom] seen from the other sockets.  Every member of the room
    before the join whose socket is OPEN is handed exactly one
    [peer-joined] carrying the joiner's id and username; nobody else is handed
    anything (the joiner itself gets the peer list, not this notice).  The
    joiner's [roomId] now names the room, no other socket's [roomId] moves, and
    no other room changes.  A member that joins the room it is already in is
    announced to the others again. *)
Theorem join_notifies_open_members (roomId ws : string) (now : Z) (st : Server) :
  wf st ->
  is_Some (sockets st !! ws) ->
  let st' := snd (joinRoom roomId ws now st) in
  let notice := peerJoinedMessage roomId (mkPeerInfo ws (username_of st ws) now) in
  (forall id, id <> ws ->
     sent_to st' id =
     sent_to st id ++ (if mem id (peers_of st roomId) && is_open st id then [notice] else [])) /\
  roomId_of st' ws = Some roomId /\
  (forall id, id <> ws -> roomId_of st' id = roomId_of st id) /\
  (forall r, r <> roomId -> rooms st' !! r = rooms st !! r).
Proof.
  intros Hwf [w Hw]. cbv zeta. split_and!.
  - intros id Hne. by apply sent_to_joinRoom_other.
  - rewrite roomId_of_joinRoom, decide_True by done. by rewrite Hw.
  - intros id Hne. by rewrite roomId_of_joinRoom, decide_False.
  - intros r Hne. by rewrite rooms_joinRoom, decide_False.
Qed.

(** ["b"] joins room ["r"] where ["a"] already is: ["a"] is handed one notice. *)
Lemma join_notifies_open_members_witness :
  sent_to (snd (joinRoom "r" "b" 3
                  (run empty_server
                     [(0, Connection "a"); (0, Connection "b");
                      (1, Message "a" (Some (join_msg "r" (Some "alice"))))]%Z))) "a" =
  [peerListMessage "r" [mkPeerInfo "a" (Some (JStr "alice")) 1];
   peerJoinedMessage "r" (mkPeerInfo "b" None 3)].
Proof.
  destruct (join_notifies_open_members "r" "b" 3
              (run empty_server
                 [(0, Connection "a"); (0, Connection "b");
                  (1, Message "a" (Some (join_msg "r" (Some "alice"))))]%Z))
    as (H & _).
  - apply wf_reachable.
  - vm_compute. eauto.
  - exact (H "a" ltac:(discriminate)).
Defined.

(** X2: join followed by leave.  A connected socket that joins a room it is
    not yet a member of (room id not empty) and then leaves: its [roomId] is
    cleared; if the room had members before, the registry is exactly what it
    was (same members in the same order, same creation time); if it had none,
    whether it was absent or had been created empty by [POST /create-room],
    the room is gone from the registry. *)
Theorem join_then_leave_restores_rooms (roomId ws : string) (now : Z) (st : Server) :
  is_Some (sockets st !! ws) ->
  roomId <> "" ->
  ws ∉ peers_of st roomId ->
  let st' := leaveRoom ws (snd (joinRoom roomId ws now st)) in
  rooms st' = (if decide (peers_of st roomId = []) then delete roomId (rooms st) else rooms st) /\
  roomId_of st' ws = None.
Proof.
  intros [w Hw] Hne Hnin. cbv zeta.
  set (stj := snd (joinRoom roomId ws now st)).
  assert (Hrid : roomId_of stj ws = Some roomId).
  { unfold stj. rewrite roomId_of_joinRoom, decide_True by done. by rewrite Hw. }
  assert (Ht : truthy (roomId_of stj ws) = Some roomId).
  { rewrite Hrid. simpl. by destruct (String.eqb_spec roomId ""). }
  pose proof (rooms_joinRoom roomId ws now st roomId) as Hr.
  rewrite decide_True in Hr by done. fold stj in Hr.
  split.
  - rewrite (leaveRoom_unfold ws roomId _ stj Ht Hr). cbv zeta. cbn [room_peers].
    rewrite peers_delete_peers_set by done.
    apply map_eq. intros r.
    destruct (decide (peers_of st roomId = [])) as [He | Hn].
    + rewrite He. cbn [length Nat.eqb rooms set_sockets set_rooms].
      rewrite rooms_fanout. cbn [rooms set_rooms]. rewrite !lookup_delete.
      destruct (decide (roomId = r)) as [-> | Hr']; [done |].
      rewrite lookup_alter_ne by done. unfold stj.
      by rewrite rooms_joinRoom, decide_False.
    + destruct (peers_of st roomId) as [| p l] eqn:Ep; [done |].
      cbn [length Nat.eqb rooms set_sockets set_rooms].
      rewrite rooms_fanout. cbn [rooms set_rooms].
      destruct (decide (roomId = r)) as [<- | Hr'].
      * rewrite lookup_alter_eq, Hr. simpl. unfold room_set_peers. simpl.
        unfold peers_of in Ep.
        destruct (rooms st !! roomId) as [[i ps c] |] eqn:E; simpl in *; [| done].
        rewrite peers_delete_peers_set by done. by subst.
      * rewrite lookup_alter_ne by done. unfold stj.
        by rewrite rooms_joinRoom, decide_False.
  - rewrite roomId_of_leaveRoom, decide_True by done.
    unfold leaves. rewrite Ht, Hr. by rewrite bool_decide_eq_true_2.
Qed.

(** ["a"] joins the room ["r"] that [POST /create-room] made, and leaves: no room is left. *)
Lemma join_then_leave_restores_rooms_witness :
  rooms (leaveRoom "a" (snd (joinRoom "r" "a" 2
           (run empty_server [(0, Connection "a"); (1, PostCreateRoom "r")]%Z)))) !! "r" = None.
Proof.
  destruct (join_then_leave_restores_rooms "r" "a" 2
              (run empty_server [(0, Connection "a"); (1, PostCreateRoom "r")]%Z))
    as [H _].
  - vm_compute. eauto.
  - discriminate.
  - vm_compute. apply not_elem_of_nil.
  - rewrite H. vm_compute. reflexivity.
Defined.

(** X3: leaving is idempotent, and a [leave] message is not addressed.  The
    room named in a [leave] message is ignored (the room recorded on the
    connection is left); once a connection has left, a second [leave] or an
    [error] event changes nothing, and the [close] event only records the
    closed transport: nobody is notified twice. *)
Theorem second_leave_changes_nothing (ws r r' : string) (now now' : Z) (st : Server) :
  let st1 := step now st (Message ws (Some (leave_msg r))) in
  st1 = step now st (Message ws (Some (leave_msg r'))) /\
  step now' st1 (Message ws (Some (leave_msg r'))) = st1 /\
  step now' st1 (Error ws) = st1 /\
  step now' st1 (Close ws) = set_sockets (alter (ws_set_readyState CLOSED) ws) st1 /\
  (forall id, sent_to (step now' st1 (Close ws)) id = sent_to st1 id).
Proof.
  cbv zeta. cbn [step handleSignalingMessage leave_msg msg_type].
  assert (Hc : leaveRoom ws (set_sockets (alter (ws_set_readyState CLOSED) ws) (leaveRoom ws st))
               = set_sockets (alter (ws_set_readyState CLOSED) ws) (leaveRoom ws st)).
  { apply leaveRoom_guarded. rewrite leaves_alter_readyState. apply leaves_leaveRoom. }
  split_and!; try done; try apply leaveRoom_idempotent.
  intros id. rewrite Hc. by apply sent_to_alter.
Qed.

(** X4: the room with the empty id.  [joinRoom] accepts the empty string as
    a room id, but [leaveRoom] reads an empty [ws.roomId] as _not in a room_:
    a connection that joined room [""] stays a member through a [leave]
    message, an [error] event and the [close] of its transport. *)
Theorem empty_room_id_is_never_left (ws : string) (now : Z) (st : Server) :
  is_Some (sockets st !! ws) ->
  let st1 := snd (joinRoom "" ws now st) in
  ws ∈ peers_of st1 "" /\
  leaveRoom ws st1 = st1 /\
  (forall now' e, leaving ws e -> ws ∈ peers_of (step now' st1 e) "").
Proof.
  intros [w Hw]. cbv zeta.
  set (st1 := snd (joinRoom "" ws now st)).
  assert (Hin : ws ∈ peers_of st1 "").
  { unfold st1. rewrite joinRoom_peers. apply elem_of_peers_set. by right. }
  assert (Hl : leaves ws st1 = false).
  { unfold leaves, st1. rewrite roomId_of_joinRoom, decide_True by done. by rewrite Hw. }
  split_and!; [done | by apply leaveRoom_guarded |].
  intros now' e He. destruct He as [m Hm | |]; cbn [step].
  - unfold handleSignalingMessage. rewrite Hm. by rewrite leaveRoom_guarded.
  - rewrite leaveRoom_guarded by (by rewrite leaves_alter_readyState). exact Hin.
  - by rewrite leaveRoom_guarded.
Qed.

Lemma empty_room_id_is_never_left_witness :
  "a" ∈ peers_of (step 2 (snd (joinRoom "" "a" 1 one_client)) (Close "a")) "".
Proof.
  destruct (empty_room_id_is_never_left "a" 1 one_client) as (_ & _ & H).
  - vm_compute. eauto.
  - apply H. constructor.
Defined.

(** *** Fields of a socket the room operations never write *)

Section FieldFacts.

Context {A : Type} (p : ExtendedWebSocket -> A).
Hypothesis p_push : forall m w, p (ws_push m w) = p w.

Implicit Types (st : Server) (ws id r roomId : string) (m : SignalingMessage).

Lemma field_send ws m st id : p <$> sockets (send ws m st) !! id = p <$> sockets st !! id.
Proof.
  rewrite lookup_send. destruct (decide (ws = id)); [| done].
  destruct (sockets st !! id); simpl; [by rewrite p_push | done].
Qed.

Lemma field_fanout m ex (l : list string) st id :
  p <$> sockets (fanout m ex l st) !! id = p <$> sockets st !! id.
Proof.
  revert st. induction l as [| a l IH]; intros st; [done |].
  unfold fanout in *. simpl. rewrite IH.
  destruct (negb (bool_decide (Some a = ex)) && is_open st a); [| done].
  apply field_send.
Qed.

Lemma field_alter (f : ExtendedWebSocket -> ExtendedWebSocket) ws st id :
  (forall w, p (f w) = p w) ->
  p <$> sockets (set_sockets (alter f ws) st) !! id = p <$> sockets st !! id.
Proof.
  intros Hf. cbn [sockets set_sockets]. rewrite lookup_alter.
  destruct (decide (ws = id)) as [-> |]; [| done].
  destruct (sockets st !! id); simpl; [by rewrite Hf | done].
Qed.

Hypothesis p_roomId : forall (o : option string) w, p (ws_set_roomId o w) = p w.

Lemma field_leaveRoom ws st id :
  p <$> sockets (leaveRoom ws st) !! id = p <$> sockets st !! id.
Proof.
  unfold leaveRoom. destruct (truthy (roomId_of st ws)) as [rid |]; [| done].
  destruct (rooms st !! rid); [| done]. cbv zeta.
  rewrite field_alter by (intros; apply p_roomId).
  rewrite broadcastToRoom_fanout.
  set (st2 := fanout _ _ _ _).
  assert (H : sockets (if (length (peers_of st2 rid) =? 0)%nat
                       then set_rooms (delete rid) st2 else st2) = sockets st2)
    by (by destruct (length (peers_of st2 rid) =? 0)%nat).
  rewrite H. unfold st2. by rewrite field_fanout.
Qed.

Lemma field_joinRoom roomId ws now st id :
  p <$> sockets (snd (joinRoom roomId ws now st)) !! id = p <$> sockets st !! id.
Proof.
  rewrite joinRoom_unfold. cbv zeta. rewrite field_send, field_fanout.
  rewrite field_alter by (intros; apply p_roomId).
  cbn [sockets set_rooms]. by rewrite sockets_room_for_join.
Qed.

Lemma field_sendError ws code text st id :
  p <$> sockets (sendError ws code text st) !! id = p <$> sockets st !! id.
Proof. unfold sendError. apply field_send. Qed.

Lemma field_sendToPeer roomId target m st id :
  p <$> sockets (snd (sendToPeer roomId target m st)) !! id = p <$> sockets st !! id.
Proof.
  unfold sendToPeer. destruct (rooms st !! roomId) as [room |]; [| done].
  destruct (mem target (room_peers room) && is_open st target); [| done].
  apply field_send.
Qed.

End FieldFacts.

Lemma username_of_field (st : Server) (id : string) :
  username_of st id = mjoin (ws_username <$> sockets st !! id).
Proof. unfold username_of. by destruct (sockets st !! id). Qed.

(** *** Error replies *)

(** The [ErrorMessage] that [sendError] builds. *)
Definition errorReply (st : Server) (ws code text : string) : SignalingMessage :=
  mkMsg error (default "" (truthy (roomId_of st ws))) "server" None
        (Some (JObj [("code", JStr code); ("message", JStr text)])).

(** The message types a client may send. *)
Definition is_client_request (t : SignalingMessageType) : bool :=
  match t with
  | join | leave | offer | answer | candidate => true
  | _ => false
  end.

(** The whole effect of a handler is one error reply on the sender's socket. *)
Definition only_error (st st' : Server) (ws code text : string) : Prop :=
  rooms st' = rooms st /\
  sent_to st' ws = sent_to st ws ++ [errorReply st ws code text] /\
  (forall id, id <> ws -> sockets st' !! id = sockets st !! id) /\
  roomId_of st' ws = roomId_of st ws.

Lemma sendError_only_error ws code text st :
  is_Some (sockets st !! ws) ->
  only_error st (sendError ws code text st) ws code text.
Proof.
  intros Hw. unfold only_error, sendError. fold (errorReply st ws code text). split_and!.
  - reflexivity.
  - apply sent_to_push; [| done]. by rewrite lookup_send, decide_True.
  - intros id Hne. by rewrite lookup_send, decide_False.
  - apply roomId_of_send.
Qed.

(** X5: refused frames.  A frame that [JSON.parse] rejects, a relayed
    message (offer, answer, candidate) without a usable [targetId], and a
    message whose type is none of the five client requests (the server's own
    [peer-list], [peer-joined], [peer-left] and [error] included) are each
    answered with exactly one [error] message on the sender's socket, with code
    [INVALID_MESSAGE], [MISSING_TARGET] and [UNKNOWN_TYPE]; its [roomId] is the
    sender's room, or the empty string.  Nothing is relayed, no other socket
    and no room changes. *)
Theorem refused_frames_get_one_error (ws : string) (now : Z) (st : Server) :
  is_Some (sockets st !! ws) ->
  only_error st (step now st (Message ws None)) ws
    "INVALID_MESSAGE" "Invalid message format" /\
  (forall m, is_relayed (msg_type m) = true -> truthy (msg_targetId m) = None ->
     only_error st (step now st (Message ws (Some m))) ws
       "MISSING_TARGET" "Target peer ID is required") /\
  (forall m, is_client_request (msg_type m) = false ->
     only_error st (step now st (Message ws (Some m))) ws
       "UNKNOWN_TYPE" ("Unknown message type: " +:+ type_tag (msg_type m))).
Proof.
  intros Hw. split_and!.
  - by apply sendError_only_error.
  - intros m Hty Htg. cbn [step]. unfold handleSignalingMessage.
    destruct (msg_type m); try discriminate; rewrite Htg; by apply sendError_only_error.
  - intros m Hty. cbn [step]. unfold handleSignalingMessage.
    destruct (msg_type m); try discriminate; by apply sendError_only_error.
Qed.

(** A client that sends the server's own [peer-left] is refused. *)
Lemma refused_frames_get_one_error_witness :
  sent_to (step 3 two_members
             (Message "a" (Some (mkMsg peer_left "r" "server" None
                                   (Some (JObj [("peerId", JStr "b")])))))) "a" =
  sent_to two_members "a" ++
  [errorReply two_members "a" "UNKNOWN_TYPE" "Unknown message type: peer-left"].
Proof.
  destruct (refused_frames_get_one_error "a" 3 two_members) as (_ & _ & H).
  - vm_compute. eauto.
  - destruct (H (mkMsg peer_left "r" "server" None (Some (JObj [("peerId", JStr "b")]))))
      as (_ & H' & _); [reflexivity | exact H'].
Defined.

(** *** Usernames of members *)

Definition named (st : Server) (id : string) : Prop :=
  exists u, username_of st id = Some u /\ js_truthy u = true.

Definition members_named (st : Server) : Prop :=
  forall r id, id ∈ peers_of st r -> named st id.

(** An event on a socket comes from a socket the server holds. *)
Definition from_connected (st : Server) (e : Event) : Prop :=
  match e with
  | Message ws _ | Close ws | Error ws | Pong ws | Transport ws _ => is_Some (sockets st !! ws)
  | Connection _ | PostCreateRoom _ | Sweep => True
  end.

Fixpoint admissible (st : Server) (es : list (Z * Event)) : Prop :=
  match es with
  | [] => True
  | (now, e) :: es' => from_connected st e /\ admissible (step now st e) es'
  end.

Section NameFacts.

Implicit Types (st : Server) (ws id r roomId : string) (m : SignalingMessage).

Lemma members_named_mono st st' :
  members_named st ->
  (forall id, named st id -> named st' id) ->
  (forall r id, id ∈ peers_of st' r -> id ∈ peers_of st r \/ named st' id) ->
  members_named st'.
Proof.
  intros Hm Hn Hp r id Hin. destruct (Hp r id Hin) as [H | H]; [| done].
  apply Hn. by eapply Hm.
Qed.

Lemma members_named_same_names st st' :
  members_named st ->
  (forall id, username_of st' id = username_of st id) ->
  (forall r id, id ∈ peers_of st' r -> id ∈ peers_of st r) ->
  members_named st'.
Proof.
  intros Hm Hu Hp. eapply members_named_mono; [exact Hm | |].
  - intros id (u & H & Hne). exists u. by rewrite Hu.
  - intros r id H. left. by apply Hp.
Qed.

Lemma username_of_leaveRoom ws st id : username_of (leaveRoom ws st) id = username_of st id.
Proof. rewrite !username_of_field. by rewrite (field_leaveRoom ws_username). Qed.

Lemma username_of_joinRoom roomId ws now st id :
  username_of (snd (joinRoom roomId ws now st)) id = username_of st id.
Proof. rewrite !username_of_field. by rewrite (field_joinRoom ws_username). Qed.

Lemma username_of_alter (f : ExtendedWebSocket -> ExtendedWebSocket) ws st id :
  (forall w, ws_username (f w) = ws_username w) ->
  username_of (set_sockets (alter f ws) st) id = username_of st id.
Proof. intros Hf. rewrite !username_of_field. by rewrite (field_alter ws_username). Qed.

Lemma peers_of_joinRoom_ne roomId ws now st r :
  r <> roomId -> peers_of (snd (joinRoom roomId ws now st)) r = peers_of st r.
Proof. intros Hne. unfold peers_of. by rewrite rooms_joinRoom, decide_False. Qed.

Lemma elem_of_peers_of_leaveRoom ws st r id :
  id ∈ peers_of (leaveRoom ws st) r -> id ∈ peers_of st r.
Proof.
  rewrite peers_of_leaveRoom.
  destruct (decide (truthy (roomId_of st ws) = Some r)); [| done].
  rewrite elem_of_peers_delete. tauto.
Qed.

Lemma members_named_leaveRoom ws st : members_named st -> members_named (leaveRoom ws st).
Proof.
  intros Hm. eapply members_named_same_names; [exact Hm | |].
  - intros id. apply username_of_leaveRoom.
  - intros r id. apply elem_of_peers_of_leaveRoom.
Qed.

(** The name [handleSignalingMessage] records on a join is truthy. *)
Lemma joined_username_truthy ws payload : js_truthy (joined_username ws payload) = true.
Proof.
  unfold joined_username. destruct (payload_username payload) as [v |]; [| done].
  by destruct (js_truthy v) eqn:E.
Qed.

Lemma members_named_join ws m now st :
  msg_type m = join ->
  is_Some (sockets st !! ws) ->
  members_named st ->
  members_named (handleSignalingMessage ws m now st) /\
  username_of (handleSignalingMessage ws m now st) ws =
    Some (joined_username ws (msg_payload m)).
Proof.
  intros Hty [w Hw] Hm. unfold handleSignalingMessage. rewrite Hty.
  fold (joined_username ws (msg_payload m)).
  set (st1 := set_sockets (alter (ws_set_username (Some (joined_username ws (msg_payload m)))) ws) st).
  assert (Hu1 : forall id, username_of st1 id =
                  if decide (id = ws) then Some (joined_username ws (msg_payload m))
                  else username_of st id).
  { intros id. unfold username_of, st1. cbn [sockets set_sockets]. rewrite lookup_alter.
    destruct (decide (ws = id)) as [-> |].
    - rewrite decide_True by done. by rewrite Hw.
    - by rewrite decide_False by congruence. }
  assert (Hself : username_of (snd (joinRoom (msg_roomId m) ws now st1)) ws =
                  Some (joined_username ws (msg_payload m))).
  { rewrite username_of_joinRoom, Hu1. by rewrite decide_True. }
  split; [| exact Hself].
  eapply members_named_mono; [exact Hm | |].
  - intros id (u & Hu & Hne). unfold named. rewrite username_of_joinRoom, Hu1.
    destruct (decide (id = ws)) as [-> |]; [| eauto].
    eexists. split; [done | apply joined_username_truthy].
  - intros r id Hin. destruct (decide (r = msg_roomId m)) as [-> | Hr].
    + rewrite joinRoom_peers in Hin. apply elem_of_peers_set in Hin as [Hin | ->].
      * by left.
      * right. eexists. split; [exact Hself | apply joined_username_truthy].
    + rewrite peers_of_joinRoom_ne in Hin by done. by left.
Qed.

Lemma rooms_sendToPeer roomId target m st :
  rooms (snd (sendToPeer roomId target m st)) = rooms st.
Proof.
  unfold sendToPeer. destruct (rooms st !! roomId) as [room |]; [| done].
  by destruct (mem target (room_peers room) && is_open st target).
Qed.

(** Messages other than [join] and [leave] only write to message logs. *)
Lemma handle_sends_only ws m now st :
  msg_type m <> join -> msg_type m <> leave ->
  rooms (handleSignalingMessage ws m now st) = rooms st /\
  forall A (p : ExtendedWebSocket -> A), (forall m' w, p (ws_push m' w) = p w) ->
    forall id, p <$> sockets (handleSignalingMessage ws m now st) !! id = p <$> sockets st !! id.
Proof.
  intros Hj Hl.
  assert (Hrelay : forall t,
    let st' := match truthy (msg_targetId m) with
               | None => sendError ws "MISSING_TARGET" "Target peer ID is required" st
               | Some target =>
                   let '(sent, st1) :=
                     sendToPeer (msg_roomId m) target
                       (mkMsg t (msg_roomId m) ws (Some target) (msg_payload m)) st in
                   if sent then st1
                   else sendError ws "PEER_NOT_FOUND" ("Target peer " +:+ target +:+ " not found") st1
               end in
    rooms st' = rooms st /\
    forall A (p : ExtendedWebSocket -> A), (forall m' w, p (ws_push m' w) = p w) ->
      forall id, p <$> sockets st' !! id = p <$> sockets st !! id).
  { intros t. cbv zeta. destruct (truthy (msg_targetId m)) as [target |].
    - pose proof (rooms_sendToPeer (msg_roomId m) target
                    (mkMsg t (msg_roomId m) ws (Some target) (msg_payload m)) st) as Hr.
      pose proof (fun A p H id => @field_sendToPeer A p H (msg_roomId m) target
                    (mkMsg t (msg_roomId m) ws (Some target) (msg_payload m)) st id) as Hf.
      destruct (sendToPeer _ _ _ st) as [sent st1]. simpl in Hr, Hf.
      destruct sent; [by split |]. split; [done |].
      intros A p Hp id. rewrite field_sendError by done. by apply Hf.
    - split; [done |]. intros A p Hp id. by apply field_sendError. }
  unfold handleSignalingMessage.
  destruct (msg_type m) eqn:Hty; try done; try apply Hrelay;
    (split; [done | intros A p Hp id; by apply field_sendError]).
Qed.

Lemma peers_of_same_rooms st st' r : rooms st' = rooms st -> peers_of st' r = peers_of st r.
Proof. unfold peers_of. by intros ->. Qed.

Lemma members_named_step now st e :
  from_connected st e -> members_named st -> members_named (step now st e).
Proof.
  intros Hc Hm. destruct e as [id | ws [m |] | ws | ws | ws | ws rs | roomId |]; cbn [step].
  - destruct (sockets st !! id) as [w |] eqn:Ew; [done |].
    eapply members_named_mono; [exact Hm | |].
    + intros id' (u & Hu & Hne). exists u. split; [| done].
      unfold username_of in *. cbn [sockets set_sockets].
      rewrite lookup_insert_ne; [done |]. intros ->. by rewrite Ew in Hu.
    + intros r id'. by left.
  - assert (Hother : msg_type m <> join -> msg_type m <> leave ->
                      members_named (handleSignalingMessage ws m now st)).
    { intros Hj Hl. destruct (handle_sends_only ws m now st Hj Hl) as [Hr Hf].
      eapply members_named_same_names; [exact Hm | |].
      + intros id. rewrite !username_of_field. by rewrite (Hf _ ws_username).
      + intros r id. by rewrite (peers_of_same_rooms _ _ _ Hr). }
    destruct (msg_type m) eqn:Hty; try (apply Hother; discriminate).
    + by apply members_named_join.
    + unfold handleSignalingMessage. rewrite Hty. by apply members_named_leaveRoom.
  - eapply members_named_same_names; [exact Hm | | done].
    intros id. rewrite !username_of_field. by rewrite (field_sendError ws_username).
  - apply members_named_leaveRoom.
    eapply members_named_same_names; [exact Hm | | done].
    intros id. by apply username_of_alter.
  - by apply members_named_leaveRoom.
  - eapply members_named_same_names; [exact Hm | | done].
    intros id. by apply username_of_alter.
  - eapply members_named_same_names; [exact Hm | | done].
    intros id. by apply username_of_alter.
  - eapply members_named_same_names; [exact Hm | done |].
    intros r id. unfold peers_of. cbn [rooms createRoom set_rooms snd].
    rewrite lookup_insert. destruct (decide (roomId = r)); [| done].
    simpl. by intros ?%elem_of_nil.
  - eapply members_named_same_names; [exact Hm | done |].
    intros r id. unfold peers_of, cleanupStaleRooms. cbn [rooms set_rooms].
    destruct (filter _ (rooms st) !! r) as [room |] eqn:E; simpl; [| by intros ?%elem_of_nil].
    apply map_lookup_filter_Some in E as [-> _]. done.
Qed.

Lemma members_named_run (es : list (Z * Event)) : forall st,
  admissible st es -> members_named st -> members_named (run st es).
Proof.
  induction es as [| [now e] es IH]; intros st Ha Hm; [done |].
  destruct Ha as [Hc Ha]. cbn [run fold_left fst snd]. apply IH; [done |].
  by apply members_named_step.
Qed.

End NameFacts.

(** X6: members are always named.  In every state the server reaches from
    the empty registry through events that come from sockets it holds, each
    member of each room has a username that is a truthy value: the value its
    [join] carried under [username] when that value is truthy (a non-empty
    string, but also a number other than 0, [true], an array or an object:
    the declared type [string] is not checked), and otherwise ["Peer-"]
    followed by the first four characters of its connection id.  So every
    entry of every peer list carries a [username], although the type makes
    the field optional, and it is never [null], [false], [0] or [""]. *)
Theorem members_always_named (es : list (Z * Event)) :
  admissible empty_server es ->
  let st := run empty_server es in
  members_named st /\
  (forall roomId now p, p ∈ getPeerList roomId now st ->
     exists u, pi_username p = Some u /\ js_truthy u = true) /\
  (forall ws m now, msg_type m = join -> is_Some (sockets st !! ws) ->
     let fallback := JStr ("Peer-" +:+ String.substring 0 4 ws) in
     username_of (step now st (Message ws (Some m))) ws =
       Some (match msg_payload m with
             | Some (JObj fields) =>
                 match assoc_get "username" fields with
                 | Some v => if js_truthy v then v else fallback
                 | None => fallback
                 end
             | _ => fallback
             end)).
Proof.
  intros Ha. cbv zeta.
  assert (Hm : members_named (run empty_server es)).
  { apply members_named_run; [done |]. intros r id H. by apply elem_of_nil in H. }
  split_and!; [done | |].
  - intros roomId now p Hp. unfold getPeerList in Hp.
    destruct (rooms (run empty_server es) !! roomId) as [room |] eqn:E;
      [| by apply elem_of_nil in Hp].
    apply list_elem_of_fmap in Hp as (id & -> & Hid). simpl.
    apply (Hm roomId id). unfold peers_of. by rewrite E.
  - intros ws m now Hty Hw. cbn [step].
    destruct (members_named_join ws m now _ Hty Hw Hm) as [_ H]. rewrite H. f_equal.
    unfold joined_username, payload_username.
    destruct (msg_payload m) as [[| | | | |fields] |]; try reflexivity.
Qed.

(** A join without a name is listed as ["Peer-a1b2"]; a join whose
    [username] is the number 42 is listed with the number 42. *)
Lemma members_always_named_witness :
  getPeerList "r" 5
    (run empty_server
       [(0, Connection "a1b2c3"); (1, Message "a1b2c3" (Some (join_msg "r" None)));
        (2, Connection "d4"); (3, Message "d4" (Some (mkMsg join "r" "client" None
                                 (Some (JObj [("username", JNum 42)])))))]%Z) =
  [mkPeerInfo "a1b2c3" (Some (JStr "Peer-a1b2")) 5; mkPeerInfo "d4" (Some (JNum 42)) 5] /\
  members_named
    (run empty_server
       [(0, Connection "a1b2c3"); (1, Message "a1b2c3" (Some (join_msg "r" None)));
        (2, Connection "d4"); (3, Message "d4" (Some (mkMsg join "r" "client" None
                                 (Some (JObj [("username", JNum 42)])))))]%Z).
Proof.
  split; [vm_compute; reflexivity |].
  apply (members_always_named
           [(0, Connection "a1b2c3"); (1, Message "a1b2c3" (Some (join_msg "r" None)));
            (2, Connection "d4"); (3, Message "d4" (Some (mkMsg join "r" "client" None
                                 (Some (JObj [("username", JNum 42)])))))]%Z).
  simpl. split_and!; [done | vm_compute; eauto | done | vm_compute; eauto | done].
Defined.

(** *** The counters of [GET /health] *)

Section CountFacts.

Implicit Types (st : Server) (ws id r roomId : string) (m : gmap string Room).

Definition total (m : gmap string Room) : nat :=
  map_fold (fun _ room count => (count + length (room_peers room))%nat) 0%nat m.

Lemma total_insert_fresh m k room :
  m !! k = None -> total (<[k:=room]> m) = (total m + length (room_peers room))%nat.
Proof.
  intros H. unfold total. rewrite map_fold_insert_L; [done | | done].
  intros. lia.
Qed.

Lemma total_lookup m k old :
  m !! k = Some old -> total m = (total (delete k m) + length (room_peers old))%nat.
Proof.
  intros H. unfold total. rewrite (map_fold_delete_L _ _ k old m); [done | | done].
  intros. lia.
Qed.

Lemma total_delete m k :
  (total (delete k m) + length (from_option room_peers [] (m !! k)) = total m)%nat.
Proof.
  destruct (m !! k) as [old |] eqn:E; simpl.
  - by rewrite (total_lookup m k old).
  - rewrite delete_id by done. lia.
Qed.

Lemma total_insert m k room :
  (total (<[k:=room]> m) + length (from_option room_peers [] (m !! k)) =
   total m + length (room_peers room))%nat.
Proof.
  rewrite <- (insert_delete_eq m k room).
  rewrite total_insert_fresh by apply lookup_delete_eq.
  pose proof (total_delete m k). lia.
Qed.

Lemma length_peers_set ws (l : list string) :
  length (peers_set ws l) = (length l + if mem ws l then 0 else 1)%nat.
Proof.
  unfold peers_set. destruct (mem ws l); [lia |]. rewrite length_app. simpl. lia.
Qed.

Lemma length_peers_delete ws (l : list string) :
  NoDup l ->
  (length (peers_delete ws l) + (if mem ws l then 1 else 0) = length l)%nat.
Proof.
  unfold peers_delete. induction 1 as [| a l Ha Hnd IH]; [done |].
  rewrite filter_cons. cbn [mem existsb]. fold (mem ws l).
  destruct (String.eqb_spec ws a) as [<- | Hne]; simpl.
  - apply mem_false in Ha. rewrite Ha in IH. lia.
  - destruct (mem ws l); lia.
Qed.

Lemma rooms_joinRoom_insert roomId ws now st :
  rooms (snd (joinRoom roomId ws now st)) =
  <[roomId := mkRoom (from_option room_id roomId (rooms st !! roomId))
                     (peers_set ws (peers_of st roomId))
                     (from_option room_createdAt now (rooms st !! roomId))]> (rooms st).
Proof.
  apply map_eq. intros r. rewrite rooms_joinRoom, lookup_insert.
  destruct (decide (r = roomId)) as [-> |].
  - by rewrite decide_True.
  - by rewrite decide_False by congruence.
Qed.

End CountFacts.

(** X7: the counters of [GET /health] across a join.  [peers] (the sum of
    the member counts of all rooms) grows by one when a connection joins a room
    it is not a member of, and stays when it joins the room it is already in;
    [rooms] grows by one exactly when the room did not exist.  A connection
    that is a member of two rooms is counted in both. *)
Theorem health_counts_after_join (roomId ws : string) (now : Z) (st : Server) :
  let st' := snd (joinRoom roomId ws now st) in
  getTotalPeerCount st' =
    (getTotalPeerCount st + if mem ws (peers_of st roomId) then 0 else 1)%nat /\
  getRoomCount st' =
    (getRoomCount st + if rooms st !! roomId is Some _ then 0 else 1)%nat.
Proof.
  cbv zeta. unfold getTotalPeerCount, getRoomCount.
  fold (total (rooms (snd (joinRoom roomId ws now st)))). fold (total (rooms st)).
  rewrite rooms_joinRoom_insert. split.
  - pose proof (total_insert (rooms st) roomId
                  (mkRoom (from_option room_id roomId (rooms st !! roomId))
                          (peers_set ws (peers_of st roomId))
                          (from_option room_createdAt now (rooms st !! roomId)))) as H.
    cbn [room_peers] in H. rewrite length_peers_set in H.
    fold (peers_of st roomId) in H.
    destruct (mem ws (peers_of st roomId)); lia.
  - rewrite map_size_insert. destruct (rooms st !! roomId); unfold id; lia.
Qed.

(** X8: the counters of [GET /health] across a leave.  When a connection
    leaves the room recorded for it, [peers] drops by one if it was a member of
    that room (by none otherwise), and [rooms] drops by one exactly when no
    member remains. *)
Theorem health_counts_after_leave (ws rid : string) (room : Room) (st : Server) :
  wf st ->
  truthy (roomId_of st ws) = Some rid ->
  rooms st !! rid = Some room ->
  let st' := leaveRoom ws st in
  (getTotalPeerCount st' + (if mem ws (room_peers room) then 1 else 0) =
   getTotalPeerCount st)%nat /\
  (getRoomCount st' + (if decide (peers_delete ws (room_peers room) = []) then 1 else 0) =
   getRoomCount st)%nat.
Proof.
  intros Hwf Ht Hr. cbv zeta. unfold getTotalPeerCount, getRoomCount.
  fold (total (rooms (leaveRoom ws st))). fold (total (rooms st)).
  assert (Hnd : NoDup (room_peers room)) by (by eapply Hwf).
  pose proof (length_peers_delete ws _ Hnd) as Hlen.
  rewrite (leaveRoom_unfold ws rid room st Ht Hr). cbv zeta.
  set (remaining := peers_delete ws (room_peers room)) in *.
  assert (Halter : rooms (fanout (peerLeftMessage rid ws) None remaining
                            (set_rooms (alter (room_set_peers (peers_delete ws)) rid) st))
                   = <[rid := mkRoom (room_id room) remaining (room_createdAt room)]> (rooms st)).
  { rewrite rooms_fanout. cbn [rooms set_rooms]. apply map_eq. intros r.
    rewrite lookup_insert. destruct (decide (rid = r)) as [<- | Hne].
    - by rewrite lookup_alter_eq, Hr.
    - by rewrite lookup_alter_ne. }
  pose proof (total_insert (rooms st) rid
                (mkRoom (room_id room) remaining (room_createdAt room))) as Hti.
  rewrite Hr in Hti. cbn [from_option room_peers] in Hti.
  destruct remaining as [| p l] eqn:Erem.
  - cbn [length Nat.eqb rooms set_sockets set_rooms]. rewrite Halter.
    rewrite decide_True by done. split.
    + pose proof (total_delete (<[rid := mkRoom (room_id room) [] (room_createdAt room)]>
                                  (rooms st)) rid) as Htd.
      rewrite lookup_insert_eq in Htd. cbn [from_option room_peers length] in *. lia.
    + rewrite map_size_delete, lookup_insert_eq, map_size_insert, Hr.
      assert (size (rooms st) <> 0%nat).
      { apply map_size_ne_0_lookup. by exists rid; eexists. }
      unfold id, Nat.pred. destruct (size (rooms st)); [done | lia].
  - cbn [length Nat.eqb rooms set_sockets]. rewrite Halter.
    rewrite decide_False by done. split.
    + cbn [length] in *. lia.
    + rewrite map_size_insert, Hr. unfold id. lia.
Qed.

(** ["a"] leaves room ["r"] of [two_members]: one peer less, the room stays. *)
Lemma health_counts_after_leave_witness :
  getTotalPeerCount (leaveRoom "a" two_members) = 1%nat /\
  getRoomCount (leaveRoom "a" two_members) = 1%nat.
Proof.
  destruct (health_counts_after_leave "a" "r" (mkRoom "r" ["a"; "b"] 1) two_members)
    as [H1 H2].
  - apply wf_reachable.
  - vm_compute. reflexivity.
  - vm_compute. reflexivity.
  - assert (Ht : getTotalPeerCount two_members = 2%nat) by (vm_compute; reflexivity).
    assert (Hc : getRoomCount two_members = 1%nat) by (vm_compute; reflexivity).
    assert (Hm : (if mem "a" (room_peers (mkRoom "r" ["a"; "b"] 1)) then 1 else 0)%nat
                 = 1%nat) by reflexivity.
    assert (Hd : (if decide (peers_delete "a" (room_peers (mkRoom "r" ["a"; "b"] 1)) = [])
                  then 1 else 0)%nat = 0%nat) by reflexivity.
    rewrite Ht, Hm in H1. rewrite Hc, Hd in H2. split; lia.
Defined.

(** *** The liveness timer

    Every [HEARTBEAT_INTERVAL] the server walks [wss.clients]: a socket whose
    [isAlive] flag is still down since the previous walk is taken out of its
    room and terminated; the others have the flag lowered and are pinged (a
    [pong] raises the flag again).  [wss.clients] is the set the ws library
    keeps (a socket is in it from its connection until its [close] event); it
    is a parameter here.  [terminate()] destroys the transport at once: the
    socket is CLOSING until its [close] event, CLOSED stays CLOSED.  [ping()]
    writes a control frame and touches nothing the server reads. *)

Definition HEARTBEAT_INTERVAL : Z := 30000.

Definition terminate (w : ExtendedWebSocket) : ExtendedWebSocket :=
  ws_set_readyState (match ws_readyState w with CLOSED => CLOSED | _ => CLOSING end) w.

(** The callback of [wss.clients.forEach] on one socket. *)
Definition heartbeat_visit (st : Server) (ws : string) : Server :=
  match sockets st !! ws with
  | Some w =>
      if ws_isAlive w
      then set_sockets (alter (ws_set_isAlive false) ws) st
      else set_sockets (alter terminate ws) (leaveRoom ws st)
  | None => st
  end.

Definition heartbeatTick (clients : list string) (st : Server) : Server :=
  fold_left heartbeat_visit clients st.

Definition isAlive_of (st : Server) (ws : string) : option bool :=
  ws_isAlive <$> sockets st !! ws.

Section HeartbeatFacts.

Implicit Types (st : Server) (ws id c r roomId : string) (clients : list string).

Lemma isAlive_of_visit st ws id :
  isAlive_of (heartbeat_visit st ws) id =
  if decide (id = ws) then (fun _ => false) <$> sockets st !! ws else isAlive_of st id.
Proof.
  unfold heartbeat_visit, isAlive_of.
  destruct (sockets st !! ws) as [w |] eqn:Ew.
  - destruct (ws_isAlive w) eqn:Ea.
    + cbn [sockets set_sockets]. rewrite lookup_alter.
      destruct (decide (ws = id)) as [-> |].
      * rewrite decide_True by done. by rewrite Ew.
      * by rewrite decide_False by congruence.
    + cbn [sockets set_sockets]. rewrite lookup_alter.
      destruct (decide (ws = id)) as [-> |].
      * rewrite decide_True by done.
        pose proof (field_leaveRoom ws_isAlive ltac:(done) ltac:(done) id st id) as H.
        rewrite Ew in H. simpl in H.
        destruct (sockets (leaveRoom id st) !! id) as [w' |]; simpl in *; [| done].
        injection H as H. unfold terminate. simpl. by rewrite H, Ea.
      * rewrite decide_False by congruence.
        apply (field_leaveRoom ws_isAlive); done.
  - destruct (decide (id = ws)) as [-> |]; [by rewrite Ew | done].
Qed.

Lemma roomId_of_field st id : roomId_of st id = mjoin (ws_roomId <$> sockets st !! id).
Proof. unfold roomId_of. by destruct (sockets st !! id). Qed.

Lemma roomId_of_alter (f : ExtendedWebSocket -> ExtendedWebSocket) ws st id :
  (forall w, ws_roomId (f w) = ws_roomId w) ->
  roomId_of (set_sockets (alter f ws) st) id = roomId_of st id.
Proof. intros Hf. rewrite !roomId_of_field. by rewrite (field_alter ws_roomId). Qed.

(** A visit leaves the membership and the [roomId] of every socket that was
    not found dead as they are; membership never grows. *)
Lemma visit_keeps st ws c :
  (c <> ws \/ isAlive_of st c <> Some false) ->
  (forall r, peers_of (heartbeat_visit st ws) r = peers_of st r \/
             (c <> ws /\ forall id, id ∈ peers_of (heartbeat_visit st ws) r <->
                                    id ∈ peers_of st r /\ id <> ws)) /\
  roomId_of (heartbeat_visit st ws) c = roomId_of st c.
Proof.
  intros Hc. unfold heartbeat_visit, isAlive_of in *.
  destruct (sockets st !! ws) as [w |] eqn:Ew; [| by split; [left |]].
  destruct (ws_isAlive w) eqn:Ea.
  - split; [by left | by apply roomId_of_alter].
  - assert (Hne : c <> ws).
    { destruct Hc as [? | Hc]; [done |]. intros ->. rewrite Ew in Hc. simpl in Hc. congruence. }
    split.
    + intros r. change (peers_of (set_sockets (alter terminate ws) (leaveRoom ws st)) r)
        with (peers_of (leaveRoom ws st) r).
      rewrite peers_of_leaveRoom.
      destruct (decide (truthy (roomId_of st ws) = Some r)); [| by left].
      right. split; [done |]. intros id. apply elem_of_peers_delete.
    + rewrite roomId_of_alter by done. by rewrite roomId_of_leaveRoom, decide_False.
Qed.

Lemma visit_shrinks st ws r id :
  id ∈ peers_of (heartbeat_visit st ws) r -> id ∈ peers_of st r.
Proof.
  unfold heartbeat_visit. destruct (sockets st !! ws) as [w |]; [| done].
  destruct (ws_isAlive w); [done |].
  change (peers_of (set_sockets (alter terminate ws) (leaveRoom ws st)) r)
    with (peers_of (leaveRoom ws st) r).
  apply elem_of_peers_of_leaveRoom.
Qed.

Lemma tick_shrinks clients : forall st r id,
  id ∈ peers_of (heartbeatTick clients st) r -> id ∈ peers_of st r.
Proof.
  induction clients as [| a l IH]; intros st r id H; [done |].
  apply IH in H. by eapply visit_shrinks.
Qed.

Lemma visit_evicts st ws r :
  isAlive_of st ws = Some false ->
  truthy (roomId_of st ws) = Some r ->
  ws ∉ peers_of (heartbeat_visit st ws) r.
Proof.
  unfold heartbeat_visit, isAlive_of. intros Ha Ht.
  destruct (sockets st !! ws) as [w |]; [| done]. simpl in Ha.
  injection Ha as ->.
  change (peers_of (set_sockets (alter terminate ws) (leaveRoom ws st)) r)
    with (peers_of (leaveRoom ws st) r).
  rewrite peers_of_leaveRoom, decide_True by done.
  rewrite elem_of_peers_delete. tauto.
Qed.

Lemma tick_lowers clients : forall st c,
  (c ∈ clients \/ isAlive_of st c = Some false) ->
  is_Some (sockets st !! c) ->
  isAlive_of (heartbeatTick clients st) c = Some false.
Proof.
  induction clients as [| a l IH]; intros st c Hc [w Hw].
  - destruct Hc as [Hc | Hc]; [by apply elem_of_nil in Hc | done].
  - change (heartbeatTick (a :: l) st) with (heartbeatTick l (heartbeat_visit st a)). apply IH.
    + rewrite isAlive_of_visit.
      destruct (decide (c = a)) as [-> |].
      * right. by rewrite Hw.
      * destruct Hc as [Hc | Hc]; [| by right].
        apply elem_of_cons in Hc as [? | Hc]; [done | by left].
    + pose proof (isAlive_of_visit st a c) as H. unfold isAlive_of in H.
      destruct (sockets (heartbeat_visit st a) !! c); [done |].
      destruct (decide (c = a)) as [-> |]; rewrite Hw in H; done.
Qed.

Lemma tick_keeps clients : forall st c,
  NoDup clients ->
  (c ∉ clients \/ isAlive_of st c <> Some false) ->
  (forall r, c ∈ peers_of (heartbeatTick clients st) r <-> c ∈ peers_of st r) /\
  roomId_of (heartbeatTick clients st) c = roomId_of st c.
Proof.
  induction clients as [| a l IH]; intros st c Hnd Hc; [done |].
  apply NoDup_cons in Hnd as [Ha Hnd]. change (heartbeatTick (a :: l) st) with (heartbeatTick l (heartbeat_visit st a)).
  assert (Hv : c <> a \/ isAlive_of st c <> Some false).
  { destruct Hc as [Hc | Hc]; [| by right]. left. intros ->. apply Hc, list_elem_of_here. }
  destruct (visit_keeps st a c Hv) as [Hp Hr].
  destruct (IH (heartbeat_visit st a) c Hnd) as [IHp IHr].
  { destruct (decide (c = a)) as [-> | Hne]; [by left |].
    destruct Hc as [Hc | Hc].
    - left. intros H. apply Hc. by apply list_elem_of_further.
    - right. by rewrite isAlive_of_visit, decide_False. }
  split; [| by rewrite IHr].
  intros r. rewrite IHp. destruct (Hp r) as [-> | [Hne H]]; [done |].
  rewrite H. tauto.
Qed.

Lemma tick_evicts clients : forall st c r,
  c ∈ clients ->
  isAlive_of st c = Some false ->
  truthy (roomId_of st c) = Some r ->
  c ∉ peers_of (heartbeatTick clients st) r.
Proof.
  induction clients as [| a l IH]; intros st c r Hc Ha Ht; [by apply elem_of_nil in Hc |].
  change (heartbeatTick (a :: l) st) with (heartbeatTick l (heartbeat_visit st a)).
  destruct (decide (c = a)) as [-> | Hne].
  - intros H. apply tick_shrinks in H. by eapply visit_evicts.
  - apply elem_of_cons in Hc as [? | Hc]; [done |].
    apply IH; [done | |].
    + by rewrite isAlive_of_visit, decide_False.
    + destruct (visit_keeps st a c (or_introl Hne)) as [_ ->]. done.
Qed.

End HeartbeatFacts.

(** X9: one walk of the liveness timer over the client set.  Afterwards the
    [isAlive] flag of every client is down.  A socket whose flag was up (it
    answered the last ping, or it is new) keeps its [roomId] and its place in
    every room.  A client whose flag was already down is no longer a member of
    the room recorded for it.  No room gains a member. *)
Theorem heartbeat_evicts_the_silent (clients : list string) (st : Server) :
  NoDup clients ->
  let st' := heartbeatTick clients st in
  (forall c, c ∈ clients -> is_Some (sockets st !! c) -> isAlive_of st' c = Some false) /\
  (forall c, isAlive_of st c = Some true ->
     roomId_of st' c = roomId_of st c /\
     forall r, c ∈ peers_of st' r <-> c ∈ peers_of st r) /\
  (forall c r, c ∈ clients -> isAlive_of st c = Some false ->
     truthy (roomId_of st c) = Some r -> c ∉ peers_of st' r) /\
  (forall r id, id ∈ peers_of st' r -> id ∈ peers_of st r).
Proof.
  intros Hnd. cbv zeta. split_and!.
  - intros c Hc Hw. apply tick_lowers; [by left | done].
  - intros c Ha. destruct (tick_keeps clients st c Hnd) as [H1 H2]; [| done].
    right. rewrite Ha. congruence.
  - intros c r. apply tick_evicts.
  - intros r id. apply tick_shrinks.
Qed.

(** ["a"] answered the ping, ["b"] did not: ["b"] is out of room ["r"], ["a"] stays. *)
Lemma heartbeat_evicts_the_silent_witness :
  let st := run two_members [(3, Pong "a")]%Z in
  let st1 := heartbeatTick ["a"; "b"] st in
  peers_of (heartbeatTick ["a"; "b"] (run st1 [(4, Pong "a")]%Z)) "r" = ["a"] /\
  "b" ∉ peers_of (heartbeatTick ["a"; "b"] (run st1 [(4, Pong "a")]%Z)) "r".
Proof.
  cbv zeta. split; [vm_compute; reflexivity |].
  assert (Hnd : NoDup ["a"; "b"]).
  { apply NoDup_cons. split; [| apply NoDup_singleton].
    intros H. apply list_elem_of_singleton in H. discriminate. }
  destruct (heartbeat_evicts_the_silent ["a"; "b"]
              (run (heartbeatTick ["a"; "b"] (run two_members [(3, Pong "a")]%Z))
                   [(4, Pong "a")]%Z) Hnd) as (_ & _ & H & _).
  apply H.
  - apply list_elem_of_further, list_elem_of_here.
  - vm_compute. reflexivity.
  - vm_compute. reflexivity.
Defined.

(** X10: two walks of the liveness timer with no [pong] in between.  Whatever
    the flags were, every client that the server holds and whose [roomId]
    names a room is out of that room after the second walk. *)
Theorem two_silent_ticks_evict (clients : list string) (st : Server) (c r : string) :
  NoDup clients ->
  c ∈ clients ->
  is_Some (sockets st !! c) ->
  truthy (roomId_of st c) = Some r ->
  c ∉ peers_of (heartbeatTick clients (heartbeatTick clients st)) r.
Proof.
  intros Hnd Hc Hw Ht.
  destruct (isAlive_of st c) as [[|] |] eqn:Ea.
  - apply tick_evicts; [done | by apply tick_lowers; [left |] |].
    destruct (tick_keeps clients st c Hnd) as [_ ->]; [| done].
    right. rewrite Ea. congruence.
  - intros H. apply tick_shrinks in H. revert H. by apply tick_evicts.
  - unfold isAlive_of in Ea. destruct Hw as [w Hw]. by rewrite Hw in Ea.
Qed.

Lemma two_silent_ticks_evict_witness :
  "a" ∉ peers_of (heartbeatTick ["a"; "b"] (heartbeatTick ["a"; "b"] two_members)) "r".
Proof.
  apply (two_silent_ticks_evict ["a"; "b"] two_members "a" "r").
  - apply NoDup_cons. split; [| apply NoDup_singleton].
    intros H. apply list_elem_of_singleton in H. discriminate.
  - apply list_elem_of_here.
  - vm_compute. eauto.
  - vm_compute. reflexivity.
Defined.

(** *** Who is written to *)

Section WriteFacts.

Implicit Types (st : Server) (ws id r roomId : string) (m : SignalingMessage).

Lemma fanout_skips_closed m ex (l : list string) : forall st id,
  is_open st id = false -> sockets (fanout m ex l st) !! id = sockets st !! id.
Proof.
  induction l as [| a l IH]; intros st id Hc; [done |].
  unfold fanout in *. cbn [fold_left].
  destruct (negb (bool_decide (Some a = ex)) && is_open st a) eqn:E; [| by apply IH].
  apply andb_true_iff in E as [_ Ea].
  rewrite IH by (by rewrite is_open_send).
  rewrite lookup_send, decide_False; [done |]. intros ->. congruence.
Qed.

Lemma leaveRoom_skips_closed ws st id :
  is_open st id = false -> sent_to (leaveRoom ws st) id = sent_to st id.
Proof.
  intros Hc. unfold leaveRoom. destruct (truthy (roomId_of st ws)) as [rid |]; [| done].
  destruct (rooms st !! rid); [| done]. cbv zeta.
  rewrite sent_to_alter by done. rewrite broadcastToRoom_fanout.
  set (st2 := fanout _ _ _ _).
  assert (H : sent_to (if (length (peers_of st2 rid) =? 0)%nat
                       then set_rooms (delete rid) st2 else st2) id = sent_to st2 id)
    by (by destruct (length (peers_of st2 rid) =? 0)%nat).
  rewrite H. unfold st2, sent_to. by rewrite fanout_skips_closed.
Qed.

Lemma joinRoom_skips_closed roomId ws now st id :
  id <> ws -> is_open st id = false ->
  sent_to (snd (joinRoom roomId ws now st)) id = sent_to st id.
Proof.
  intros Hne Hc. rewrite joinRoom_unfold. cbv zeta.
  unfold sent_to at 1. rewrite lookup_send, decide_False by done.
  set (st3 := set_sockets _ _).
  assert (Hs3 : sockets st3 !! id = sockets st !! id).
  { unfold st3. cbn [sockets set_sockets set_rooms]. rewrite lookup_alter_ne by done.
    by rewrite sockets_room_for_join. }
  rewrite fanout_skips_closed; [unfold sent_to; by rewrite Hs3 |].
  unfold is_open in *. by rewrite Hs3.
Qed.

Lemma sendToPeer_skips_closed roomId target m st id :
  is_open st id = false ->
  sent_to (snd (sendToPeer roomId target m st)) id = sent_to st id.
Proof.
  intros Hc. unfold sendToPeer. destruct (rooms st !! roomId) as [room |]; [| done].
  destruct (mem target (room_peers room) && is_open st target) eqn:E; [| done].
  apply andb_true_iff in E as [_ Eo]. cbn [snd].
  unfold sent_to. rewrite lookup_send, decide_False; [done |]. intros ->. congruence.
Qed.

Lemma sendError_other ws code text st id :
  id <> ws -> sent_to (sendError ws code text st) id = sent_to st id.
Proof. intros Hne. unfold sendError, sent_to. by rewrite lookup_send, decide_False. Qed.

End WriteFacts.

(** The socket whose own frame an event delivers. *)
Definition frame_from (e : Event) : option string :=
  match e with
  | Message ws _ => Some ws
  | _ => None
  end.

(** X11: who is written to.  Handling an event never writes to a socket that
    is not OPEN, unless it is the socket whose own frame is being handled (the
    peer list and the error replies go to the sender without a check).  So
    notices and relayed messages are never handed to a connection that is
    closing or closed. *)
Theorem only_open_sockets_are_written_to (now : Z) (st : Server) (e : Event) (id : string) :
  is_open st id = false ->
  frame_from e <> Some id ->
  sent_to (step now st e) id = sent_to st id.
Proof.
  intros Hc Hf.
  destruct e as [c | ws [m |] | ws | ws | ws | ws rs | roomId |]; cbn [step].
  - destruct (sockets st !! c) as [w |] eqn:Ew; [done |].
    unfold sent_to. cbn [sockets set_sockets]. rewrite lookup_insert.
    destruct (decide (c = id)) as [-> |]; [by rewrite Ew | done].
  - assert (Hne : id <> ws) by (intros ->; by apply Hf).
    unfold handleSignalingMessage.
    assert (Hrelay : forall t,
      sent_to
        match truthy (msg_targetId m) with
        | None => sendError ws "MISSING_TARGET" "Target peer ID is required" st
        | Some target =>
            let '(sent, st1) :=
              sendToPeer (msg_roomId m) target
                (mkMsg t (msg_roomId m) ws (Some target) (msg_payload m)) st in
            if sent then st1
            else sendError ws "PEER_NOT_FOUND" ("Target peer " +:+ target +:+ " not found") st1
        end id = sent_to st id).
    { intros t. destruct (truthy (msg_targetId m)) as [target |];
        [| by apply sendError_other].
      pose proof (sendToPeer_skips_closed (msg_roomId m) target
                    (mkMsg t (msg_roomId m) ws (Some target) (msg_payload m)) st id Hc) as H.
      destruct (sendToPeer _ _ _ st) as [sent st1]. cbn [snd] in H.
      destruct sent; [done |]. by rewrite sendError_other. }
    destruct (msg_type m); try apply Hrelay; try (by apply sendError_other).
    + rewrite joinRoom_skips_closed; [by apply sent_to_alter | done |].
      by rewrite is_open_alter.
    + by apply leaveRoom_skips_closed.
  - by apply sendError_other; intros ->; apply Hf.
  - rewrite leaveRoom_skips_closed; [by apply sent_to_alter |].
    unfold is_open in *. cbn [sockets set_sockets]. rewrite lookup_alter.
    destruct (decide (ws = id)) as [-> |]; [| done].
    by destruct (sockets st !! id).
  - by apply leaveRoom_skips_closed.
  - by apply sent_to_alter.
  - by apply sent_to_alter.
  - done.
  - done.
Qed.

(** ["b"] is closing when ["c"] joins its room: ["b"] is handed nothing. *)
Lemma only_open_sockets_are_written_to_witness :
  let st := run member_closing [(4, Connection "c")]%Z in
  sent_to (step 5 st (Message "c" (Some (join_msg "r" None)))) "b" = sent_to st "b".
Proof.
  cbv zeta.
  apply (only_open_sockets_are_written_to 5 (run member_closing [(4, Connection "c")]%Z)
           (Message "c" (Some (join_msg "r" None))) "b").
  - vm_compute. reflexivity.
  - discriminate.
Defined.

(** *** Rooms without members *)

Definition no_empty_room (st : Server) : Prop :=
  forall r room, rooms st !! r = Some room -> room_peers room <> [].

Definition is_PostCreateRoom (e : Event) : bool :=
  match e with
  | PostCreateRoom _ => true
  | _ => false
  end.

Section EmptyRoomFacts.

Implicit Types (st : Server) (ws id r roomId : string) (m : SignalingMessage).

Lemma no_empty_room_same_rooms st st' :
  rooms st' = rooms st -> no_empty_room st -> no_empty_room st'.
Proof. unfold no_empty_room. by intros ->. Qed.

Lemma no_empty_room_leaveRoom ws st : no_empty_room st -> no_empty_room (leaveRoom ws st).
Proof.
  intros Hn. destruct (leaves ws st) eqn:El; [| by rewrite leaveRoom_guarded].
  unfold leaves in El. destruct (truthy (roomId_of st ws)) as [rid |] eqn:Et; [| done].
  apply bool_decide_eq_true in El as [room Er].
  rewrite (leaveRoom_unfold ws rid room st Et Er). cbv zeta.
  intros r room'. cbn [rooms set_sockets].
  destruct (length (peers_delete ws (room_peers room)) =? 0)%nat eqn:E.
  - cbn [rooms set_rooms]. rewrite lookup_delete.
    destruct (decide (rid = r)); [done |].
    rewrite rooms_fanout. cbn [rooms set_rooms]. rewrite lookup_alter_ne by done. apply Hn.
  - rewrite rooms_fanout. cbn [rooms set_rooms]. rewrite lookup_alter.
    destruct (decide (rid = r)) as [<- |]; [| apply Hn].
    rewrite Er. simpl. intros [= <-]. simpl. intros H. by rewrite H in E.
Qed.

Lemma no_empty_room_joinRoom roomId ws now st :
  no_empty_room st -> no_empty_room (snd (joinRoom roomId ws now st)).
Proof.
  intros Hn r room. rewrite rooms_joinRoom.
  destruct (decide (r = roomId)) as [-> |]; [| apply Hn].
  intros [= <-]. simpl. intros H.
  assert (Hin : ws ∈ peers_set ws (peers_of st roomId)) by (apply elem_of_peers_set; by right).
  rewrite H in Hin. by apply elem_of_nil in Hin.
Qed.

Lemma no_empty_room_step now st e :
  is_PostCreateRoom e = false -> no_empty_room st -> no_empty_room (step now st e).
Proof.
  intros He Hn. destruct e as [c | ws [m |] | ws | ws | ws | ws rs | roomId |];
    try discriminate; cbn [step].
  - by destruct (sockets st !! c).
  - assert (Hother : msg_type m <> join -> msg_type m <> leave ->
                      no_empty_room (handleSignalingMessage ws m now st)).
    { intros Hj Hl. destruct (handle_sends_only ws m now st Hj Hl) as [Hr _].
      by eapply no_empty_room_same_rooms. }
    destruct (msg_type m) eqn:Hty; try (apply Hother; discriminate).
    + unfold handleSignalingMessage. rewrite Hty. apply no_empty_room_joinRoom.
      by eapply no_empty_room_same_rooms.
    + unfold handleSignalingMessage. rewrite Hty. by apply no_empty_room_leaveRoom.
  - by eapply no_empty_room_same_rooms.
  - apply no_empty_room_leaveRoom. by eapply no_empty_room_same_rooms.
  - by apply no_empty_room_leaveRoom.
  - by eapply no_empty_room_same_rooms.
  - by eapply no_empty_room_same_rooms.
  - intros r room. unfold cleanupStaleRooms. cbn [rooms set_rooms].
    intros H. apply map_lookup_filter_Some in H as [H _]. by eapply Hn.
Qed.

Lemma no_empty_room_run (es : list (Z * Event)) : forall st,
  Forall (fun te => is_PostCreateRoom (snd te) = false) es ->
  no_empty_room st -> no_empty_room (run st es).
Proof.
  induction es as [| [now e] es IH]; intros st Hes Hn; [done |].
  apply Forall_cons in Hes as [He Hes]. cbn [run fold_left fst snd].
  apply IH; [done |]. by apply no_empty_room_step.
Qed.

Lemma cleanupStaleRooms_no_empty now st :
  no_empty_room st -> cleanupStaleRooms now st = st.
Proof.
  intros Hn. unfold cleanupStaleRooms, set_rooms. destruct st as [rs ss]. cbn [rooms sockets] in *.
  f_equal. apply map_filter_id. intros r room Hr. cbn [snd].
  specialize (Hn r room Hr). destruct (room_peers room); [done | done].
Qed.

End EmptyRoomFacts.

(** X24: rooms without members.  As long as no room is created through
    [POST /create-room], the registry never holds a room without members: a
    join creates a room together with its first member, and the leave of the
    last member deletes it.  In such a run the stale-room sweep finds nothing
    to delete, whatever the clock says. *)
Theorem only_posted_rooms_can_be_empty (es : list (Z * Event)) :
  Forall (fun te => is_PostCreateRoom (snd te) = false) es ->
  let st := run empty_server es in
  no_empty_room st /\
  forall now, step now st Sweep = st.
Proof.
  intros Hes. cbv zeta.
  assert (Hn : no_empty_room (run empty_server es)).
  { apply no_empty_room_run; [done |]. intros r room H. simpl in H. by rewrite lookup_empty in H. }
  split; [done |]. intros now. cbn [step]. by apply cleanupStaleRooms_no_empty.
Qed.

(** Three days after ["a"] and ["b"] joined room ["r"], the sweep changes nothing. *)
Lemma only_posted_rooms_can_be_empty_witness :
  step 259200000 two_members Sweep = two_members.
Proof.
  destruct (only_posted_rooms_can_be_empty
              [(0, Connection "a"); (0, Connection "b");
               (1, Message "a" (Some (join_msg "r" (Some "alice"))));
               (2, Message "b" (Some (join_msg "r" (Some "bob"))))]%Z) as [_ H].
  - repeat constructor.
  - exact (H 259200000%Z).
Defined.

End Backend.

(** ** Base64: the platform functions [btoa] and [atob]

    [btoa] is RFC 4648 base64 with padding over a binary string (one character
    per byte); [atob] is the forgiving-base64 decode of the HTML standard:
    ASCII whitespace is dropped, one or two trailing [=] are dropped when the
    length is a multiple of 4, a length of 1 modulo 4 or a character outside
    the alphabet is a failure ([None]: the call throws). *)

Module Base64.

(** The alphabet: A-Z, a-z, 0-9, [+], [/]. *)
Definition enc6 (n : N) : ascii :=
  if (n <? 26)%N then ascii_of_N (65 + n)
  else if (n <? 52)%N then ascii_of_N (97 + (n - 26))
  else if (n <? 62)%N then ascii_of_N (48 + (n - 52))
  else if (n =? 62)%N then "+"%char
  else "/"%char.

Definition dec6 (c : ascii) : option N :=
  let k := N_of_ascii c in
  if (65 <=? k)%N && (k <=? 90)%N then Some (k - 65)%N
  else if (97 <=? k)%N && (k <=? 122)%N then Some (k - 97 + 26)%N
  else if (48 <=? k)%N && (k <=? 57)%N then Some (k - 48 + 52)%N
  else if (k =? 43)%N then Some 62%N
  else if (k =? 47)%N then Some 63%N
  else None.

(** Three bytes make four 6-bit groups; a tail of one or two bytes makes two
    or three, the last one filled with zero bits. *)
Fixpoint sextets (l : list N) : list N :=
  match l with
  | a :: b :: c :: rest =>
      (a / 4) :: ((a mod 4) * 16 + b / 16) :: ((b mod 16) * 4 + c / 64) :: (c mod 64)
      :: sextets rest
  | [a; b] => [a / 4; (a mod 4) * 16 + b / 16; (b mod 16) * 4]
  | [a] => [a / 4; (a mod 4) * 16]
  | [] => []
  end%N.

Definition padding (n : nat) : list ascii :=
  match n mod 3 with
  | 1 => ["="; "="]
  | 2 => ["="]
  | _ => []
  end%char%nat.

Definition btoa (s : string) : string :=
  let bytes := map N_of_ascii (list_ascii_of_string s) in
  string_of_list_ascii (map enc6 (sextets bytes) ++ padding (length bytes)).

Definition is_ascii_whitespace (c : ascii) : bool :=
  let k := N_of_ascii c in
  ((k =? 9) || (k =? 10) || (k =? 12) || (k =? 13) || (k =? 32))%N.

Definition ends_with_pad (l : list ascii) : bool :=
  match last l with
  | Some c => Ascii.eqb c "="
  | None => false
  end.

Definition strip_padding (l : list ascii) : list ascii :=
  if (length l mod 4 =? 0)%nat then
    if ends_with_pad l then
      let l1 := removelast l in
      if ends_with_pad l1 then removelast l1 else l1
    else l
  else l.

(** Four 6-bit groups make three bytes; a tail of two or three groups makes
    one or two bytes, the spare low bits discarded. *)
Fixpoint octets (l : list N) : list N :=
  match l with
  | a :: b :: c :: d :: rest =>
      (a * 4 + b / 16) :: ((b mod 16) * 16 + c / 4) :: ((c mod 4) * 64 + d) :: octets rest
  | [a; b; c] => [a * 4 + b / 16; (b mod 16) * 16 + c / 4]
  | [a; b] => [a * 4 + b / 16]
  | _ => []
  end%N.

Definition atob (s : string) : option string :=
  let data :=
    strip_padding (filter (fun c => negb (is_ascii_whitespace c)) (list_ascii_of_string s)) in
  if (length data mod 4 =? 1)%nat then None
  else
    match mapM dec6 data with
    | None => None
    | Some xs => Some (string_of_list_ascii (map ascii_of_N (octets xs)))
    end.

Example btoa_samples :
  btoa "Man" = "TWFu" /\ btoa "Ma" = "TWE=" /\ btoa "M" = "TQ==" /\ btoa "" = "".
Proof. vm_compute. repeat split. Qed.

Example atob_samples :
  atob "TWFu" = Some "Man" /\ atob "TWE=" = Some "Ma" /\ atob "TQ" = Some "M" /\
  atob " T W E = " = Some "Ma" /\ atob "T" = None /\ atob "TQ=" = None /\
  atob "T*==" = None.
Proof. vm_compute. repeat split. Qed.

Ltac divlia := zify; Z.to_euclidean_division_equations; lia.

Lemma list_ind3 {A} (P : list A -> Prop) :
  P [] -> (forall a, P [a]) -> (forall a b, P [a; b]) ->
  (forall a b c l, P l -> P (a :: b :: c :: l)) ->
  forall l, P l.
Proof.
  intros H0 H1 H2 H3.
  assert (H : forall l, P l /\ (forall a, P (a :: l)) /\ (forall a b, P (a :: b :: l))).
  { induction l as [| c l (IH0 & IH1 & IH2)]; split_and!; auto. }
  intros l. apply H.
Qed.

Lemma octets_sextets (l : list N) :
  Forall (fun b => b < 256)%N l -> octets (sextets l) = l.
Proof.
  induction l as [| a | a b | a b c l IH] using list_ind3; intros Hl.
  - reflexivity.
  - apply Forall_cons in Hl as [Ha _]. cbn [sextets octets]. f_equal. divlia.
  - apply Forall_cons in Hl as [Ha Hl]. apply Forall_cons in Hl as [Hb _].
    cbn [sextets octets]. f_equal; [divlia | f_equal; divlia].
  - apply Forall_cons in Hl as [Ha Hl]. apply Forall_cons in Hl as [Hb Hl].
    apply Forall_cons in Hl as [Hc Hl].
    cbn [sextets octets]. rewrite IH by done. f_equal; [divlia | f_equal; [divlia | f_equal; divlia]].
Qed.

Lemma sextets_bound (l : list N) :
  Forall (fun b => b < 256)%N l -> Forall (fun x => x < 64)%N (sextets l).
Proof.
  induction l as [| a | a b | a b c l IH] using list_ind3; intros Hl; cbn [sextets].
  - constructor.
  - apply Forall_cons in Hl as [Ha _]. repeat constructor; divlia.
  - apply Forall_cons in Hl as [Ha Hl]. apply Forall_cons in Hl as [Hb _].
    repeat constructor; divlia.
  - apply Forall_cons in Hl as [Ha Hl]. apply Forall_cons in Hl as [Hb Hl].
    apply Forall_cons in Hl as [Hc Hl].
    repeat (apply Forall_cons; split); [divlia | divlia | divlia | divlia | by apply IH].
Qed.

Lemma dec6_enc6 (n : N) : (n < 64)%N -> dec6 (enc6 n) = Some n.
Proof.
  intros H. rewrite <- (N2Nat.id n).
  assert (Hk : (N.to_nat n < 64)%nat) by lia.
  revert Hk. generalize (N.to_nat n). intros k Hk.
  do 64 (destruct k as [| k]; [vm_compute; reflexivity |]). lia.
Qed.

Lemma dec6_plain (c : ascii) (n : N) :
  dec6 c = Some n -> is_ascii_whitespace c = false /\ Ascii.eqb c "=" = false.
Proof.
  destruct c as [b0 b1 b2 b3 b4 b5 b6 b7].
  destruct b0, b1, b2, b3, b4, b5, b6, b7; vm_compute; intros H;
    first [discriminate H | split; reflexivity].
Qed.

Definition plain (c : ascii) : Prop :=
  is_ascii_whitespace c = false /\ Ascii.eqb c "=" = false.

Lemma enc6_plain (xs : list N) :
  Forall (fun x => x < 64)%N xs -> Forall plain (map enc6 xs).
Proof.
  intros H. apply Forall_map. eapply Forall_impl; [exact H |].
  intros x Hx. simpl. eapply dec6_plain. by apply dec6_enc6.
Qed.

Lemma mapM_dec6_enc6 (xs : list N) :
  Forall (fun x => x < 64)%N xs -> mapM dec6 (map enc6 xs) = Some xs.
Proof.
  intros H. apply mapM_Some. apply Forall2_fmap_l.
  apply Forall_Forall2_diag. eapply Forall_impl; [exact H |].
  intros x Hx. by apply dec6_enc6.
Qed.

Lemma padding_step (n : nat) : padding (S (S (S n))) = padding n.
Proof.
  unfold padding. replace (S (S (S n))) with (n + 1 * 3)%nat by lia.
  by rewrite Nat.Div0.mod_add.
Qed.

Lemma sextets_shape (l : list N) :
  ((length (sextets l) mod 4 = 0)%nat /\ padding (length l) = []) \/
  ((length (sextets l) mod 4 = 2)%nat /\ padding (length l) = ["="; "="]%char) \/
  ((length (sextets l) mod 4 = 3)%nat /\ padding (length l) = ["="]%char).
Proof.
  induction l as [| a | a b | a b c l IH] using list_ind3.
  - left. done.
  - right. left. done.
  - right. right. done.
  - cbn [sextets length]. rewrite padding_step.
    replace (S (S (S (S (length (sextets l)))))) with (length (sextets l) + 1 * 4)%nat by lia.
    by rewrite Nat.Div0.mod_add.
Qed.

Lemma filter_plain (l : list ascii) :
  Forall (fun c => is_ascii_whitespace c = false) l ->
  filter (fun c => negb (is_ascii_whitespace c)) l = l.
Proof.
  induction 1 as [| c l Hc Hl IH]; [done |].
  rewrite filter_cons_True by (by rewrite Hc). by rewrite IH.
Qed.

Lemma ends_with_pad_plain (l : list ascii) : Forall plain l -> ends_with_pad l = false.
Proof.
  intros H. unfold ends_with_pad. destruct (last l) as [c |] eqn:E; [| done].
  apply last_Some_elem_of in E. rewrite Forall_forall in H. by destruct (H c E).
Qed.

Lemma strip_padding_encoded (E p : list ascii) :
  Forall plain E ->
  ((length E mod 4 = 0)%nat /\ p = []) \/
  ((length E mod 4 = 2)%nat /\ p = ["="; "="]%char) \/
  ((length E mod 4 = 3)%nat /\ p = ["="]%char) ->
  strip_padding (E ++ p) = E /\ (length E mod 4 =? 1)%nat = false.
Proof.
  intros HE Hcases. split; [| by destruct Hcases as [[-> _] | [[-> _] | [-> _]]]].
  destruct Hcases as [[Hlen ->] | [[Hlen ->] | [Hlen ->]]]; unfold strip_padding.
  - rewrite app_nil_r, Hlen. simpl. by rewrite ends_with_pad_plain.
  - rewrite length_app. simpl length.
    replace (length E + 2)%nat with (length E - 2 + 1 * 4)%nat
      by divlia.
    rewrite Nat.Div0.mod_add.
    assert (Hm : ((length E - 2) mod 4 = 0)%nat) by divlia.
    rewrite Hm. simpl.
    change (E ++ ["="; "="]%char) with (E ++ ["="%char] ++ ["="%char]).
    rewrite app_assoc.
    unfold ends_with_pad at 1. rewrite last_snoc. simpl.
    rewrite removelast_last.
    unfold ends_with_pad. rewrite last_snoc. simpl.
    by rewrite removelast_last.
  - rewrite length_app. simpl length.
    replace (length E + 1)%nat with (length E - 3 + 1 * 4)%nat
      by divlia.
    rewrite Nat.Div0.mod_add.
    assert (Hm : ((length E - 3) mod 4 = 0)%nat) by divlia.
    rewrite Hm. simpl.
    unfold ends_with_pad at 1. rewrite last_snoc. simpl.
    rewrite removelast_last. by rewrite ends_with_pad_plain.
Qed.

Lemma ascii_of_N_of_ascii_list (l : list ascii) :
  map (fun c => ascii_of_N (N_of_ascii c)) l = l.
Proof.
  induction l as [| c l IH]; [done |].
  simpl. by rewrite ascii_N_embedding, IH.
Qed.

(** Round trip: decoding an encoded binary string gives it back. *)
Theorem atob_btoa (s : string) : atob (btoa s) = Some s.
Proof.
  unfold atob, btoa.
  set (bytes := map N_of_ascii (list_ascii_of_string s)).
  assert (Hb : Forall (fun b => b < 256)%N bytes).
  { apply Forall_map, Forall_forall. intros c _. apply N_ascii_bounded. }
  pose proof (sextets_bound bytes Hb) as H6.
  pose proof (enc6_plain _ H6) as Hp.
  rewrite list_ascii_of_string_of_list_ascii.
  rewrite filter_plain.
  2:{ apply Forall_app. split.
      - eapply Forall_impl; [exact Hp |]. by intros c [? _].
      - destruct (sextets_shape bytes) as [[_ ->] | [[_ ->] | [_ ->]]];
          repeat constructor. }
  pose proof (sextets_shape bytes) as Hshape.
  rewrite <- (length_map enc6) in Hshape.
  destruct (strip_padding_encoded _ _ Hp Hshape) as [-> Hn].
  rewrite Hn, mapM_dec6_enc6 by done.
  rewrite octets_sextets by done. unfold bytes.
  rewrite map_map, ascii_of_N_of_ascii_list.
  apply f_equal, string_of_list_ascii_of_string.
Qed.
End Base64.

(** ** JavaScript numbers: IEEE-754 binary64 *)

Module JSNumber.

Definition number : Type := spec_float.
Definition prec : Z := 53.
Definition emax : Z := 1024.

(** The double nearest to an integer (exact below 2^53). *)
Definition of_Z (z : Z) : number := binary_normalize prec emax z 0 false.

Definition div (x y : number) : number := SFdiv prec emax x y.
Definition mul (x y : number) : number := SFmul prec emax x y.

(** [Math.round]: the nearest integer, a tie going towards +∞, that is
    floor(v + 1/2) for the exact value v = ±m·2^e; NaN, the infinities, the
    zeros and values with [e >= 0] (already integers) are returned as they
    are; a negative value that rounds to zero gives -0. *)
Definition Math_round (x : number) : number :=
  match x with
  | S754_finite s m (Zneg p) =>
      let n := if s then Z.neg m else Z.pos m in
      binary_normalize prec emax ((2 * n + 2 ^ Z.pos p) / (2 * 2 ^ Z.pos p)) 0 s
  | _ => x
  end.

(** [Math.floor], to word the specification's formula. *)
Definition Math_floor (x : number) : number :=
  match x with
  | S754_finite s m (Zneg p) =>
      let n := if s then Z.neg m else Z.pos m in
      binary_normalize prec emax (n / 2 ^ Z.pos p) 0 s
  | _ => x
  end.

(** [Math.round((done / total) * 100)] *)
Definition percent_round (done total : Z) : number :=
  Math_round (mul (div (of_Z done) (of_Z total)) (of_Z 100)).

(** [Math.floor((done / total) * 100)] *)
Definition percent_floor (done total : Z) : number :=
  Math_floor (mul (div (of_Z done) (of_Z total)) (of_Z 100)).

Example percent_round_samples :
  percent_round 1 8 = of_Z 13 /\ percent_floor 1 8 = of_Z 12 /\
  percent_round 1 3 = of_Z 33 /\ percent_round 2 3 = of_Z 67 /\
  percent_round 113 200 = of_Z 56 /\
  percent_round 5 5 = of_Z 100 /\ percent_round 0 0 = S754_nan.
Proof. vm_compute. repeat split. Qed.

Example Math_round_samples :
  Math_round (div (of_Z 5) (of_Z 2)) = of_Z 3 /\
  Math_round (div (of_Z 3) (of_Z 2)) = of_Z 2 /\
  Math_round (div (of_Z 1) (of_Z 2)) = of_Z 1 /\
  Math_round (div (of_Z 49) (of_Z 100)) = of_Z 0 /\
  Math_round (div (of_Z (-5)) (of_Z 2)) = of_Z (-2) /\
  Math_round (div (of_Z (-1)) (of_Z 2)) = S754_zero true /\
  Math_round (div (of_Z 7) (of_Z 0)) = S754_infinity false /\
  Math_round (of_Z 9007199254740993) = of_Z 9007199254740992.
Proof. vm_compute. repeat split. Qed.

End JSNumber.

(** ** The browser client *)

Module Frontend.

Import JSNumber.

(** *** frontend/src/types/index.ts *)

(** [username] is whatever JSON value the server listed for the peer; the
    client stores it and passes it on, and reads it for the UI log only. *)
Record PeerInfo : Type := mkPeerInfo {
  pi_id : string;
  pi_username : option JSON;
  pi_joinedAt : Z
}.

Record FileMetadata : Type := mkMetadata {
  md_id : string;
  md_filename : string;
  md_size : Z;
  md_mime : string;
  md_senderId : string;
  md_senderName : option string
}.

Record ChatMessage : Type := mkChat {
  chat_id : string;
  chat_senderId : string;
  chat_senderName : string;
  chat_content : string;
  chat_timestamp : Z
}.

(** [DataChannelMessage], as [JSON.parse] hands it to the handler. *)
Inductive DataChannelMessage : Type :=
| Chat (message : ChatMessage)
| FileStart (metadata : FileMetadata)
| FileChunk (fileId : string) (index : Z) (data : string)
| FileComplete (fileId : string).

Inductive TransferStatus : Type := pending | transferring | completed | failed.
Inductive TransferDirection : Type := dir_send | dir_receive.

Record Blob : Type := mkBlob {
  blob_bytes : list Byte.byte;
  blob_type : string
}.

(** The [type] of [new Blob(parts, { type })]: a type with a character
    outside U+0020 .. U+007E gives the empty string; any other type is
    converted to ASCII lower case. *)
Definition ascii_printable (c : ascii) : bool :=
  ((32 <=? N_of_ascii c) && (N_of_ascii c <=? 126))%N.

Definition ascii_lowercase (c : ascii) : ascii :=
  if ((65 <=? N_of_ascii c) && (N_of_ascii c <=? 90))%N
  then ascii_of_N (N_of_ascii c + 32)
  else c.

Definition normalized_type (type : string) : string :=
  if forallb ascii_printable (list_ascii_of_string type)
  then string_of_list_ascii (map ascii_lowercase (list_ascii_of_string type))
  else "".

Example normalized_type_samples :
  normalized_type "Text/Plain" = "text/plain" /\
  normalized_type "application/octet-stream" = "application/octet-stream" /\
  normalized_type "image/png; Q=[1]" = "image/png; q=[1]" /\
  normalized_type (String "009" "text") = "" /\
  normalized_type (String "233" "galit") = "" /\
  normalized_type "" = "".
Proof. vm_compute. repeat split. Qed.

Record FileTransfer : Type := mkTransfer {
  ft_id : string;
  ft_filename : string;
  ft_size : Z;
  ft_mime : string;
  ft_progress : number;
  ft_status : TransferStatus;
  ft_direction : TransferDirection;
  ft_peerId : string;
  ft_peerName : option string;
  ft_chunks : option (list (list Byte.byte));
  ft_blob : option Blob;
  ft_error : option string;
  ft_timestamp : Z
}.

(** [Partial<FileTransfer>] as the handlers build it. *)
Record TransferUpdates : Type := mkUpdates {
  up_progress : option number;
  up_status : option TransferStatus;
  up_blob : option Blob;
  up_error : option string
}.

(** [{ ...t, ...updates }] *)
Definition apply_updates (u : TransferUpdates) (t : FileTransfer) : FileTransfer :=
  mkTransfer (ft_id t) (ft_filename t) (ft_size t) (ft_mime t)
    (default (ft_progress t) (up_progress u))
    (default (ft_status t) (up_status u))
    (ft_direction t) (ft_peerId t) (ft_peerName t) (ft_chunks t)
    (match up_blob u with Some b => Some b | None => ft_blob t end)
    (match up_error u with Some e => Some e | None => ft_error t end)
    (ft_timestamp t).

(** [PeerConnection]: [connection] and [dataChannel] are references to
    browser objects, kept as indices into the heaps below. *)
Record PeerConnection : Type := mkPeerConnection {
  pc_id : string;
  pc_username : option JSON;
  pc_connection : nat;
  pc_dataChannel : option nat;
  pc_connected : bool
}.

(** *** Browser objects (the peer-link capability) *)

Inductive SignalingState : Type :=
| stable | have_local_offer | have_remote_offer | signaling_closed.

Record RTCPeerConnection : Type := mkLink {
  rtc_signalingState : SignalingState;
  rtc_localDescription : option JSON;
  rtc_remoteDescription : option JSON;
  rtc_createdChannels : list nat
}.

Inductive ChannelState : Type := ch_connecting | ch_open | ch_closing | ch_closed.

(** [RTCDataChannel]: [dc_peer] is the peer id the handlers installed by
    [setupDataChannel] are bound to; [dc_sent] logs the calls of [send]. *)
Record RTCDataChannel : Type := mkChannel {
  dc_label : string;
  dc_ordered : bool;
  dc_readyState : ChannelState;
  dc_peer : option string;
  dc_sent : list DataChannelMessage
}.

(** An entry of [fileBuffersRef].  Byte counts and sizes are integers, kept
    in [Z]: the double additions of the source are exact below 2^53. *)
Record FileBuffer : Type := mkBuffer {
  fb_metadata : FileMetadata;
  fb_chunks : list (list Byte.byte);
  fb_receivedSize : Z
}.

(** The client: the zustand store, the refs of the hooks, and the browser
    objects.  The UI log ([addLog], [console.log]) is write-only and no handler
    reads it; it is left out. *)
Record Client : Type := mkClient {
  (* store *)
  peerId : option string;
  username : string;
  roomId : option string;
  peers : list PeerInfo;
  peerConnections : list (string * PeerConnection);   (* Map, insertion order *)
  messages : list ChatMessage;
  transfers : list FileTransfer;
  (* useRef *)
  fileBuffers : gmap string FileBuffer;
  (* browser *)
  links : list RTCPeerConnection;
  channels : list RTCDataChannel;
  ws_open : bool;
  ws_sent : list Backend.SignalingMessage
}.

Definition set_peers (f : list PeerInfo -> list PeerInfo) (st : Client) : Client :=
  mkClient (peerId st) (username st) (roomId st) (f (peers st)) (peerConnections st)
    (messages st) (transfers st) (fileBuffers st) (links st) (channels st)
    (ws_open st) (ws_sent st).

Definition set_peerConnections
    (f : list (string * PeerConnection) -> list (string * PeerConnection))
    (st : Client) : Client :=
  mkClient (peerId st) (username st) (roomId st) (peers st) (f (peerConnections st))
    (messages st) (transfers st) (fileBuffers st) (links st) (channels st)
    (ws_open st) (ws_sent st).

Definition set_messages (f : list ChatMessage -> list ChatMessage) (st : Client) : Client :=
  mkClient (peerId st) (username st) (roomId st) (peers st) (peerConnections st)
    (f (messages st)) (transfers st) (fileBuffers st) (links st) (channels st)
    (ws_open st) (ws_sent st).

Definition set_transfers (f : list FileTransfer -> list FileTransfer) (st : Client) : Client :=
  mkClient (peerId st) (username st) (roomId st) (peers st) (peerConnections st)
    (messages st) (f (transfers st)) (fileBuffers st) (links st) (channels st)
    (ws_open st) (ws_sent st).

Definition set_fileBuffers (f : gmap string FileBuffer -> gmap string FileBuffer)
    (st : Client) : Client :=
  mkClient (peerId st) (username st) (roomId st) (peers st) (peerConnections st)
    (messages st) (transfers st) (f (fileBuffers st)) (links st) (channels st)
    (ws_open st) (ws_sent st).

Definition set_links (f : list RTCPeerConnection -> list RTCPeerConnection)
    (st : Client) : Client :=
  mkClient (peerId st) (username st) (roomId st) (peers st) (peerConnections st)
    (messages st) (transfers st) (fileBuffers st) (f (links st)) (channels st)
    (ws_open st) (ws_sent st).

Definition set_channels (f : list RTCDataChannel -> list RTCDataChannel)
    (st : Client) : Client :=
  mkClient (peerId st) (username st) (roomId st) (peers st) (peerConnections st)
    (messages st) (transfers st) (fileBuffers st) (links st) (f (channels st))
    (ws_open st) (ws_sent st).

Definition set_ws_sent
    (f : list Backend.SignalingMessage -> list Backend.SignalingMessage)
    (st : Client) : Client :=
  mkClient (peerId st) (username st) (roomId st) (peers st) (peerConnections st)
    (messages st) (transfers st) (fileBuffers st) (links st) (channels st)
    (ws_open st) (f (ws_sent st)).

(** *** JS [Map] with insertion order *)

Fixpoint amap_set {A : Type} (k : string) (v : A) (m : list (string * A))
    : list (string * A) :=
  match m with
  | [] => [(k, v)]
  | (k', v') :: m' =>
      if String.eqb k k' then (k, v) :: m' else (k', v') :: amap_set k v m'
  end.

Definition amap_delete {A : Type} (k : string) (m : list (string * A))
    : list (string * A) :=
  filter (fun kv => negb (String.eqb k (fst kv))) m.

(** *** The zustand store *)

Definition setPeers (l : list PeerInfo) : Client -> Client :=
  set_peers (fun _ => l).

Definition addPeer (peer : PeerInfo) : Client -> Client :=
  set_peers (fun ps =>
    filter (fun p => negb (String.eqb (pi_id p) (pi_id peer))) ps ++ [peer]).

Definition removePeer (id : string) : Client -> Client :=
  set_peers (filter (fun p => negb (String.eqb (pi_id p) id))).

Definition setPeerConnection (id : string) (connection : PeerConnection)
    : Client -> Client :=
  set_peerConnections (amap_set id connection).

Definition dc_close (c : RTCDataChannel) : RTCDataChannel :=
  mkChannel (dc_label c) (dc_ordered c)
    (match dc_readyState c with ch_closed => ch_closed | _ => ch_closing end)
    (dc_peer c) (dc_sent c).

Definition rtc_close (l : RTCPeerConnection) : RTCPeerConnection :=
  mkLink signaling_closed (rtc_localDescription l) (rtc_remoteDescription l)
    (rtc_createdChannels l).

Definition removePeerConnection (id : string) (st : Client) : Client :=
  let st1 :=
    match assoc_get id (peerConnections st) with
    | Some pc =>
        let st0 := match pc_dataChannel pc with
                   | Some c => set_channels (alter dc_close c) st
                   | None => st
                   end in
        set_links (alter rtc_close (pc_connection pc)) st0
    | None => st
    end in
  set_peerConnections (amap_delete id) st1.

Definition addMessage (m : ChatMessage) : Client -> Client :=
  set_messages (fun ms => ms ++ [m]).

Definition addTransfer (t : FileTransfer) : Client -> Client :=
  set_transfers (fun ts => ts ++ [t]).

Definition updateTransfer (id : string) (updates : TransferUpdates) : Client -> Client :=
  set_transfers (map (fun t => if String.eqb (ft_id t) id then apply_updates updates t else t)).

(** *** frontend/src/hooks/useSignaling.ts *)

(** The server-originated messages, under the typed views the hook casts
    them to ([PeerListMessage], [PeerJoinedMessage], [PeerLeftMessage],
    [ErrorMessage]).  The offer/answer/candidate handlers are outside this
    development. *)
Inductive ServerMessage : Type :=
| MPeerList (payload : list PeerInfo)
| MPeerJoined (payload : PeerInfo)
| MPeerLeft (leftPeerId : string)
| MError (payload : JSON).

(** [sendOffer]: silently does nothing unless the socket is OPEN and both
    [roomId] and [peerId] are set.  [stateRef.current] mirrors the store (an
    effect refreshes it after every render); the store's fields are read. *)
Definition sendOffer (targetId : string) (offer_sdp : JSON) (st : Client) : Client :=
  match ws_open st, truthy (roomId st), truthy (peerId st) with
  | true, Some room, Some me =>
      set_ws_sent
        (fun l => l ++ [Backend.mkMsg Backend.offer room me (Some targetId) (Some offer_sdp)])
        st
  | _, _, _ => st
  end.

(** *** frontend/src/hooks/useWebRTC.ts *)

Definition CHUNK_SIZE : nat := 64 * 1024.

Record File : Type := mkFile {
  file_name : string;
  file_type : string;
  file_bytes : list Byte.byte
}.

Definition file_size (f : File) : Z := Z.of_nat (length (file_bytes f)).

Definition createPeerConnection (targetPeerId : string) (targetUsername : option JSON)
    (st : Client) : nat * Client :=
  let pc := length (links st) in
  let st1 := set_links (fun l => l ++ [mkLink stable None None []]) st in
  let peerConnection := mkPeerConnection targetPeerId targetUsername pc None false in
  (pc, setPeerConnection targetPeerId peerConnection st1).

(** [pc.createDataChannel(label, { ordered: true })] followed by
    [setupDataChannel(targetPeerId, channel)]. *)
Definition createDataChannel (pc : nat) (label : string) (targetPeerId : string)
    (st : Client) : nat * Client :=
  let c := length (channels st) in
  let st1 := set_channels
               (fun l => l ++ [mkChannel label true ch_connecting (Some targetPeerId) []]) st in
  (c, set_links
        (alter (fun k => mkLink (rtc_signalingState k) (rtc_localDescription k)
                                (rtc_remoteDescription k) (rtc_createdChannels k ++ [c]))
               pc)
        st1).

Definition dc_push (m : DataChannelMessage) (c : RTCDataChannel) : RTCDataChannel :=
  mkChannel (dc_label c) (dc_ordered c) (dc_readyState c) (dc_peer c) (dc_sent c ++ [m]).

Definition channel_is_open (st : Client) (c : nat) : bool :=
  match channels st !! c with
  | Some ch => match dc_readyState ch with ch_open => true | _ => false end
  | None => false
  end.

(** [if (pc.dataChannel?.readyState === 'open') pc.dataChannel.send(str)] *)
Definition send_if_open (m : DataChannelMessage) (st : Client) (pc : PeerConnection) : Client :=
  match pc_dataChannel pc with
  | Some c => if channel_is_open st c then set_channels (alter (dc_push m) c) st else st
  | None => st
  end.

(** [targetConnections.forEach(pc => ...)] *)
Definition send_to_targets (targets : list PeerConnection) (m : DataChannelMessage)
    (st : Client) : Client :=
  fold_left (send_if_open m) targets st.

Definition handleDataChannelMessage (senderId : string) (message : DataChannelMessage)
    (now : Z) (st : Client) : Client :=
  match message with
  | Chat m => addMessage m st
  | FileStart metadata =>
      let st1 := set_fileBuffers (insert (md_id metadata) (mkBuffer metadata [] 0)) st in
      addTransfer
        (mkTransfer (md_id metadata) (md_filename metadata) (md_size metadata)
           (md_mime metadata) (of_Z 0) transferring dir_receive senderId
           (md_senderName metadata) (Some []) None None now)
        st1
  | FileChunk fileId _ chunkData =>
      match fileBuffers st !! fileId with
      | None => st
      | Some buffer =>
          match Base64.atob chunkData with
          | None => st     (* atob throws; the handler's catch swallows it *)
          | Some binaryString =>
              let bytes := list_byte_of_string binaryString in
              let receivedSize := (fb_receivedSize buffer + Z.of_nat (length bytes))%Z in
              let buffer' :=
                mkBuffer (fb_metadata buffer) (fb_chunks buffer ++ [bytes]) receivedSize in
              let st1 := set_fileBuffers (insert fileId buffer') st in
              let progress := percent_round receivedSize (md_size (fb_metadata buffer)) in
              updateTransfer fileId (mkUpdates (Some progress) None None None) st1
          end
      end
  | FileComplete fileId =>
      match fileBuffers st !! fileId with
      | None => st
      | Some buffer =>
          let blob := mkBlob (concat (fb_chunks buffer))
                             (normalized_type (md_mime (fb_metadata buffer))) in
          let st1 :=
            updateTransfer fileId
              (mkUpdates (Some (of_Z 100)) (Some completed) (Some blob) None) st in
          set_fileBuffers (delete fileId) st1
      end
  end.

(** The state a running [sendFile] keeps in its closure. *)
Record SendJob : Type := mkJob {
  job_file : File;
  job_fileId : string;
  job_targets : list PeerConnection;
  job_offset : nat;
  job_chunkIndex : Z
}.

(** The [targetConnections] array [sendFile] builds: the named peer's
    connection if there is one, or every connection of the store. *)
Definition targetConnections (targetPeerId : option string) (st : Client)
    : list PeerConnection :=
  match truthy targetPeerId with
  | Some target =>
      match assoc_get target (peerConnections st) with
      | Some pc => [pc]
      | None => []
      end
  | None => map snd (peerConnections st)
  end.

(** [sendFile] up to the first [readNextChunk()]; [fileId] is the id the
    random generator yields.  [None]: no peer to send to. *)
Definition sendFile (file : File) (targetPeerId : option string) (fileId : string)
    (now : Z) (st : Client) : Client * option SendJob :=
  let metadata :=
    mkMetadata fileId (file_name file) (file_size file)
      (default "application/octet-stream" (truthy (Some (file_type file))))
      (default "" (truthy (peerId st))) (Some (username st)) in
  let targets := targetConnections targetPeerId st in
  match targets with
  | [] => (st, None)
  | _ =>
      let transfer :=
        mkTransfer fileId (file_name file) (file_size file) (file_type file) (of_Z 0)
          transferring dir_send (default "broadcast" (truthy targetPeerId)) None None
          None None now in
      let st1 := addTransfer transfer st in
      let st2 := send_to_targets targets (FileStart metadata) st1 in
      (st2, Some (mkJob file fileId targets 0 0))
  end.

(** How a [reader.readAsArrayBuffer(slice)] started by [readNextChunk]
    ends: with the [load] event, the bytes of the slice being the result, or
    with the [error] event. *)
Inductive ReadOutcome : Type := read_load | read_error.

(** One [reader.onload]: the chunk read by the pending [readNextChunk]
    ([file.slice(offset, offset + CHUNK_SIZE)]) is encoded and sent.  The
    result of a successful read is an [ArrayBuffer], which is truthy even when
    empty, so the [!e.target?.result] guard never fires.  [Some job']: another
    [readNextChunk] is scheduled (after the 10 ms delay). *)
Definition onload (job : SendJob) (st : Client) : Client * option SendJob :=
  let file := job_file job in
  let chunk := firstn CHUNK_SIZE (skipn (job_offset job) (file_bytes file)) in
  let base64 := Base64.btoa (string_of_list_byte chunk) in
  let chunkMessage := FileChunk (job_fileId job) (job_chunkIndex job) base64 in
  let st1 := send_to_targets (job_targets job) chunkMessage st in
  let offset := (job_offset job + length chunk)%nat in
  let chunkIndex := (job_chunkIndex job + 1)%Z in
  let progress := percent_round (Z.of_nat offset) (file_size file) in
  let st2 := updateTransfer (job_fileId job) (mkUpdates (Some progress) None None None) st1 in
  if (Z.of_nat offset <? file_size file)%Z then
    (st2, Some (mkJob file (job_fileId job) (job_targets job) offset chunkIndex))
  else
    let st3 := send_to_targets (job_targets job) (FileComplete (job_fileId job)) st2 in
    (updateTransfer (job_fileId job)
       (mkUpdates (Some (of_Z 100)) (Some completed) None None) st3,
     None).

(** [reader.onerror]: the entry is marked [failed]; no further read is
    scheduled and nothing is sent. *)
Definition onerror (job : SendJob) (st : Client) : Client :=
  updateTransfer (job_fileId job)
    (mkUpdates None (Some failed) None (Some "Error reading file")) st.

(** The read loop of [sendFile]: [outcomes] tells how the successive reads
    end.  A [load] runs [onload], which schedules the next read unless the
    file is through; an [error] runs [onerror] and ends the loop.  [Some job]:
    the outcomes are used up and a read is pending.  The handlers run one
    after the other here; what the client handles in the 10 ms between two
    reads is applied to the state a pending job resumes from. *)
Fixpoint read_loop (outcomes : list ReadOutcome) (job : SendJob) (st : Client)
    : Client * option SendJob :=
  match outcomes with
  | [] => (st, Some job)
  | read_load :: outcomes' =>
      match onload job st with
      | (st', Some job') => read_loop outcomes' job' st'
      | (st', None) => (st', None)
      end
  | read_error :: _ => (onerror job st, None)
  end.

(** The read loop when every read ends in [load], for at most [fuel] reads. *)
Definition pump (fuel : nat) (job : SendJob) (st : Client) : Client * option SendJob :=
  read_loop (repeat read_load fuel) job st.

Section Negotiation.

(** The session description [pc.createOffer()] resolves to, per link. *)
Variable createOffer : nat -> JSON.

(** [initiateConnection] up to its first [await]. *)
Definition initiateConnection_begin (targetPeerId : string) (targetUsername : option JSON)
    (st : Client) : nat * Client :=
  let '(pc, st1) := createPeerConnection targetPeerId targetUsername st in
  let '(_, st2) := createDataChannel pc "aeroshare" targetPeerId st1 in
  (pc, st2).

(** [initiateConnection] after [createOffer] has resolved:
    [setLocalDescription(offer)] and [sendOffer]. *)
Definition initiateConnection_resume (targetPeerId : string) (pc : nat) (st : Client) : Client :=
  let offer_sdp := createOffer pc in
  let st1 :=
    set_links
      (alter (fun k => mkLink have_local_offer (Some offer_sdp) (rtc_remoteDescription k)
                              (rtc_createdChannels k))
             pc)
      st in
  sendOffer targetPeerId offer_sdp st1.

Definition handlePeerJoined (peer : PeerInfo) (st : Client) : Client := st.

(** [peerList.forEach(peer => initiateConnection(peer.id, peer.username))]:
    every call runs to its first [await] inside the loop; the continuations
    run afterwards, in call order. *)
Definition handlePeerList (peerList : list PeerInfo) (st : Client) : Client :=
  let '(pending_offers, st1) :=
    fold_left
      (fun '(acc, st0) peer =>
         let '(pc, st0') := initiateConnection_begin (pi_id peer) (pi_username peer) st0 in
         (acc ++ [(pi_id peer, pc)], st0'))
      peerList ([], st) in
  fold_left (fun st0 '(target, pc) => initiateConnection_resume target pc st0)
            pending_offers st1.

Definition handlePeerLeft (leftPeerId : string) (st : Client) : Client :=
  let st1 := removePeerConnection leftPeerId st in
  fold_left
    (fun st0 t =>
       match String.eqb (ft_peerId t) leftPeerId, ft_status t with
       | true, transferring =>
           updateTransfer (ft_id t)
             (mkUpdates None (Some failed) None (Some "Peer disconnected")) st0
       | _, _ => st0
       end)
    (transfers st1) st1.

(** [handleMessage] of useSignaling with the handlers useWebRTC installs. *)
Definition handleMessage (message : ServerMessage) (st : Client) : Client :=
  match message with
  | MPeerList payload =>
      let filteredPeers :=
        filter (fun p => negb (bool_decide (Some (pi_id p) = peerId st))) payload in
      handlePeerList filteredPeers (setPeers filteredPeers st)
  | MPeerJoined payload =>
      if negb (bool_decide (Some (pi_id payload) = peerId st))
      then handlePeerJoined payload (addPeer payload st)
      else st
  | MPeerLeft leftPeerId => handlePeerLeft leftPeerId (removePeer leftPeerId st)
  | MError _ => st
  end.

End Negotiation.

(** [setupDataChannel]: the handlers of a data channel. *)

(** [Partial<PeerConnection>] as the handlers build it. *)
Record PeerConnectionUpdates : Type := mkPcUpdates {
  upc_dataChannel : option nat;
  upc_connected : option bool
}.

(** [{ ...existing, ...updates }] *)
Definition apply_pc_updates (u : PeerConnectionUpdates) (pc : PeerConnection)
    : PeerConnection :=
  mkPeerConnection (pc_id pc) (pc_username pc) (pc_connection pc)
    (match upc_dataChannel u with Some c => Some c | None => pc_dataChannel pc end)
    (default (pc_connected pc) (upc_connected u)).

Definition updatePeerConnection (id : string) (updates : PeerConnectionUpdates)
    (st : Client) : Client :=
  match assoc_get id (peerConnections st) with
  | Some existing => set_peerConnections (amap_set id (apply_pc_updates updates existing)) st
  | None => st
  end.

Definition dc_set_readyState (s : ChannelState) (c : RTCDataChannel) : RTCDataChannel :=
  mkChannel (dc_label c) (dc_ordered c) s (dc_peer c) (dc_sent c).

(** The channel [c] reaches [open] and its [onopen] handler runs: the
    handler [setupDataChannel] installed records the channel on the store
    entry of the peer it was set up for. *)
Definition channel_onopen (c : nat) (st : Client) : Client :=
  let st1 := set_channels (alter (dc_set_readyState ch_open) c) st in
  match channels st !! c ≫= dc_peer with
  | Some targetPeerId =>
      updatePeerConnection targetPeerId (mkPcUpdates (Some c) (Some true)) st1
  | None => st1
  end.

(** The channel [c] closes and its [onclose] handler runs. *)
Definition channel_onclose (c : nat) (st : Client) : Client :=
  let st1 := set_channels (alter (dc_set_readyState ch_closed) c) st in
  match channels st !! c ≫= dc_peer with
  | Some targetPeerId => updatePeerConnection targetPeerId (mkPcUpdates None (Some false)) st1
  | None => st1
  end.

(** A link after [close()], and a channel after [close()]: closing until
    the transport is down, closed afterwards. *)
Definition link_closed (st : Client) (i : nat) : Prop :=
  forall k, links st !! i = Some k -> rtc_signalingState k = signaling_closed.

Definition channel_closing (st : Client) (c : nat) : Prop :=
  forall ch, channels st !! c = Some ch ->
    dc_readyState ch = ch_closing \/ dc_readyState ch = ch_closed.

(** *** Negotiation: who initiates *)

Section NegotiationFacts.
Variable createOffer : nat -> JSON.

Lemma assoc_get_amap_set_eq {A} k (v : A) m : assoc_get k (amap_set k v m) = Some v.
Proof.
  induction m as [| [k' v'] m IH]; simpl.
  - by rewrite String.eqb_refl.
  - destruct (String.eqb_spec k k') as [-> | Hne]; simpl.
    + by rewrite String.eqb_refl.
    + destruct (String.eqb_spec k k'); [done | exact IH].
Qed.

Lemma assoc_get_amap_set_ne {A} k k' (v : A) m :
  k <> k' -> assoc_get k' (amap_set k v m) = assoc_get k' m.
Proof.
  intros Hne. induction m as [| [k0 v0] m IH]; simpl.
  - destruct (String.eqb_spec k' k); congruence.
  - destruct (String.eqb_spec k k0) as [-> | Hne0]; simpl.
    + destruct (String.eqb_spec k' k0); congruence.
    + by rewrite IH.
Qed.

Lemma initiateConnection_begin_eq target u st :
  initiateConnection_begin target u st =
  (length (links st),
   mkClient (peerId st) (username st) (roomId st) (peers st)
     (amap_set target (mkPeerConnection target u (length (links st)) None false)
        (peerConnections st))
     (messages st) (transfers st) (fileBuffers st)
     (links st ++ [mkLink stable None None [length (channels st)]])
     (channels st ++ [mkChannel "aeroshare" true ch_connecting (Some target) []])
     (ws_open st) (ws_sent st)).
Proof.
  unfold initiateConnection_begin, createPeerConnection, createDataChannel. simpl.
  f_equal. unfold set_links, set_channels, setPeerConnection, set_peerConnections. simpl.
  f_equal.
  replace (length (links st)) with (length (links st) + 0)%nat at 1 by lia.
  by rewrite alter_app_r.
Qed.

Definition fresh_link (c : nat) : RTCPeerConnection := mkLink stable None None [c].

Definition fresh_channel (p : PeerInfo) : RTCDataChannel :=
  mkChannel "aeroshare" true ch_connecting (Some (pi_id p)) [].

Definition offered_link (pc c : nat) : RTCPeerConnection :=
  mkLink have_local_offer (Some (createOffer pc)) None [c].

Definition store_entry (p : PeerInfo) (pc : nat) : PeerConnection :=
  mkPeerConnection (pi_id p) (pi_username p) pc None false.

Definition offer_to (room me target : string) (pc : nat) : Backend.SignalingMessage :=
  Backend.mkMsg Backend.offer room me (Some target) (Some (createOffer pc)).

Definition register_all (l : list PeerInfo) (first : nat)
    (m : list (string * PeerConnection)) : list (string * PeerConnection) :=
  fold_left (fun m ph => amap_set (pi_id (fst ph)) (store_entry (fst ph) (snd ph)) m)
            (zip l (seq first (length l))) m.

Lemma begin_all (l : list PeerInfo) : forall acc st,
  fold_left
    (fun '(acc, st0) peer =>
       let '(pc, st0') := initiateConnection_begin (pi_id peer) (pi_username peer) st0 in
       (acc ++ [(pi_id peer, pc)], st0'))
    l (acc, st) =
  (acc ++ zip (map pi_id l) (seq (length (links st)) (length l)),
   mkClient (peerId st) (username st) (roomId st) (peers st)
     (register_all l (length (links st)) (peerConnections st))
     (messages st) (transfers st) (fileBuffers st)
     (links st ++ map fresh_link (seq (length (channels st)) (length l)))
     (channels st ++ map fresh_channel l)
     (ws_open st) (ws_sent st)).
Proof.
  induction l as [| p l IH]; intros acc st.
  - simpl. rewrite !app_nil_r. by destruct st.
  - cbn [fold_left]. rewrite initiateConnection_begin_eq, IH. cbn [links channels].
    rewrite !length_app. cbn [length map seq zip zip_with].
    rewrite !Nat.add_1_r, <- !app_assoc. reflexivity.
Qed.

Lemma resume_all (ids : list string) : forall (cs : list nat) pre st room me,
  length ids = length cs ->
  ws_open st = true -> truthy (roomId st) = Some room -> truthy (peerId st) = Some me ->
  links st = pre ++ map fresh_link cs ->
  fold_left (fun st0 '(target, pc) => initiateConnection_resume createOffer target pc st0)
            (zip ids (seq (length pre) (length ids))) st =
  mkClient (peerId st) (username st) (roomId st) (peers st) (peerConnections st)
    (messages st) (transfers st) (fileBuffers st)
    (pre ++ zip_with offered_link (seq (length pre) (length cs)) cs)
    (channels st) (ws_open st)
    (ws_sent st ++ zip_with (offer_to room me) ids (seq (length pre) (length ids))).
Proof.
  induction ids as [| t ids IH]; intros cs pre st room me Hlen Ho Hr Hp Hl.
  - destruct cs; [| done]. simpl in *. rewrite !app_nil_r in *. rewrite <- Hl. by destruct st.
  - destruct cs as [| c cs]; [done |]. simpl in Hlen. injection Hlen as Hlen.
    cbn [length seq zip zip_with fold_left].
    set (st1 := initiateConnection_resume createOffer t (length pre) st).
    assert (Hst1 : st1 =
      mkClient (peerId st) (username st) (roomId st) (peers st) (peerConnections st)
        (messages st) (transfers st) (fileBuffers st)
        ((pre ++ [offered_link (length pre) c]) ++ map fresh_link cs)
        (channels st) (ws_open st)
        (ws_sent st ++ [offer_to room me t (length pre)])).
    { unfold st1, initiateConnection_resume, sendOffer. simpl.
      rewrite Ho, Hr, Hp. unfold set_ws_sent, set_links. simpl. f_equal; [| done].
      rewrite Hl. simpl.
      replace (length pre) with (length pre + 0)%nat at 1 by lia.
      rewrite alter_app_r. simpl. by rewrite <- app_assoc. }
    specialize (IH cs (pre ++ [offered_link (length pre) c]) st1 room me Hlen).
    rewrite length_app in IH. simpl in IH. rewrite Nat.add_1_r in IH.
    rewrite IH; rewrite Hst1; simpl; try done.
    rewrite <- !app_assoc. reflexivity.
Qed.

Lemma handlePeerList_eq (l : list PeerInfo) st room me :
  ws_open st = true -> truthy (roomId st) = Some room -> truthy (peerId st) = Some me ->
  handlePeerList createOffer l st =
  mkClient (peerId st) (username st) (roomId st) (peers st)
    (register_all l (length (links st)) (peerConnections st))
    (messages st) (transfers st) (fileBuffers st)
    (links st ++ zip_with offered_link (seq (length (links st)) (length l))
                                       (seq (length (channels st)) (length l)))
    (channels st ++ map fresh_channel l)
    (ws_open st)
    (ws_sent st ++ zip_with (offer_to room me) (map pi_id l)
                            (seq (length (links st)) (length l))).
Proof.
  intros Ho Hr Hp. unfold handlePeerList. rewrite begin_all. cbn [app].
  pose proof (resume_all (map pi_id l) (seq (length (channels st)) (length l))
                (links st)) as H.
  rewrite length_map, length_seq in H.
  erewrite H; simpl; eauto.
Qed.

Lemma register_all_cons p l first m :
  register_all (p :: l) first m =
  register_all l (S first) (amap_set (pi_id p) (store_entry p first) m).
Proof. reflexivity. Qed.

Lemma register_all_other (l : list PeerInfo) : forall first m k,
  k ∉ map pi_id l -> assoc_get k (register_all l first m) = assoc_get k m.
Proof.
  induction l as [| p l IH]; intros first m k Hk; [done |].
  simpl in Hk. apply not_elem_of_cons in Hk as [Hne Hk].
  rewrite register_all_cons, IH by done.
  by apply assoc_get_amap_set_ne.
Qed.

Lemma register_all_lookup (l : list PeerInfo) : forall first m p,
  p ∈ l ->
  exists j p', l !! j = Some p' /\ pi_id p' = pi_id p /\
    assoc_get (pi_id p) (register_all l first m) = Some (store_entry p' (first + j)).
Proof.
  induction l as [| p0 l IH]; intros first m p Hp; [by apply elem_of_nil in Hp |].
  rewrite register_all_cons.
  destruct (decide (pi_id p ∈ map pi_id l)) as [Hin | Hnin].
  - apply list_elem_of_fmap in Hin as (q & Hq & Hql).
    destruct (IH (S first) (amap_set (pi_id p0) (store_entry p0 first) m) q Hql)
      as (j & p' & Hj & Hid & Hget).
    exists (S j), p'. split_and!; [done | congruence |].
    rewrite Hq, Hget. do 2 f_equal. lia.
  - apply elem_of_cons in Hp as [-> | Hp].
    + exists 0%nat, p0. split_and!; [done | done |].
      rewrite register_all_other by done.
      rewrite assoc_get_amap_set_eq. do 2 f_equal. lia.
    + exfalso. apply Hnin. apply list_elem_of_fmap. eauto.
Qed.

(** C9: initiator asymmetry.  A client whose signaling socket is OPEN and
    whose [roomId] and [peerId] are set, handed a peer list: for every peer
    of the list the store holds a link (a new [RTCPeerConnection]) with the
    ordered data channel ["aeroshare"] created on it and bound to that peer,
    the link's local description is the offer [createOffer] produced, and that
    offer has been sent to the peer through the signaling socket; exactly one
    offer per list entry is sent and nothing else.  [handlePeerJoined] returns
    the state as it is, and a [peer-joined] message changes neither the stored
    links, the browser's connections and channels, nor the signaling output. *)
Theorem peer_list_initiates_peer_joined_waits (peerList : list PeerInfo) (peer : PeerInfo)
    (room me : string) (st : Client) :
  ws_open st = true ->
  truthy (roomId st) = Some room ->
  truthy (peerId st) = Some me ->
  let st' := handlePeerList createOffer peerList st in
  (forall p, p ∈ peerList ->
     exists entry link c channel,
       assoc_get (pi_id p) (peerConnections st') = Some entry /\
       pc_id entry = pi_id p /\
       (length (links st) <= pc_connection entry)%nat /\
       links st' !! pc_connection entry = Some link /\
       rtc_signalingState link = have_local_offer /\
       rtc_localDescription link = Some (createOffer (pc_connection entry)) /\
       rtc_createdChannels link = [c] /\
       (length (channels st) <= c)%nat /\
       channels st' !! c = Some channel /\
       dc_label channel = "aeroshare" /\ dc_ordered channel = true /\
       dc_peer channel = Some (pi_id p) /\
       Backend.mkMsg Backend.offer room me (Some (pi_id p))
         (Some (createOffer (pc_connection entry))) ∈ ws_sent st') /\
  length (ws_sent st') = (length (ws_sent st) + length peerList)%nat /\
  (forall m, m ∈ ws_sent st' ->
     m ∈ ws_sent st \/
     (Backend.msg_type m = Backend.offer /\
      exists p, p ∈ peerList /\ Backend.msg_targetId m = Some (pi_id p))) /\
  handlePeerJoined peer st = st /\
  (forall st0,
     let st'' := handleMessage createOffer (MPeerJoined peer) st0 in
     peerConnections st'' = peerConnections st0 /\ links st'' = links st0 /\
     channels st'' = channels st0 /\ ws_sent st'' = ws_sent st0).
Proof.
  intros Ho Hr Hp. cbv zeta.
  rewrite (handlePeerList_eq peerList st room me) by done. cbn [peerConnections links channels ws_sent].
  split_and!.
  - intros p Hin.
    destruct (register_all_lookup peerList (length (links st)) (peerConnections st) p Hin)
      as (j & p' & Hj & Hid & Hget).
    assert (Hjlt : (j < length peerList)%nat) by (by eapply lookup_lt_Some).
    exists (store_entry p' (length (links st) + j)),
           (offered_link (length (links st) + j) (length (channels st) + j)),
           (length (channels st) + j)%nat, (fresh_channel p').
    split_and!; simpl; try done; try lia.
    + rewrite lookup_app_r by lia.
      replace (length (links st) + j - length (links st))%nat with j by lia.
      rewrite lookup_zip_with, !lookup_seq_lt by done. reflexivity.
    + rewrite lookup_app_r by lia.
      replace (length (channels st) + j - length (channels st))%nat with j by lia.
      by rewrite list_lookup_fmap, Hj.
    + by rewrite Hid.
    + apply elem_of_app. right. apply list_elem_of_lookup. exists j.
      rewrite lookup_zip_with, list_lookup_fmap, Hj, lookup_seq_lt by done.
      simpl. by rewrite Hid.
  - rewrite length_app, length_zip_with, length_map, length_seq. lia.
  - intros m Hm. apply elem_of_app in Hm as [Hm | Hm]; [by left | right].
    apply list_elem_of_lookup in Hm as [j Hj].
    rewrite lookup_zip_with, list_lookup_fmap in Hj.
    destruct (peerList !! j) as [p |] eqn:Ep; simpl in Hj; [| done].
    destruct (seq (length (links st)) (length peerList) !! j); simpl in Hj; [| done].
    injection Hj as <-. split; [done |]. exists p. split; [| done].
    apply list_elem_of_lookup. eauto.
  - reflexivity.
  - intros st0. cbv zeta. unfold handleMessage, handlePeerJoined.
    by destruct (negb (bool_decide (Some (pi_id peer) = peerId st0))).
Qed.

End NegotiationFacts.

(** *** Chunked transfer *)

Section TransferFacts.

Implicit Types (st : Client) (t : FileTransfer) (job : SendJob).

Definition progress_update (p : number) : TransferUpdates :=
  mkUpdates (Some p) None None None.

Definition final_update (blob : Blob) : TransferUpdates :=
  mkUpdates (Some (of_Z 100)) (Some completed) (Some blob) None.

(** What [updateTransfer] does to the list of transfers. *)
Definition update_where (id : string) (u : TransferUpdates) (ts : list FileTransfer)
    : list FileTransfer :=
  map (fun t => if String.eqb (ft_id t) id then apply_updates u t else t) ts.

Lemma update_where_final_progress id blob p ts :
  update_where id (final_update blob) (update_where id (progress_update p) ts) =
  update_where id (final_update blob) ts.
Proof.
  unfold update_where. rewrite map_map. apply map_ext. intros t.
  destruct (String.eqb (ft_id t) id) eqn:E; simpl; by rewrite E.
Qed.

Lemma handle_FileStart_eq sender metadata now st :
  handleDataChannelMessage sender (FileStart metadata) now st =
  addTransfer
    (mkTransfer (md_id metadata) (md_filename metadata) (md_size metadata)
       (md_mime metadata) (of_Z 0) transferring dir_receive sender
       (md_senderName metadata) (Some []) None None now)
    (set_fileBuffers (insert (md_id metadata) (mkBuffer metadata [] 0)) st).
Proof. reflexivity. Qed.

Lemma handle_FileChunk_eq sender fileId index data now st buffer binary :
  fileBuffers st !! fileId = Some buffer ->
  Base64.atob data = Some binary ->
  handleDataChannelMessage sender (FileChunk fileId index data) now st =
  updateTransfer fileId
    (progress_update
       (percent_round
          (fb_receivedSize buffer + Z.of_nat (length (list_byte_of_string binary)))
          (md_size (fb_metadata buffer))))
    (set_fileBuffers
       (insert fileId
          (mkBuffer (fb_metadata buffer)
             (fb_chunks buffer ++ [list_byte_of_string binary])
             (fb_receivedSize buffer + Z.of_nat (length (list_byte_of_string binary)))))
       st).
Proof. intros Hb Ha. unfold handleDataChannelMessage. by rewrite Hb, Ha. Qed.

Lemma handle_FileComplete_eq sender fileId now st buffer :
  fileBuffers st !! fileId = Some buffer ->
  handleDataChannelMessage sender (FileComplete fileId) now st =
  set_fileBuffers (delete fileId)
    (updateTransfer fileId
       (final_update (mkBlob (concat (fb_chunks buffer))
               (normalized_type (md_mime (fb_metadata buffer)))))
       st).
Proof. intros Hb. unfold handleDataChannelMessage. by rewrite Hb. Qed.

(** The data-channel messages one run of the read loop hands to [send]. *)
Fixpoint job_trace (fuel : nat) (job : SendJob) : list DataChannelMessage :=
  match fuel with
  | O => []
  | S fuel' =>
      let chunk := firstn CHUNK_SIZE (skipn (job_offset job) (file_bytes (job_file job))) in
      let m := FileChunk (job_fileId job) (job_chunkIndex job)
                 (Base64.btoa (string_of_list_byte chunk)) in
      let offset := (job_offset job + length chunk)%nat in
      if (Z.of_nat offset <? file_size (job_file job))%Z then
        m :: job_trace fuel'
               (mkJob (job_file job) (job_fileId job) (job_targets job) offset
                      (job_chunkIndex job + 1))
      else [m; FileComplete (job_fileId job)]
  end.

Lemma CHUNK_SIZE_pos : (0 < CHUNK_SIZE)%nat.
Proof. unfold CHUNK_SIZE. lia. Qed.

Lemma pump_0 job st : pump 0 job st = (st, Some job).
Proof. reflexivity. Qed.

Lemma pump_S fuel job st :
  pump (S fuel) job st =
  match onload job st with
  | (st', Some job') => pump fuel job' st'
  | (st', None) => (st', None)
  end.
Proof. reflexivity. Qed.

(** The loop ends: a file of [n] bytes needs at most [n + 1] reads. *)
Lemma pump_completes (fuel : nat) : forall job st,
  (length (file_bytes (job_file job)) - job_offset job < fuel)%nat ->
  snd (pump fuel job st) = None.
Proof.
  induction fuel as [| fuel IH]; intros job st Hf; [lia |].
  rewrite pump_S. unfold onload. cbv zeta.
  set (chunk := firstn CHUNK_SIZE (skipn (job_offset job) (file_bytes (job_file job)))).
  destruct (Z.ltb_spec (Z.of_nat (job_offset job + length chunk)) (file_size (job_file job)))
    as [Hlt | Hge]; [| done].
  apply IH. cbn [job_file job_offset].
  unfold file_size in Hlt.
  assert (Hc : length chunk = Nat.min CHUNK_SIZE (length (file_bytes (job_file job)) - job_offset job))
    by (unfold chunk; by rewrite length_take, length_drop).
  pose proof CHUNK_SIZE_pos. lia.
Qed.

Definition pushed (ms : list DataChannelMessage) (dc : RTCDataChannel) : RTCDataChannel :=
  mkChannel (dc_label dc) (dc_ordered dc) (dc_readyState dc) (dc_peer dc) (dc_sent dc ++ ms).

(** How many of the targets send on channel [c]. *)
Definition uses (c : nat) (targets : list PeerConnection) : nat :=
  length (filter (fun pc => bool_decide (pc_dataChannel pc = Some c)) targets).

Lemma pushed_push ms m dc : pushed ms (dc_push m dc) = pushed (m :: ms) dc.
Proof. unfold pushed, dc_push. simpl. by rewrite <- app_assoc. Qed.

Lemma send_to_targets_channel c m (targets : list PeerConnection) : forall st dc,
  channels st !! c = Some dc ->
  dc_readyState dc = ch_open ->
  channels (send_to_targets targets m st) !! c =
  Some (pushed (repeat m (uses c targets)) dc).
Proof.
  unfold send_to_targets, uses.
  induction targets as [| pc targets IH]; intros st dc Hdc Ho.
  - simpl. rewrite Hdc. unfold pushed. rewrite app_nil_r. by destruct dc.
  - cbn [fold_left]. rewrite filter_cons. unfold send_if_open at 2.
    destruct (pc_dataChannel pc) as [c' |] eqn:Ec; [| by apply IH].
    destruct (decide (c' = c)) as [-> | Hne].
    + rewrite bool_decide_eq_true_2 by done. cbn [length repeat].
      unfold channel_is_open. rewrite Hdc, Ho.
      rewrite (IH _ (dc_push m dc)); [| simpl; by rewrite list_lookup_alter_eq, Hdc | done].
      by rewrite pushed_push.
    + rewrite bool_decide_eq_false_2 by congruence.
      destruct (channel_is_open st c'); [| by apply IH].
      apply IH; [| done]. simpl. by rewrite list_lookup_alter_ne.
Qed.

Lemma pump_channel c (fuel : nat) : forall job st dc,
  uses c (job_targets job) = 1%nat ->
  channels st !! c = Some dc ->
  dc_readyState dc = ch_open ->
  channels (fst (pump fuel job st)) !! c = Some (pushed (job_trace fuel job) dc).
Proof.
  induction fuel as [| fuel IH]; intros job st dc Hu Hdc Ho.
  - simpl. rewrite Hdc. unfold pushed. rewrite app_nil_r. by destruct dc.
  - rewrite pump_S. cbn [job_trace]. unfold onload. cbv zeta.
    set (chunk := firstn CHUNK_SIZE (skipn (job_offset job) (file_bytes (job_file job)))).
    set (m := FileChunk _ _ _).
    pose proof (send_to_targets_channel c m (job_targets job) st dc Hdc Ho) as H1.
    rewrite Hu in H1. cbn [repeat] in H1.
    destruct (Z.ltb_spec (Z.of_nat (job_offset job + length chunk)) (file_size (job_file job))).
    + erewrite IH; [| exact Hu | exact H1 | done].
      unfold pushed. simpl. by rewrite <- app_assoc.
    + cbn [fst].
      set (st2 := updateTransfer _ _ (send_to_targets (job_targets job) m st)).
      pose proof (send_to_targets_channel c (FileComplete (job_fileId job))
                    (job_targets job) st2 (pushed [m] dc) H1 Ho) as H2.
      rewrite Hu in H2. cbn [repeat] in H2.
      change (channels (updateTransfer (job_fileId job)
                {| up_progress := Some (of_Z 100); up_status := Some completed;
                   up_blob := None; up_error := None |}
                (send_to_targets (job_targets job) (FileComplete (job_fileId job)) st2)))
        with (channels (send_to_targets (job_targets job) (FileComplete (job_fileId job)) st2)).
      rewrite H2. unfold pushed. simpl. by rewrite <- app_assoc.
Qed.

(** The receiver, fed the messages of a run of the read loop. *)
Lemma receive_trace sender now (fuel : nat) : forall job st buffer,
  (length (file_bytes (job_file job)) - job_offset job < fuel)%nat ->
  fileBuffers st !! job_fileId job = Some buffer ->
  let st' := fold_left (fun s m => handleDataChannelMessage sender m now s)
                       (job_trace fuel job) st in
  fileBuffers st' !! job_fileId job = None /\
  transfers st' =
    update_where (job_fileId job)
      (final_update
         (mkBlob (concat (fb_chunks buffer) ++ skipn (job_offset job) (file_bytes (job_file job)))
                 (normalized_type (md_mime (fb_metadata buffer)))))
      (transfers st).
Proof.
  induction fuel as [| fuel IH]; intros job st buffer Hf Hb; [lia |].
  cbn [job_trace]. cbv zeta.
  set (chunk := firstn CHUNK_SIZE (skipn (job_offset job) (file_bytes (job_file job)))).
  set (m := FileChunk _ _ _).
  assert (Hm : handleDataChannelMessage sender m now st =
               updateTransfer (job_fileId job)
                 (progress_update
                    (percent_round (fb_receivedSize buffer + Z.of_nat (length chunk))
                                   (md_size (fb_metadata buffer))))
                 (set_fileBuffers
                    (insert (job_fileId job)
                       (mkBuffer (fb_metadata buffer) (fb_chunks buffer ++ [chunk])
                          (fb_receivedSize buffer + Z.of_nat (length chunk))))
                    st)).
  { unfold m. erewrite handle_FileChunk_eq; [| exact Hb | apply Base64.atob_btoa].
    by rewrite list_byte_of_string_of_list_byte. }
  assert (Hc : length chunk =
               Nat.min CHUNK_SIZE (length (file_bytes (job_file job)) - job_offset job))
    by (unfold chunk; by rewrite length_take, length_drop).
  pose proof CHUNK_SIZE_pos as Hpos.
  destruct (Z.ltb_spec (Z.of_nat (job_offset job + length chunk)) (file_size (job_file job)))
    as [Hlt | Hge]; unfold file_size in *.
  - cbn [fold_left]. rewrite Hm.
    set (st1 := updateTransfer _ _ _).
    set (job' := mkJob _ _ _ _ _).
    destruct (IH job' st1
                (mkBuffer (fb_metadata buffer) (fb_chunks buffer ++ [chunk])
                   (fb_receivedSize buffer + Z.of_nat (length chunk))))
      as [H1 H2].
    + cbn [job' job_file job_offset]. lia.
    + cbn [job' job_fileId]. unfold st1. simpl. apply lookup_insert_eq.
    + cbn [job' job_fileId job_file job_offset fb_chunks fb_metadata] in H1, H2.
      split; [exact H1 |]. rewrite H2.
      unfold st1. cbn [transfers updateTransfer set_transfers set_fileBuffers].
      fold (update_where (job_fileId job)
              (progress_update
                 (percent_round (fb_receivedSize buffer + Z.of_nat (length chunk))
                    (md_size (fb_metadata buffer)))) (transfers st)).
      rewrite update_where_final_progress. do 3 f_equal.
      rewrite concat_app. simpl. rewrite app_nil_r, <- app_assoc. f_equal.
      unfold chunk at 2. rewrite <- drop_drop. fold chunk.
      assert (Hlen : length chunk = CHUNK_SIZE) by lia.
      rewrite Hlen. unfold chunk. by rewrite take_drop.
  - cbn [fold_left]. rewrite Hm.
    set (st1 := updateTransfer _ _ _).
    erewrite handle_FileComplete_eq; [| unfold st1; simpl; apply lookup_insert_eq].
    cbn [fb_chunks fb_metadata]. split.
    + simpl. apply lookup_delete_eq.
    + unfold st1. cbn [transfers updateTransfer set_transfers set_fileBuffers].
      fold (update_where (job_fileId job)
              (progress_update
                 (percent_round (fb_receivedSize buffer + Z.of_nat (length chunk))
                    (md_size (fb_metadata buffer)))) (transfers st)).
      fold (update_where (job_fileId job)
              (final_update (mkBlob (concat (fb_chunks buffer ++ [chunk]))
                               (normalized_type (md_mime (fb_metadata buffer)))))
              (update_where (job_fileId job)
                 (progress_update
                    (percent_round (fb_receivedSize buffer + Z.of_nat (length chunk))
                       (md_size (fb_metadata buffer)))) (transfers st))).
      rewrite update_where_final_progress. do 3 f_equal.
      rewrite concat_app. simpl. rewrite app_nil_r. f_equal.
      unfold chunk. apply take_ge. rewrite length_drop. lia.
Qed.

Lemma transfers_send_to_targets targets m st :
  transfers (send_to_targets targets m st) = transfers st.
Proof.
  unfold send_to_targets. revert st.
  induction targets as [| pc targets IH]; intros st; [done |].
  cbn [fold_left]. rewrite IH. unfold send_if_open.
  destruct (pc_dataChannel pc) as [c |]; [| done].
  by destruct (channel_is_open st c).
Qed.

Lemma elem_of_update_where id u ts t :
  t ∈ update_where id u ts ->
  exists t0, t0 ∈ ts /\
    t = (if String.eqb (ft_id t0) id then apply_updates u t0 else t0).
Proof.
  unfold update_where. intros H. apply list_elem_of_fmap in H as (t0 & -> & H0). eauto.
Qed.

End TransferFacts.

(** C5: round trip.  [sendFile] (to one named peer, or to every peer)
    with a target whose data channel [c] is open, no other target sharing
    that channel: a job starts; the read loop, every read ending in [load]
    ([pump]), ends within [length + 1] reads;
    what channel [c] was handed is [file-start], the 64 KiB chunks in base64
    and [done]; a receiver fed these messages in that order ends with a
    transfer of that id, and every transfer of that id is [completed] with a
    blob whose bytes are the file's bytes. *)
Theorem file_round_trip (file : File) (targetPeerId : option string)
    (fileId sender : string) (now now' : Z) (st_s st_r : Client)
    (c : nat) (dc : RTCDataChannel) :
  channels st_s !! c = Some dc ->
  dc_readyState dc = ch_open ->
  uses c (targetConnections targetPeerId st_s) = 1%nat ->
  exists job st1 st2 emitted,
    sendFile file targetPeerId fileId now st_s = (st1, Some job) /\
    pump (S (length (file_bytes file))) job st1 = (st2, None) /\
    dc_sent <$> channels st2 !! c = Some (dc_sent dc ++ emitted) /\
    let st_r' :=
      fold_left (fun s m => handleDataChannelMessage sender m now' s) emitted st_r in
    (exists t, t ∈ transfers st_r' /\ ft_id t = fileId) /\
    (forall t, t ∈ transfers st_r' -> ft_id t = fileId ->
       ft_status t = completed /\
       ft_blob t =
         Some (mkBlob (file_bytes file)
                 (normalized_type
                    (default "application/octet-stream" (truthy (Some (file_type file))))))).
Proof.
  intros Hdc Ho Hu.
  set (metadata :=
         mkMetadata fileId (file_name file) (file_size file)
           (default "application/octet-stream" (truthy (Some (file_type file))))
           (default "" (truthy (peerId st_s))) (Some (username st_s))).
  set (transfer :=
         mkTransfer fileId (file_name file) (file_size file) (file_type file) (of_Z 0)
           transferring dir_send (default "broadcast" (truthy targetPeerId)) None None
           None None now).
  set (targets := targetConnections targetPeerId st_s) in *.
  set (job := mkJob file fileId targets 0 0).
  set (st1 := send_to_targets targets (FileStart metadata) (addTransfer transfer st_s)).
  assert (Hsend : sendFile file targetPeerId fileId now st_s = (st1, Some job)).
  { unfold sendFile. cbv zeta. fold targets.
    destruct targets as [| pc0 rest] eqn:Et; [by vm_compute in Hu | done]. }
  assert (H1 : channels st1 !! c = Some (pushed [FileStart metadata] dc)).
  { unfold st1.
    pose proof (send_to_targets_channel c (FileStart metadata) targets
                  (addTransfer transfer st_s) dc Hdc Ho) as H.
    by rewrite Hu in H. }
  exists job, st1, (fst (pump (S (length (file_bytes file))) job st1)),
         (FileStart metadata :: job_trace (S (length (file_bytes file))) job).
  split_and!.
  - exact Hsend.
  - rewrite (surjective_pairing (pump _ _ _)). f_equal.
    apply pump_completes. cbn [job job_file job_offset]. lia.
  - erewrite pump_channel; [| exact Hu | exact H1 | done].
    simpl. by rewrite <- app_assoc.
  - cbv zeta. cbn [fold_left]. rewrite handle_FileStart_eq.
    set (st_r1 := addTransfer _ _).
    destruct (receive_trace sender now' (S (length (file_bytes file))) job st_r1
                (mkBuffer metadata [] 0)) as [_ Htr].
    + cbn [job job_file job_offset]. lia.
    + unfold st_r1. simpl. apply lookup_insert_eq.
    + cbv zeta in Htr. rewrite Htr. cbn [job job_fileId job_file job_offset fb_chunks
        fb_metadata concat app skipn md_mime metadata].
      split.
      * eexists. split.
        -- unfold update_where, st_r1. simpl. rewrite map_app. apply elem_of_app. right.
           simpl. apply list_elem_of_here.
        -- simpl. by rewrite String.eqb_refl.
      * intros t Ht Hid. apply elem_of_update_where in Ht as (t0 & _ & ->).
        destruct (String.eqb_spec (ft_id t0) fileId) as [_ | Hne]; [done |].
        by destruct Hne.
Qed.

(** **** Peer departure *)

Definition fail_update : TransferUpdates :=
  mkUpdates None (Some failed) None (Some "Peer disconnected").

(** The loop of [handlePeerLeft] over the snapshot, on the list of transfers. *)
Definition fail_pass (leftPeerId : string) (snapshot ts : list FileTransfer)
    : list FileTransfer :=
  fold_left
    (fun ts0 t =>
       match String.eqb (ft_peerId t) leftPeerId, ft_status t with
       | true, transferring => update_where (ft_id t) fail_update ts0
       | _, _ => ts0
       end)
    snapshot ts.

Definition marked (id : string) (ts : list FileTransfer) : Prop :=
  forall t, t ∈ ts -> ft_id t = id ->
    ft_status t = failed /\ ft_error t = Some "Peer disconnected".

Definition failed_or_same (t t' : FileTransfer) : Prop :=
  t' = t \/ t' = apply_updates fail_update t.

Section DepartureFacts.

Implicit Types (st : Client) (t : FileTransfer).

Lemma assoc_get_amap_delete {A} k (m : list (string * A)) :
  assoc_get k (amap_delete k m) = None.
Proof.
  unfold amap_delete. induction m as [| [k' v] m IH]; [done |].
  rewrite filter_cons. simpl.
  destruct (String.eqb_spec k k') as [-> | Hne]; simpl; [exact IH |].
  destruct (String.eqb_spec k k'); [done | exact IH].
Qed.

Lemma removePeerConnection_frame id st :
  transfers (removePeerConnection id st) = transfers st /\
  fileBuffers (removePeerConnection id st) = fileBuffers st /\
  peerConnections (removePeerConnection id st) = amap_delete id (peerConnections st).
Proof.
  unfold removePeerConnection.
  destruct (assoc_get id (peerConnections st)) as [pc |]; [| done].
  by destruct (pc_dataChannel pc).
Qed.

Lemma fail_loop_frame leftPeerId (snapshot : list FileTransfer) : forall st,
  let st' :=
    fold_left
      (fun st0 t =>
         match String.eqb (ft_peerId t) leftPeerId, ft_status t with
         | true, transferring =>
             updateTransfer (ft_id t)
               (mkUpdates None (Some failed) None (Some "Peer disconnected")) st0
         | _, _ => st0
         end)
      snapshot st in
  transfers st' = fail_pass leftPeerId snapshot (transfers st) /\
  fileBuffers st' = fileBuffers st /\
  peerConnections st' = peerConnections st.
Proof.
  induction snapshot as [| t snapshot IH]; intros st; [done |].
  cbn [fold_left fail_pass]. cbv zeta in *.
  destruct (String.eqb (ft_peerId t) leftPeerId); [| by apply IH].
  destruct (ft_status t); try by apply IH.
  destruct (IH (updateTransfer (ft_id t) fail_update st)) as (H1 & H2 & H3).
  unfold fail_update in *. by rewrite H1, H2, H3.
Qed.

Lemma handlePeerLeft_frame leftPeerId st :
  transfers (handlePeerLeft leftPeerId st) = fail_pass leftPeerId (transfers st) (transfers st) /\
  fileBuffers (handlePeerLeft leftPeerId st) = fileBuffers st /\
  assoc_get leftPeerId (peerConnections (handlePeerLeft leftPeerId st)) = None.
Proof.
  unfold handlePeerLeft.
  destruct (removePeerConnection_frame leftPeerId st) as (Ht & Hf & Hp).
  destruct (fail_loop_frame leftPeerId (transfers (removePeerConnection leftPeerId st))
              (removePeerConnection leftPeerId st)) as (H1 & H2 & H3).
  cbv zeta in *. rewrite H1, H2, H3, Ht, Hf, Hp.
  split_and!; [done | done | apply assoc_get_amap_delete].
Qed.

Lemma apply_fail_twice t :
  apply_updates fail_update (apply_updates fail_update t) = apply_updates fail_update t.
Proof. reflexivity. Qed.

Lemma fail_pass_related leftPeerId (snapshot : list FileTransfer) : forall ts0 ts,
  Forall2 failed_or_same ts0 ts ->
  Forall2 failed_or_same ts0 (fail_pass leftPeerId snapshot ts).
Proof.
  induction snapshot as [| t snapshot IH]; intros ts0 ts H; [done |].
  cbn [fail_pass fold_left].
  destruct (String.eqb (ft_peerId t) leftPeerId); [| by apply IH].
  destruct (ft_status t); try by apply IH.
  apply IH. unfold update_where. apply Forall2_fmap_r.
  eapply Forall2_impl; [exact H |].
  intros a b [-> | ->]; simpl.
  - destruct (String.eqb (ft_id a) (ft_id t)); [by right | by left].
  - destruct (String.eqb (ft_id a) (ft_id t)); by right.
Qed.

Lemma marked_update_where id id' ts :
  marked id ts -> marked id (update_where id' fail_update ts).
Proof.
  intros H t Ht Hid. apply elem_of_update_where in Ht as (t0 & Ht0 & ->).
  destruct (String.eqb (ft_id t0) id'); [done |]. by apply H.
Qed.

Lemma marked_after_update id ts : marked id (update_where id fail_update ts).
Proof.
  intros t Ht Hid. apply elem_of_update_where in Ht as (t0 & Ht0 & ->).
  destruct (String.eqb_spec (ft_id t0) id) as [_ | Hne]; [done |]. by destruct Hne.
Qed.

Lemma fail_pass_keeps_marked leftPeerId id (snapshot : list FileTransfer) : forall ts,
  marked id ts -> marked id (fail_pass leftPeerId snapshot ts).
Proof.
  induction snapshot as [| t snapshot IH]; intros ts H; [done |].
  cbn [fail_pass fold_left].
  destruct (String.eqb (ft_peerId t) leftPeerId); [| by apply IH].
  destruct (ft_status t); try by apply IH.
  apply IH. by apply marked_update_where.
Qed.

Lemma fail_pass_marks leftPeerId t (snapshot : list FileTransfer) : forall ts,
  t ∈ snapshot -> ft_peerId t = leftPeerId -> ft_status t = transferring ->
  marked (ft_id t) (fail_pass leftPeerId snapshot ts).
Proof.
  induction snapshot as [| t0 snapshot IH]; intros ts Hin Hp Hs;
    [by apply elem_of_nil in Hin |].
  apply elem_of_cons in Hin as [<- | Hin].
  - cbn [fail_pass fold_left]. rewrite Hp, String.eqb_refl, Hs.
    apply fail_pass_keeps_marked, marked_after_update.
  - cbn [fail_pass fold_left].
    destruct (String.eqb (ft_peerId t0) leftPeerId); [| by apply IH].
    destruct (ft_status t0); by apply IH.
Qed.

Lemma handlePeerLeft_fails leftPeerId i t st :
  transfers st !! i = Some t -> ft_peerId t = leftPeerId -> ft_status t = transferring ->
  transfers (handlePeerLeft leftPeerId st) !! i = Some (apply_updates fail_update t).
Proof.
  intros Hi Hp Hs.
  destruct (handlePeerLeft_frame leftPeerId st) as (Ht & _ & _). rewrite Ht.
  assert (Hrel : Forall2 failed_or_same (transfers st)
                   (fail_pass leftPeerId (transfers st) (transfers st))).
  { apply fail_pass_related. apply Forall_Forall2_diag, Forall_forall. by left. }
  destruct (Forall2_lookup_l _ _ _ _ _ Hrel Hi) as (t' & Hi' & Hr).
  rewrite Hi'. f_equal.
  assert (Hm : marked (ft_id t) (fail_pass leftPeerId (transfers st) (transfers st))).
  { apply fail_pass_marks; [| done | done]. by eapply list_elem_of_lookup_2. }
  destruct Hr as [-> | ->]; [| done].
  destruct (Hm t) as [Hf _]; [by eapply list_elem_of_lookup_2 | done |]. congruence.
Qed.

End DepartureFacts.

(** **** What [peer-left] closes *)

Section ClosingFacts.

Implicit Types (st : Client).

Lemma fail_loop_heaps leftPeerId (snapshot : list FileTransfer) : forall st,
  let st' :=
    fold_left
      (fun st0 t =>
         match String.eqb (ft_peerId t) leftPeerId, ft_status t with
         | true, transferring =>
             updateTransfer (ft_id t)
               (mkUpdates None (Some failed) None (Some "Peer disconnected")) st0
         | _, _ => st0
         end)
      snapshot st in
  links st' = links st /\ channels st' = channels st.
Proof.
  induction snapshot as [| t snapshot IH]; intros st; [done |].
  cbn [fold_left]. cbv zeta in *.
  destruct (String.eqb (ft_peerId t) leftPeerId); [| by apply IH].
  destruct (ft_status t); try by apply IH.
  destruct (IH (updateTransfer (ft_id t)
                  (mkUpdates None (Some failed) None (Some "Peer disconnected")) st))
    as (H1 & H2).
  by rewrite H1, H2.
Qed.

Lemma handlePeerLeft_heaps leftPeerId st :
  links (handlePeerLeft leftPeerId st) = links (removePeerConnection leftPeerId st) /\
  channels (handlePeerLeft leftPeerId st) = channels (removePeerConnection leftPeerId st) /\
  peerConnections (handlePeerLeft leftPeerId st) = amap_delete leftPeerId (peerConnections st).
Proof.
  unfold handlePeerLeft.
  destruct (fail_loop_heaps leftPeerId (transfers (removePeerConnection leftPeerId st))
              (removePeerConnection leftPeerId st)) as (H1 & H2).
  destruct (fail_loop_frame leftPeerId (transfers (removePeerConnection leftPeerId st))
              (removePeerConnection leftPeerId st)) as (_ & _ & H3).
  destruct (removePeerConnection_frame leftPeerId st) as (_ & _ & H4).
  cbv zeta in *. by rewrite H1, H2, H3, H4.
Qed.

Lemma assoc_get_amap_delete_ne {A} k k' (m : list (string * A)) :
  k <> k' -> assoc_get k' (amap_delete k m) = assoc_get k' m.
Proof.
  intros Hne. unfold amap_delete. induction m as [| [k0 v] m IH]; [done |].
  rewrite filter_cons. simpl.
  destruct (String.eqb_spec k k0) as [-> | Hk]; simpl.
  - destruct (String.eqb_spec k' k0); [congruence | exact IH].
  - by rewrite IH.
Qed.

(** [removePeerConnection] on a stored connection: its link is closed, the
    data channel the entry holds is closed as well (closing, or closed
    already), and what the channel was handed stays as it was. *)
Lemma removePeerConnection_closes id st pc :
  assoc_get id (peerConnections st) = Some pc ->
  let st' := removePeerConnection id st in
  (forall l, links st !! pc_connection pc = Some l ->
     exists l', links st' !! pc_connection pc = Some l' /\
                rtc_signalingState l' = signaling_closed) /\
  (forall c ch, pc_dataChannel pc = Some c -> channels st !! c = Some ch ->
     exists ch', channels st' !! c = Some ch' /\
                 (dc_readyState ch' = ch_closing \/ dc_readyState ch' = ch_closed) /\
                 dc_sent ch' = dc_sent ch) /\
  (forall c, pc_dataChannel pc <> Some c -> channels st' !! c = channels st !! c) /\
  (forall i, i <> pc_connection pc -> links st' !! i = links st !! i).
Proof.
  intros Hpc. cbv zeta. unfold removePeerConnection. rewrite Hpc.
  cbn [links channels set_peerConnections set_links].
  split_and!.
  - intros l Hl. rewrite list_lookup_alter_eq.
    assert (Hl0 : links (match pc_dataChannel pc with
                         | Some c => set_channels (alter dc_close c) st
                         | None => st
                         end) = links st) by (by destruct (pc_dataChannel pc)).
    rewrite Hl0, Hl. by eexists.
  - intros c ch Hc Hch. rewrite Hc. cbn [channels set_channels].
    rewrite list_lookup_alter_eq, Hch. eexists. split; [reflexivity |].
    split; [| done]. unfold dc_close. cbn [dc_readyState]. destruct (dc_readyState ch); auto.
  - intros c Hc. destruct (pc_dataChannel pc) as [c' |]; [| done].
    cbn [channels set_channels]. rewrite list_lookup_alter_ne; [done | congruence].
  - intros i Hi. rewrite list_lookup_alter_ne by congruence.
    by destruct (pc_dataChannel pc).
Qed.

End ClosingFacts.

(** **** Scenarios *)

(** A client that has joined room ["r"] as ["me"], with no peer yet. *)
Definition idle_client : Client :=
  mkClient (Some "me") "alice" (Some "r") [] [] [] [] ∅ [] [] true [].

(** The same client after the peer list named ["p"] and ["q"]: it has set up
    a link and a data channel to each (links and channels 0 and 1) and sent
    its offers, and both channels have opened.  (The answers that arrive in
    between are handled by [handleAnswer], which is outside this
    development: the links still show the local offer.) *)
Definition connected_to_p_q : Client :=
  channel_onopen 1
    (channel_onopen 0
       (handleMessage (fun _ => JStr "sdp")
          (MPeerList [mkPeerInfo "p" (Some (JStr "pat")) 1;
                      mkPeerInfo "q" (Some (JStr "quinn")) 2])
          idle_client)).

(** That client receiving file ["f1"] (6 bytes declared) from peer ["p"]. *)
Definition receiving_from_p : Client :=
  handleDataChannelMessage "p"
    (FileStart (mkMetadata "f1" "a.bin" 6 "application/octet-stream" "p" (Some "pat")))
    0 connected_to_p_q.

(** A message from [sender] can be delivered: a data channel set up for
    that peer is open. *)
Definition delivers (sender : string) (st : Client) : Prop :=
  exists c ch, channels st !! c = Some ch /\ dc_peer ch = Some sender /\
               dc_readyState ch = ch_open.

(** The claim as the specification words it: once [peer-left] for the sender
    has been handled, a chunk carrying the transfer's id, from a peer whose
    channel can still deliver, changes neither the buffer nor the transfer. *)
Definition chunks_rejected_after_peer_left (leftPeerId sender : string) (index : Z)
    (data : string) (now : Z) (st : Client) : Prop :=
  forall t, t ∈ transfers st -> ft_peerId t = leftPeerId -> ft_status t = transferring ->
    let st1 := handlePeerLeft leftPeerId st in
    delivers sender st1 ->
    let st2 := handleDataChannelMessage sender (FileChunk (ft_id t) index data) now st1 in
    fileBuffers st2 !! ft_id t = fileBuffers st1 !! ft_id t /\
    transfers st2 = transfers st1.

(** C4, counterexample: the client is connected to ["p"] and ["q"] and
    receives ["f1"] from ["p"].  After [peer-left] for ["p"] the channel to
    ["q"] is still open, and a chunk for ["f1"] that arrives on it is decoded
    and appended: 3 bytes received, progress 50. *)
Lemma chunk_accepted_after_peer_left :
  ~ chunks_rejected_after_peer_left "p" "q" 0 "TWFu" 1 receiving_from_p.
Proof.
  intros H.
  destruct (H (mkTransfer "f1" "a.bin" 6 "application/octet-stream" (of_Z 0) transferring
                 dir_receive "p" (Some "pat") (Some []) None None 0)) as [_ Ht];
    [apply list_elem_of_here | reflexivity | reflexivity | |].
  - exists 1%nat, (mkChannel "aeroshare" true ch_open (Some "q") []). by vm_compute.
  - vm_compute in Ht. discriminate.
Qed.

(** C4, as amended: a transfer attributed to the departed peer and still
    [transferring] becomes [failed] with error ["Peer disconnected"]; the
    connection to that peer is closed (its link is closed, the data channel
    its store entry holds is closing or closed and is handed nothing more)
    and removed from the store, the other connections staying as they are;
    and the receive buffers stay as they are.  A later chunk carrying the
    transfer's id leaves the status [failed], but is processed like any
    other: when the buffer exists and the payload decodes, the bytes are
    appended, the received size grows and the progress is recomputed. *)
Theorem peer_left_fails_transfer_keeps_buffer (leftPeerId : string) (i : nat)
    (t : FileTransfer) (st : Client) :
  transfers st !! i = Some t ->
  ft_peerId t = leftPeerId ->
  ft_status t = transferring ->
  let st1 := handlePeerLeft leftPeerId st in
  transfers st1 !! i = Some (apply_updates fail_update t) /\
  fileBuffers st1 = fileBuffers st /\
  assoc_get leftPeerId (peerConnections st1) = None /\
  (forall id, id <> leftPeerId ->
     assoc_get id (peerConnections st1) = assoc_get id (peerConnections st)) /\
  (forall pc, assoc_get leftPeerId (peerConnections st) = Some pc ->
     (forall l, links st !! pc_connection pc = Some l ->
        exists l', links st1 !! pc_connection pc = Some l' /\
                   rtc_signalingState l' = signaling_closed) /\
     (forall c ch, pc_dataChannel pc = Some c -> channels st !! c = Some ch ->
        exists ch', channels st1 !! c = Some ch' /\
                    (dc_readyState ch' = ch_closing \/ dc_readyState ch' = ch_closed) /\
                    dc_sent ch' = dc_sent ch) /\
     (forall c, pc_dataChannel pc <> Some c -> channels st1 !! c = channels st !! c) /\
     (forall k, k <> pc_connection pc -> links st1 !! k = links st !! k)) /\
  forall sender index data now,
    let st2 := handleDataChannelMessage sender (FileChunk (ft_id t) index data) now st1 in
    (exists t2, transfers st2 !! i = Some t2 /\
                ft_status t2 = failed /\ ft_error t2 = Some "Peer disconnected") /\
    (forall buffer binary,
       fileBuffers st !! ft_id t = Some buffer ->
       Base64.atob data = Some binary ->
       let bytes := list_byte_of_string binary in
       let received := (fb_receivedSize buffer + Z.of_nat (length bytes))%Z in
       fileBuffers st2 !! ft_id t =
         Some (mkBuffer (fb_metadata buffer) (fb_chunks buffer ++ [bytes]) received) /\
       ft_progress <$> transfers st2 !! i =
         Some (percent_round received (md_size (fb_metadata buffer)))).
Proof.
  intros Hi Hp Hs. cbv zeta.
  pose proof (handlePeerLeft_fails leftPeerId i t st Hi Hp Hs) as H1.
  destruct (handlePeerLeft_frame leftPeerId st) as (_ & Hf & Hpc).
  destruct (handlePeerLeft_heaps leftPeerId st) as (Hl & Hc & Hm).
  split_and!; [done | done | done | | |].
  - intros id Hid. rewrite Hm. apply assoc_get_amap_delete_ne. congruence.
  - intros pc Hget. rewrite Hl, Hc.
    exact (removePeerConnection_closes leftPeerId st pc Hget).
  - intros sender index data now. split.
    + unfold handleDataChannelMessage.
      destruct (fileBuffers (handlePeerLeft leftPeerId st) !! ft_id t) as [buffer |];
        [| by eexists].
      destruct (Base64.atob data) as [binary |]; [| by eexists].
      eexists. split.
      * cbn [transfers updateTransfer set_transfers set_fileBuffers].
        rewrite list_lookup_fmap, H1. reflexivity.
      * simpl. by destruct (String.eqb (ft_id t) (ft_id t)).
    + intros buffer binary Hb Ha.
      erewrite handle_FileChunk_eq; [| by rewrite Hf | exact Ha]. split.
      * simpl. apply lookup_insert_eq.
      * cbn [transfers updateTransfer set_transfers set_fileBuffers].
        rewrite list_lookup_fmap, H1. simpl. by rewrite String.eqb_refl.
Qed.

(** [peer-left] for ["p"] while ["f1"] is being received from it: the
    transfer is failed, the buffer kept; the entry of ["p"] is gone, its link
    closed and its channel closing, while the channel to ["q"] stays open. *)
Lemma peer_left_fails_transfer_keeps_buffer_witness :
  let st1 := handlePeerLeft "p" receiving_from_p in
  ft_status <$> transfers st1 !! 0%nat = Some failed /\
  fileBuffers st1 = fileBuffers receiving_from_p /\
  assoc_get "p" (peerConnections st1) = None /\
  (exists l', links st1 !! 0%nat = Some l' /\ rtc_signalingState l' = signaling_closed) /\
  (exists ch', channels st1 !! 0%nat = Some ch' /\
     (dc_readyState ch' = ch_closing \/ dc_readyState ch' = ch_closed)) /\
  dc_readyState <$> channels st1 !! 1%nat = Some ch_open.
Proof.
  cbv zeta.
  destruct (peer_left_fails_transfer_keeps_buffer "p" 0
              (mkTransfer "f1" "a.bin" 6 "application/octet-stream" (of_Z 0) transferring
                 dir_receive "p" (Some "pat") (Some []) None None 0)
              receiving_from_p) as (H1 & H2 & H3 & _ & H5 & _).
  - reflexivity.
  - reflexivity.
  - reflexivity.
  - destruct (H5 (mkPeerConnection "p" (Some (JStr "pat")) 0 (Some 0%nat) true))
      as (Hl & Hc & Ho & _); [reflexivity |].
    destruct (Hl (mkLink have_local_offer (Some (JStr "sdp")) None [0%nat]))
      as (l' & Hl1 & Hl2); [reflexivity |].
    destruct (Hc 0%nat (mkChannel "aeroshare" true ch_open (Some "p") []))
      as (ch' & Hc1 & Hc2 & _); [reflexivity | reflexivity |].
    split_and!.
    + by rewrite H1.
    + exact H2.
    + exact H3.
    + by exists l'.
    + by exists ch'.
    + rewrite Ho by discriminate. reflexivity.
Defined.

(** **** Progress *)

Lemma update_where_after_progress id (u : TransferUpdates) p ts :
  is_Some (up_progress u) ->
  update_where id u (update_where id (progress_update p) ts) = update_where id u ts.
Proof.
  intros [q Hq]. unfold update_where. rewrite map_map. apply map_ext. intros t.
  destruct (String.eqb (ft_id t) id) eqn:E; simpl; rewrite E; [| done].
  unfold apply_updates. simpl. by rewrite Hq.
Qed.

(** A file one byte longer than a chunk, and the first chunk [sendFile] emits
    for it. *)
Definition two_chunk_file : File :=
  mkFile "big.bin" "" (repeat Byte.x00 (CHUNK_SIZE + 1)).

Definition first_chunk_data : string :=
  Base64.btoa (string_of_list_byte (firstn CHUNK_SIZE (file_bytes two_chunk_file))).

Definition receiving_two_chunks : Client :=
  handleDataChannelMessage "p"
    (FileStart (mkMetadata "f2" "big.bin" 65537 "application/octet-stream" "p" (Some "pat")))
    0 idle_client.

(** The claim as the specification words it, on the receiving side: the
    progress a chunk event reports is the floor of the percentage. *)
Definition receive_progress_is_floor (sender fileId : string) (index : Z) (data : string)
    (now : Z) (st : Client) : Prop :=
  forall buffer binary t,
    fileBuffers st !! fileId = Some buffer ->
    Base64.atob data = Some binary ->
    t ∈ transfers (handleDataChannelMessage sender (FileChunk fileId index data) now st) ->
    ft_id t = fileId ->
    ft_progress t =
      percent_floor (fb_receivedSize buffer + Z.of_nat (length (list_byte_of_string binary)))
                    (md_size (fb_metadata buffer)).

Lemma first_chunk_length :
  Z.of_nat (length (firstn CHUNK_SIZE (file_bytes two_chunk_file))) = 65536%Z.
Proof.
  unfold two_chunk_file. cbn [file_bytes].
  rewrite length_take, repeat_length. unfold CHUNK_SIZE. lia.
Qed.

Lemma first_chunk_decodes :
  Base64.atob first_chunk_data =
  Some (string_of_list_byte (firstn CHUNK_SIZE (file_bytes two_chunk_file))).
Proof. unfold first_chunk_data. apply Base64.atob_btoa. Qed.

Lemma receiving_two_chunks_buffer :
  fileBuffers receiving_two_chunks !! "f2" =
  Some (mkBuffer
          (mkMetadata "f2" "big.bin" 65537 "application/octet-stream" "p" (Some "pat")) [] 0).
Proof. reflexivity. Qed.

Lemma receiving_two_chunks_transfers :
  transfers receiving_two_chunks =
  [mkTransfer "f2" "big.bin" 65537 "application/octet-stream" (of_Z 0) transferring
     dir_receive "p" (Some "pat") (Some []) None None 0].
Proof. reflexivity. Qed.

(** C3, counterexample: a file of 65 537 bytes goes out as two chunks;
    after the first one (65 536 bytes) the receiver reports
    [Math.round(99.998...) = 100], where the floor is 99: the progress is not
    the floor, and it reaches 100 before the final chunk. *)
Lemma receive_progress_rounds_up_before_last_chunk :
  ~ receive_progress_is_floor "p" "f2" 0 first_chunk_data 1 receiving_two_chunks.
Proof.
  intros H.
  pose proof (H _ _
                (mkTransfer "f2" "big.bin" 65537 "application/octet-stream"
                   (percent_round 65536 65537) transferring dir_receive "p" (Some "pat")
                   (Some []) None None 0)
                receiving_two_chunks_buffer first_chunk_decodes) as H'.
  rewrite (handle_FileChunk_eq "p" "f2" 0 first_chunk_data 1 receiving_two_chunks _ _
             receiving_two_chunks_buffer first_chunk_decodes) in H'.
  rewrite list_byte_of_string_of_list_byte, first_chunk_length in H'.
  unfold updateTransfer, set_transfers, set_fileBuffers in H'.
  cbn [transfers] in H'.
  rewrite receiving_two_chunks_transfers in H'.
  assert (Hp : percent_round 65536 65537 = percent_floor 65536 65537).
  { apply H'; [apply list_elem_of_here | reflexivity]. }
  vm_compute in Hp. discriminate.
Qed.

(** C3, as amended: a chunk event reports [Math.round(done / total * 100)]
    in double arithmetic (nearest integer, a half going up), with received
    bytes over the declared size on the receiving side and bytes read so far
    over the file size on the sending side; the sender's last chunk and the
    receiver's [done] event set 100.  Rounding can report 100 while bytes are
    still missing: 65 536 of 65 537 bytes round to 100, their floor is 99. *)
Theorem chunk_progress_is_rounded_percentage (sender fileId : string) (index : Z)
    (data : string) (now : Z) (st : Client) (buffer : FileBuffer) (binary : string) :
  fileBuffers st !! fileId = Some buffer ->
  Base64.atob data = Some binary ->
  let bytes := list_byte_of_string binary in
  let received := (fb_receivedSize buffer + Z.of_nat (length bytes))%Z in
  let st' := handleDataChannelMessage sender (FileChunk fileId index data) now st in
  fileBuffers st' !! fileId =
    Some (mkBuffer (fb_metadata buffer) (fb_chunks buffer ++ [bytes]) received) /\
  transfers st' =
    update_where fileId
      (progress_update (percent_round received (md_size (fb_metadata buffer))))
      (transfers st) /\
  transfers (handleDataChannelMessage sender (FileComplete fileId) now st) =
    update_where fileId
      (final_update (mkBlob (concat (fb_chunks buffer))
               (normalized_type (md_mime (fb_metadata buffer)))))
      (transfers st) /\
  (forall job st_s,
     let chunk := firstn CHUNK_SIZE (skipn (job_offset job) (file_bytes (job_file job))) in
     let bytesSent := Z.of_nat (job_offset job + length chunk) in
     transfers (fst (onload job st_s)) =
       if (bytesSent <? file_size (job_file job))%Z
       then update_where (job_fileId job)
              (progress_update (percent_round bytesSent (file_size (job_file job))))
              (transfers st_s)
       else update_where (job_fileId job)
              (mkUpdates (Some (of_Z 100)) (Some completed) None None)
              (transfers st_s)) /\
  (percent_round 65536 65537 = of_Z 100 /\ percent_floor 65536 65537 = of_Z 99).
Proof.
  intros Hb Ha. cbv zeta. split_and!; [| | | | by vm_compute | by vm_compute].
  - rewrite (handle_FileChunk_eq _ _ _ _ _ _ _ _ Hb Ha). simpl. apply lookup_insert_eq.
  - by rewrite (handle_FileChunk_eq _ _ _ _ _ _ _ _ Hb Ha).
  - by rewrite (handle_FileComplete_eq _ _ _ _ _ Hb).
  - intros job st_s. unfold onload. cbv zeta.
    destruct (Z.ltb_spec
                (Z.of_nat (job_offset job +
                   length (firstn CHUNK_SIZE (skipn (job_offset job) (file_bytes (job_file job))))))
                (file_size (job_file job))).
    + cbn [fst transfers updateTransfer set_transfers].
      by rewrite transfers_send_to_targets.
    + cbn [fst transfers updateTransfer set_transfers].
      rewrite transfers_send_to_targets.
      cbn [transfers updateTransfer set_transfers].
      rewrite transfers_send_to_targets.
      apply (update_where_after_progress (job_fileId job)
               (mkUpdates (Some (of_Z 100)) (Some completed) None None)). by eexists.
Qed.

(** 3 bytes of 6: progress 50. *)
Lemma chunk_progress_is_rounded_percentage_witness :
  transfers (handleDataChannelMessage "p" (FileChunk "f1" 0 "TWFu") 1 receiving_from_p) =
  update_where "f1" (progress_update (of_Z 50)) (transfers receiving_from_p).
Proof.
  destruct (chunk_progress_is_rounded_percentage "p" "f1" 0 "TWFu" 1 receiving_from_p
              (mkBuffer (mkMetadata "f1" "a.bin" 6 "application/octet-stream" "p" (Some "pat"))
                        [] 0)
              "Man") as (_ & H & _).
  - reflexivity.
  - reflexivity.
  - exact H.
Defined.

(** **** Witnesses of the round trip and of the initiator rule *)

(** A sender with one peer ["b"], linked, its data channel open. *)
Definition sender_ready : Client :=
  mkClient (Some "me") "alice" (Some "r") []
    [("b", mkPeerConnection "b" None 0 (Some 0%nat) true)] [] [] ∅
    [mkLink stable None None [0%nat]]
    [mkChannel "aeroshare" true ch_open (Some "b") []] true [].

Definition hi_file : File := mkFile "hi.txt" "text/plain" [Byte.x68; Byte.x69].

(** The two bytes of ["hi"], broadcast by a sender with one open channel. *)
Lemma file_round_trip_witness :
  exists job st1 st2 emitted,
    sendFile hi_file None "f9" 3 sender_ready = (st1, Some job) /\
    pump 3 job st1 = (st2, None) /\
    dc_sent <$> channels st2 !! 0%nat = Some ([] ++ emitted) /\
    let st_r' :=
      fold_left (fun s m => handleDataChannelMessage "a" m 4 s) emitted idle_client in
    (exists t, t ∈ transfers st_r' /\ ft_id t = "f9") /\
    (forall t, t ∈ transfers st_r' -> ft_id t = "f9" ->
       ft_status t = completed /\
       ft_blob t = Some (mkBlob [Byte.x68; Byte.x69] "text/plain")).
Proof.
  apply (file_round_trip hi_file None "f9" "a" 3 4 sender_ready idle_client 0
           (mkChannel "aeroshare" true ch_open (Some "b") [])).
  - reflexivity.
  - reflexivity.
  - reflexivity.
Defined.

(** A peer list of one entry: one offer goes out. *)
Lemma peer_list_initiates_peer_joined_waits_witness :
  length (ws_sent (handlePeerList (fun _ => JStr "sdp") [mkPeerInfo "b" (Some (JStr "bob")) 5]
                     idle_client)) = 1%nat.
Proof.
  destruct (peer_list_initiates_peer_joined_waits (fun _ => JStr "sdp")
              [mkPeerInfo "b" (Some (JStr "bob")) 5] (mkPeerInfo "c" None 6) "r" "me" idle_client)
    as (_ & H & _).
  - reflexivity.
  - reflexivity.
  - reflexivity.
  - exact H.
Defined.

(** ** Further properties of the client *)

(** *** What a send loop does when no channel is open *)

Section DeliveryFacts.

Implicit Types (st : Client) (t : FileTransfer) (job : SendJob) (m : DataChannelMessage).

(** None of the targets has a data channel in state [open]. *)
Definition none_open (targets : list PeerConnection) (chs : list RTCDataChannel) : Prop :=
  forall pc c ch, pc ∈ targets -> pc_dataChannel pc = Some c -> chs !! c = Some ch ->
    dc_readyState ch <> ch_open.

Lemma send_if_open_closed m st pc :
  none_open [pc] (channels st) -> send_if_open m st pc = st.
Proof.
  intros H. unfold send_if_open. destruct (pc_dataChannel pc) as [c |] eqn:Ec; [| done].
  unfold channel_is_open. destruct (channels st !! c) as [ch |] eqn:Ech; [| done].
  specialize (H pc c ch (list_elem_of_here _ _) Ec Ech).
  by destruct (dc_readyState ch).
Qed.

Lemma send_to_targets_closed (targets : list PeerConnection) m st :
  none_open targets (channels st) -> send_to_targets targets m st = st.
Proof.
  unfold send_to_targets. induction targets as [| pc targets IH]; intros H; [done |].
  cbn [fold_left]. rewrite send_if_open_closed.
  - apply IH. intros pc' c ch Hin. apply H. by apply list_elem_of_further.
  - intros pc' c ch Hin. apply list_elem_of_singleton in Hin as ->.
    apply H. apply list_elem_of_here.
Qed.

Lemma send_to_targets_single m st pc : send_to_targets [pc] m st = send_if_open m st pc.
Proof. reflexivity. Qed.

(** A send loop writes to channel logs only. *)
Lemma send_to_targets_frame (targets : list PeerConnection) m : forall st,
  let st' := send_to_targets targets m st in
  peerId st' = peerId st /\ username st' = username st /\ roomId st' = roomId st /\
  peers st' = peers st /\ peerConnections st' = peerConnections st /\
  messages st' = messages st /\ transfers st' = transfers st /\
  fileBuffers st' = fileBuffers st /\ links st' = links st /\
  ws_open st' = ws_open st /\ ws_sent st' = ws_sent st /\
  length (channels st') = length (channels st).
Proof.
  unfold send_to_targets. induction targets as [| pc targets IH]; intros st; [done |].
  cbn [fold_left]. cbv zeta in *.
  destruct (IH (send_if_open m st pc)) as (H1 & H2 & H3 & H4 & H5 & H6 & H7 & H8 & H9 & H10 & H11 & H12).
  rewrite H1, H2, H3, H4, H5, H6, H7, H8, H9, H10, H11, H12.
  unfold send_if_open. destruct (pc_dataChannel pc) as [c |]; [| done].
  destruct (channel_is_open st c); [| done].
  cbn [peerId username roomId peers peerConnections messages transfers fileBuffers links
       channels ws_open ws_sent set_channels].
  by rewrite length_alter.
Qed.

Definition completed_update : TransferUpdates :=
  mkUpdates (Some (of_Z 100)) (Some completed) None None.

(** The transfers of the sender after one read, and after the whole loop. *)
Lemma onload_transfers job st :
  transfers (fst (onload job st)) =
  let chunk := firstn CHUNK_SIZE (skipn (job_offset job) (file_bytes (job_file job))) in
  let bytesSent := Z.of_nat (job_offset job + length chunk) in
  if (bytesSent <? file_size (job_file job))%Z
  then update_where (job_fileId job)
         (progress_update (percent_round bytesSent (file_size (job_file job))))
         (transfers st)
  else update_where (job_fileId job) completed_update (transfers st).
Proof.
  unfold onload. cbv zeta.
  destruct (Z.ltb_spec
              (Z.of_nat (job_offset job +
                 length (firstn CHUNK_SIZE (skipn (job_offset job) (file_bytes (job_file job))))))
              (file_size (job_file job))).
  - cbn [fst transfers updateTransfer set_transfers].
    by rewrite transfers_send_to_targets.
  - cbn [fst transfers updateTransfer set_transfers].
    rewrite transfers_send_to_targets.
    cbn [transfers updateTransfer set_transfers].
    rewrite transfers_send_to_targets.
    apply (update_where_after_progress (job_fileId job) completed_update). by eexists.
Qed.

Lemma onload_job job st job' st' :
  onload job st = (st', Some job') ->
  job_file job' = job_file job /\ job_fileId job' = job_fileId job /\
  job_targets job' = job_targets job /\
  (job_offset job < job_offset job' <= length (file_bytes (job_file job)))%nat.
Proof.
  unfold onload. cbv zeta.
  set (chunk := firstn CHUNK_SIZE (skipn (job_offset job) (file_bytes (job_file job)))).
  assert (Hc : length chunk =
               Nat.min CHUNK_SIZE (length (file_bytes (job_file job)) - job_offset job))
    by (unfold chunk; by rewrite length_take, length_drop).
  destruct (Z.ltb_spec (Z.of_nat (job_offset job + length chunk)) (file_size (job_file job)))
    as [Hlt | Hge]; [| done].
  intros [= <- <-]. cbn [job_file job_fileId job_targets job_offset].
  unfold file_size in Hlt. pose proof CHUNK_SIZE_pos.
  split_and!; try done; lia.
Qed.

Lemma pump_transfers (fuel : nat) : forall job st,
  (length (file_bytes (job_file job)) - job_offset job < fuel)%nat ->
  transfers (fst (pump fuel job st)) =
  update_where (job_fileId job) completed_update (transfers st).
Proof.
  induction fuel as [| fuel IH]; intros job st Hf; [lia |].
  rewrite pump_S. pose proof (onload_transfers job st) as Ht. cbv zeta in Ht.
  destruct (onload job st) as [st' [job' |]] eqn:Eo.
  - destruct (onload_job job st job' st' Eo) as (Hfile & Hid & _ & Hoff & Hoff').
    assert (Hlt : (Z.of_nat (job_offset job +
                     length (firstn CHUNK_SIZE (skipn (job_offset job) (file_bytes (job_file job)))))
                   <? file_size (job_file job))%Z = true).
    { unfold onload in Eo. cbv zeta in Eo.
      destruct (_ <? _)%Z; [done | discriminate]. }
    rewrite Hlt in Ht. cbn [fst] in Ht.
    rewrite IH by (rewrite Hfile; lia).
    rewrite Hid, Ht.
    apply (update_where_after_progress (job_fileId job) completed_update). by eexists.
  - assert (Hge : (Z.of_nat (job_offset job +
                     length (firstn CHUNK_SIZE (skipn (job_offset job) (file_bytes (job_file job)))))
                   <? file_size (job_file job))%Z = false).
    { unfold onload in Eo. cbv zeta in Eo.
      destruct (_ <? _)%Z; [discriminate | done]. }
    rewrite Hge in Ht. exact Ht.
Qed.

(** With no open channel the read loop touches the transfers only. *)
Lemma pump_closed (fuel : nat) : forall job st,
  none_open (job_targets job) (channels st) ->
  channels (fst (pump fuel job st)) = channels st.
Proof.
  induction fuel as [| fuel IH]; intros job st Hn; [done |].
  rewrite pump_S.
  destruct (onload job st) as [st' [job' |]] eqn:Eo.
  - destruct (onload_job job st job' st' Eo) as (_ & _ & Htg & _ & _).
    assert (Hch : channels st' = channels st).
    { unfold onload in Eo. cbv zeta in Eo.
      destruct (_ <? _)%Z; [| discriminate]. injection Eo as <- _.
      cbn [channels updateTransfer set_transfers]. by rewrite send_to_targets_closed. }
    rewrite IH; [done |]. by rewrite Htg, Hch.
  - cbn [fst]. unfold onload in Eo. cbv zeta in Eo.
    destruct (_ <? _)%Z; [discriminate |]. injection Eo as <-.
    cbn [channels updateTransfer set_transfers].
    rewrite send_to_targets_closed; cbn [channels updateTransfer set_transfers];
      rewrite send_to_targets_closed; done.
Qed.

End DeliveryFacts.

(** A client that has just handled a peer list naming ["b"]: the link and
    its data channel exist, the channel has not opened yet. *)
Definition just_listed : Client :=
  handlePeerList (fun _ => JStr "sdp") [mkPeerInfo "b" (Some (JStr "bob")) 5] idle_client.

(** *** Chat *)

(** [sendChatMessage]; [id] is the id the random generator yields. *)
Definition sendChatMessage (content : string) (targetPeerId : option string)
    (id : string) (now : Z) (st : Client) : Client :=
  let message :=
    mkChat id (default "" (truthy (peerId st))) (username st) content now in
  let st1 :=
    match truthy targetPeerId with
    | Some target =>
        match assoc_get target (peerConnections st) with
        | Some pc => send_if_open (Chat message) st pc
        | None => st
        end
    | None => send_to_targets (map snd (peerConnections st)) (Chat message) st
    end in
  addMessage message st1.

Lemma sendChatMessage_eq content targetPeerId id now st :
  sendChatMessage content targetPeerId id now st =
  let message := mkChat id (default "" (truthy (peerId st))) (username st) content now in
  addMessage message
    (send_to_targets (targetConnections targetPeerId st) (Chat message) st).
Proof.
  unfold sendChatMessage, targetConnections. cbv zeta.
  destruct (truthy targetPeerId) as [target |]; [| done].
  by destruct (assoc_get target (peerConnections st)).
Qed.

Lemma sendChatMessage_closed content targetPeerId id now st :
  none_open (targetConnections targetPeerId st) (channels st) ->
  channels (sendChatMessage content targetPeerId id now st) = channels st.
Proof.
  intros Hn. rewrite sendChatMessage_eq. cbv zeta.
  cbn [channels addMessage set_messages]. by rewrite send_to_targets_closed.
Qed.

(** X13: a chat message on its way.  [sendChatMessage] to a peer (or to
    all) whose data channel [c] is open, no other target sharing that channel:
    the channel is handed exactly one [chat] message; it carries the text, the
    sender's own [peerId] (or the empty string) and [username]; the receiver's
    handler appends that very message to its list, and the sender has appended
    it to its own. *)
Theorem chat_reaches_open_channel (content : string) (targetPeerId : option string)
    (id : string) (now : Z) (st : Client) (c : nat) (dc : RTCDataChannel) :
  channels st !! c = Some dc ->
  dc_readyState dc = ch_open ->
  uses c (targetConnections targetPeerId st) = 1%nat ->
  let message := mkChat id (default "" (truthy (peerId st))) (username st) content now in
  let st' := sendChatMessage content targetPeerId id now st in
  dc_sent <$> channels st' !! c = Some (dc_sent dc ++ [Chat message]) /\
  messages st' = messages st ++ [message] /\
  (forall sender now' st_r,
     messages (handleDataChannelMessage sender (Chat message) now' st_r) =
     messages st_r ++ [message]).
Proof.
  intros Hdc Ho Hu. cbv zeta. rewrite sendChatMessage_eq. cbv zeta.
  set (message := mkChat _ _ _ _ _).
  split_and!.
  - cbn [channels addMessage set_messages].
    rewrite (send_to_targets_channel c (Chat message) _ st dc Hdc Ho), Hu. done.
  - cbn [messages addMessage set_messages].
    by destruct (send_to_targets_frame (targetConnections targetPeerId st) (Chat message) st)
      as (_ & _ & _ & _ & _ & -> & _).
  - done.
Qed.

Lemma chat_reaches_open_channel_witness :
  dc_sent <$> channels (sendChatMessage "hello" (Some "b") "m1" 7 sender_ready) !! 0%nat =
  Some [Chat (mkChat "m1" "me" "alice" "hello" 7)].
Proof.
  destruct (chat_reaches_open_channel "hello" (Some "b") "m1" 7 sender_ready 0
              (mkChannel "aeroshare" true ch_open (Some "b") [])) as (H & _).
  - reflexivity.
  - reflexivity.
  - reflexivity.
  - exact H.
Defined.

(** X14: a chat message nobody gets.  [sendChatMessage] always appends the
    message to the sender's own list, and writes to data channels only: when
    the named peer has no connection, or no target has an open channel, no
    channel is written to and the message shows in the sender's list all the
    same. *)
Theorem chat_is_listed_even_if_undelivered (content : string) (targetPeerId : option string)
    (id : string) (now : Z) (st : Client) :
  let message := mkChat id (default "" (truthy (peerId st))) (username st) content now in
  let st' := sendChatMessage content targetPeerId id now st in
  messages st' = messages st ++ [message] /\
  transfers st' = transfers st /\ peerConnections st' = peerConnections st /\
  ws_sent st' = ws_sent st /\
  (none_open (targetConnections targetPeerId st) (channels st) ->
   channels st' = channels st) /\
  (forall target, truthy targetPeerId = Some target ->
     assoc_get target (peerConnections st) = None -> channels st' = channels st).
Proof.
  cbv zeta. rewrite sendChatMessage_eq. cbv zeta.
  set (message := mkChat _ _ _ _ _).
  destruct (send_to_targets_frame (targetConnections targetPeerId st) (Chat message) st)
    as (_ & _ & _ & _ & Hpc & Hm & Ht & _ & _ & _ & Hws & _).
  cbn [messages transfers peerConnections ws_sent channels addMessage set_messages].
  split_and!; try congruence.
  - intros Hn. by rewrite send_to_targets_closed.
  - intros target Ht' Ha. unfold targetConnections. by rewrite Ht', Ha.
Qed.

(** *** The receiver at the edges *)

(** X15: stale and malformed transfer messages.  A [done] removes the
    receive buffer, so that afterwards a [chunk] or a second [done] for the
    same file changes nothing; a [chunk] or [done] for a file that was never
    announced changes nothing; and a [chunk] whose payload is not base64
    changes nothing (the exception of [atob] is swallowed). *)
Theorem receiver_ignores_stale_messages (sender fileId : string) (now : Z) (st : Client) :
  let st1 := handleDataChannelMessage sender (FileComplete fileId) now st in
  fileBuffers st1 !! fileId = None /\
  (forall sender' index data now',
     handleDataChannelMessage sender' (FileChunk fileId index data) now' st1 = st1) /\
  (forall sender' now',
     handleDataChannelMessage sender' (FileComplete fileId) now' st1 = st1) /\
  (fileBuffers st !! fileId = None -> st1 = st) /\
  (forall index data, fileBuffers st !! fileId = None ->
     handleDataChannelMessage sender (FileChunk fileId index data) now st = st) /\
  (forall index data, Base64.atob data = None ->
     handleDataChannelMessage sender (FileChunk fileId index data) now st = st).
Proof.
  cbv zeta.
  assert (Hnone : fileBuffers (handleDataChannelMessage sender (FileComplete fileId) now st)
                    !! fileId = None).
  { unfold handleDataChannelMessage.
    destruct (fileBuffers st !! fileId) as [buffer |] eqn:E; [| done].
    cbn [fileBuffers set_fileBuffers updateTransfer set_transfers]. apply lookup_delete_eq. }
  split_and!.
  - exact Hnone.
  - intros sender' index data now'. unfold handleDataChannelMessage at 1. by rewrite Hnone.
  - intros sender' now'. unfold handleDataChannelMessage at 1. by rewrite Hnone.
  - intros H. unfold handleDataChannelMessage. by rewrite H.
  - intros index data H. unfold handleDataChannelMessage. by rewrite H.
  - intros index data H. unfold handleDataChannelMessage.
    destruct (fileBuffers st !! fileId); [| done]. by rewrite H.
Qed.

(** Every receive buffer counts what it holds. *)
Definition buffers_consistent (st : Client) : Prop :=
  forall f b, fileBuffers st !! f = Some b ->
    fb_receivedSize b = Z.of_nat (length (concat (fb_chunks b))).

(** X16: what a receive buffer counts, and what [done] checks.  In every
    receive buffer [receivedSize] is the number of bytes held in [chunks], and
    every data-channel message keeps it so.  [done] does not compare that
    count with the size the sender declared: whatever has been received, every
    transfer of that id becomes [completed] with progress 100 and a blob of
    exactly the bytes held, in arrival order. *)
Theorem done_completes_whatever_arrived (sender : string) (message : DataChannelMessage)
    (now : Z) (st : Client) :
  buffers_consistent st ->
  buffers_consistent (handleDataChannelMessage sender message now st) /\
  (forall fileId buffer t,
     message = FileComplete fileId ->
     fileBuffers st !! fileId = Some buffer ->
     t ∈ transfers (handleDataChannelMessage sender message now st) ->
     ft_id t = fileId ->
     ft_status t = completed /\ ft_progress t = of_Z 100 /\
     exists blob, ft_blob t = Some blob /\
       blob_bytes blob = concat (fb_chunks buffer) /\
       Z.of_nat (length (blob_bytes blob)) = fb_receivedSize buffer).
Proof.
  intros Hc. split.
  - destruct message as [m | metadata | fileId index data | fileId];
      unfold handleDataChannelMessage.
    + exact Hc.
    + intros f b. cbn [fileBuffers addTransfer set_transfers set_fileBuffers].
      rewrite lookup_insert. destruct (decide (md_id metadata = f)); [| apply Hc].
      by intros [= <-].
    + destruct (fileBuffers st !! fileId) as [buffer |] eqn:E; [| exact Hc].
      destruct (Base64.atob data) as [binary |]; [| exact Hc].
      intros f b. cbn [fileBuffers updateTransfer set_transfers set_fileBuffers].
      rewrite lookup_insert. destruct (decide (fileId = f)); [| apply Hc].
      intros [= <-]. cbn [fb_receivedSize fb_chunks].
      rewrite (Hc _ _ E), concat_app, !length_app. simpl. rewrite app_nil_r. lia.
    + destruct (fileBuffers st !! fileId) as [buffer |] eqn:E; [| exact Hc].
      intros f b. cbn [fileBuffers updateTransfer set_transfers set_fileBuffers].
      rewrite lookup_delete. destruct (decide (fileId = f)); [done | apply Hc].
  - intros fileId buffer t -> Hb Ht Hid.
    rewrite (handle_FileComplete_eq _ _ _ _ _ Hb) in Ht.
    cbn [transfers updateTransfer set_transfers set_fileBuffers] in Ht.
    apply elem_of_update_where in Ht as (t0 & _ & ->).
    destruct (String.eqb_spec (ft_id t0) fileId) as [_ | Hne]; [| done].
    split_and!; try done. eexists. split_and!; [reflexivity | done |].
    simpl. symmetry. exact (Hc fileId buffer Hb).
Qed.

(** Three of six declared bytes, then [done]: completed, with a blob of three bytes. *)
Lemma done_completes_whatever_arrived_witness :
  let st := handleDataChannelMessage "p" (FileChunk "f1" 0 "TWFu") 1 receiving_from_p in
  ft_status <$> transfers (handleDataChannelMessage "p" (FileComplete "f1") 2 st) !! 0%nat
    = Some completed /\
  buffers_consistent (handleDataChannelMessage "p" (FileComplete "f1") 2 st).
Proof.
  cbv zeta. split; [vm_compute; reflexivity |].
  apply (done_completes_whatever_arrived "p" (FileComplete "f1") 2
           (handleDataChannelMessage "p" (FileChunk "f1" 0 "TWFu") 1 receiving_from_p)).
  intros f b H.
  destruct (decide (f = "f1")) as [-> | Hne].
  - vm_compute in H. injection H as <-. reflexivity.
  - exfalso. revert H.
    change (fileBuffers (handleDataChannelMessage "p" (FileChunk "f1" 0 "TWFu") 1 receiving_from_p))
      with (<["f1" := mkBuffer (mkMetadata "f1" "a.bin" 6 "application/octet-stream" "p" (Some "pat"))
                        [list_byte_of_string "Man"] 3]>
              (<["f1" := mkBuffer (mkMetadata "f1" "a.bin" 6 "application/octet-stream" "p" (Some "pat"))
                        [] 0]> (∅ : gmap string FileBuffer))).
    rewrite !lookup_insert_ne by done. by rewrite lookup_empty.
Defined.

(** *** The chunks on the wire *)

(** How many [chunk] messages a file of [n] bytes goes out as: one per
    started block of [CHUNK_SIZE] bytes, and one (empty) for an empty file. *)
Definition chunk_count (n : nat) : nat :=
  Nat.max 1 ((n + CHUNK_SIZE - 1) / CHUNK_SIZE).

(** The [i]-th [chunk] message of a file. *)
Definition chunk_message (file : File) (fileId : string) (i : nat) : DataChannelMessage :=
  FileChunk fileId (Z.of_nat i)
    (Base64.btoa
       (string_of_list_byte (firstn CHUNK_SIZE (skipn (i * CHUNK_SIZE) (file_bytes file))))).

Section ChunkFacts.

Lemma div_up_spec (cs n : nat) :
  (0 < cs)%nat ->
  let k := Nat.max 1 ((n + cs - 1) / cs) in
  ((n = 0 /\ k = 1) \/ (0 < n /\ (k - 1) * cs < n <= k * cs))%nat.
Proof.
  intros Hcs. cbv zeta.
  destruct n as [| n].
  - left. split; [done |].
    replace (0 + cs - 1)%nat with (cs - 1)%nat by lia.
    rewrite Nat.div_small by lia. done.
  - right. split; [lia |].
    pose proof (Nat.div_mod_eq (S n + cs - 1) cs) as Hd.
    pose proof (Nat.mod_upper_bound (S n + cs - 1) cs ltac:(lia)) as Hm.
    set (q := ((S n + cs - 1) / cs)%nat) in *.
    set (r := ((S n + cs - 1) mod cs)%nat) in *.
    assert (Hq : (1 <= q)%nat).
    { destruct q; [| lia]. simpl in Hd. lia. }
    rewrite Nat.max_r by lia.
    split; nia.
Qed.

Lemma chunk_count_spec (n : nat) :
  ((n = 0 /\ chunk_count n = 1) \/
   (0 < n /\ (chunk_count n - 1) * CHUNK_SIZE < n <= chunk_count n * CHUNK_SIZE))%nat.
Proof. apply (div_up_spec CHUNK_SIZE n CHUNK_SIZE_pos). Qed.

Lemma job_trace_chunks (file : File) (fileId : string) (targets : list PeerConnection)
    (fuel : nat) : forall i,
  let n := length (file_bytes file) in
  (i * CHUNK_SIZE < n \/ (i = 0 /\ n = 0))%nat ->
  (n - i * CHUNK_SIZE < fuel)%nat ->
  job_trace fuel (mkJob file fileId targets (i * CHUNK_SIZE) (Z.of_nat i)) =
  map (chunk_message file fileId) (seq i (chunk_count n - i)) ++ [FileComplete fileId].
Proof.
  cbv zeta. pose proof CHUNK_SIZE_pos as Hpos.
  pose proof (chunk_count_spec (length (file_bytes file))) as Hk.
  set (n := length (file_bytes file)) in *.
  set (k := chunk_count n) in *.
  induction fuel as [| fuel IH]; intros i Hi Hf; [lia |].
  cbn [job_trace job_file job_fileId job_targets job_offset job_chunkIndex]. cbv zeta.
  set (chunk := firstn CHUNK_SIZE (skipn (i * CHUNK_SIZE) (file_bytes file))).
  assert (Hc : length chunk = Nat.min CHUNK_SIZE (n - i * CHUNK_SIZE))
    by (unfold chunk; by rewrite length_take, length_drop).
  fold (chunk_message file fileId i).
  unfold file_size. fold n.
  destruct (Z.ltb_spec (Z.of_nat (i * CHUNK_SIZE + length chunk)) (Z.of_nat n)) as [Hlt | Hge].
  - assert (Hlen : length chunk = CHUNK_SIZE) by lia.
    assert (Hik : (S i < k)%nat) by nia.
    replace (k - i)%nat with (S (k - S i)) by lia.
    cbn [seq map app]. f_equal.
    replace (i * CHUNK_SIZE + length chunk)%nat with (S i * CHUNK_SIZE)%nat by lia.
    replace (Z.of_nat i + 1)%Z with (Z.of_nat (S i)) by lia.
    apply IH; [left; lia | lia].
  - assert (Hik : k = S i) by nia.
    replace (k - i)%nat with 1%nat by lia. reflexivity.
Qed.

End ChunkFacts.

(** X17: the chunks on the wire.  For a file of [n] bytes sent to a target
    whose data channel is open, every read ending in [load] ([pump]), the
    channel is handed, after [file-start],
    exactly [max 1 (ceil (n / 65536))] [chunk] messages and then one [done]:
    chunk [i] has index [i] (0, 1, 2, ...) and carries the base64 of bytes
    [i * 65536 .. (i + 1) * 65536 - 1] (fewer in the last one), so no chunk
    holds more than 64 KiB; an empty file goes out as one empty chunk. *)
Theorem file_goes_out_in_numbered_chunks (file : File) (targetPeerId : option string)
    (fileId : string) (now : Z) (st : Client) (c : nat) (dc : RTCDataChannel) :
  channels st !! c = Some dc ->
  dc_readyState dc = ch_open ->
  uses c (targetConnections targetPeerId st) = 1%nat ->
  let n := length (file_bytes file) in
  exists job st1 st2 metadata,
    sendFile file targetPeerId fileId now st = (st1, Some job) /\
    pump (S n) job st1 = (st2, None) /\
    md_id metadata = fileId /\ md_size metadata = Z.of_nat n /\
    dc_sent <$> channels st2 !! c =
      Some (dc_sent dc ++
            FileStart metadata ::
            map (chunk_message file fileId) (seq 0 (chunk_count n)) ++
            [FileComplete fileId]) /\
    ((n = 0 /\ chunk_count n = 1) \/
     (0 < n /\ (chunk_count n - 1) * CHUNK_SIZE < n <= chunk_count n * CHUNK_SIZE))%nat /\
    Z.of_nat CHUNK_SIZE = 65536%Z.
Proof.
  intros Hdc Ho Hu. cbv zeta.
  set (metadata :=
         mkMetadata fileId (file_name file) (file_size file)
           (default "application/octet-stream" (truthy (Some (file_type file))))
           (default "" (truthy (peerId st))) (Some (username st))).
  set (transfer :=
         mkTransfer fileId (file_name file) (file_size file) (file_type file) (of_Z 0)
           transferring dir_send (default "broadcast" (truthy targetPeerId)) None None
           None None now).
  set (targets := targetConnections targetPeerId st) in *.
  set (job := mkJob file fileId targets 0 0).
  set (st1 := send_to_targets targets (FileStart metadata) (addTransfer transfer st)).
  assert (Hsend : sendFile file targetPeerId fileId now st = (st1, Some job)).
  { unfold sendFile. cbv zeta. fold targets.
    destruct targets as [| pc0 rest] eqn:Et; [by vm_compute in Hu | done]. }
  assert (H1 : channels st1 !! c = Some (pushed [FileStart metadata] dc)).
  { unfold st1.
    pose proof (send_to_targets_channel c (FileStart metadata) targets
                  (addTransfer transfer st) dc Hdc Ho) as H.
    by rewrite Hu in H. }
  exists job, st1, (fst (pump (S (length (file_bytes file))) job st1)), metadata.
  split_and!.
  - exact Hsend.
  - rewrite (surjective_pairing (pump _ _ _)). f_equal.
    apply pump_completes. cbn [job job_file job_offset]. lia.
  - reflexivity.
  - reflexivity.
  - erewrite pump_channel; [| exact Hu | exact H1 | done].
    pose proof (job_trace_chunks file fileId targets (S (length (file_bytes file))) 0) as Ht.
    cbv zeta in Ht. change (0 * CHUNK_SIZE)%nat with 0%nat in Ht.
    change (Z.of_nat 0) with 0%Z in Ht. fold job in Ht.
    rewrite Ht by lia. rewrite Nat.sub_0_r.
    cbn [pushed dc_sent fmap option_fmap option_map]. by rewrite <- app_assoc.
  - apply chunk_count_spec.
  - unfold CHUNK_SIZE. lia.
Qed.

(** The two bytes of ["hi"] go out as [file-start], chunk 0 and [done]. *)
Lemma file_goes_out_in_numbered_chunks_witness :
  exists job st1 st2 metadata,
    sendFile hi_file None "f9" 3 sender_ready = (st1, Some job) /\
    pump 3 job st1 = (st2, None) /\
    dc_sent <$> channels st2 !! 0%nat =
      Some [FileStart metadata; FileChunk "f9" 0 "aGk="; FileComplete "f9"].
Proof.
  destruct (file_goes_out_in_numbered_chunks hi_file None "f9" 3 sender_ready 0
              (mkChannel "aeroshare" true ch_open (Some "b") []))
    as (job & st1 & st2 & metadata & H1 & H2 & _ & _ & H3 & _).
  - reflexivity.
  - reflexivity.
  - reflexivity.
  - exists job, st1, st2, metadata. split_and!; [exact H1 | exact H2 |].
    rewrite H3. reflexivity.
Defined.

(** *** The sender's report *)

Definition read_failed_update : TransferUpdates :=
  mkUpdates None (Some failed) None (Some "Error reading file").

(** The state after the [load] of chunk [i] when more of the file is left. *)
Definition after_chunk (file : File) (fileId : string) (targets : list PeerConnection)
    (i : nat) (st : Client) : Client :=
  updateTransfer fileId
    (progress_update (percent_round (Z.of_nat (S i * CHUNK_SIZE)) (file_size file)))
    (send_to_targets targets (chunk_message file fileId i) st).

Section ReadLoopFacts.

Variables (file : File) (fileId : string) (targets : list PeerConnection).

Let J (i : nat) : SendJob := mkJob file fileId targets (i * CHUNK_SIZE) (Z.of_nat i).
Let n : nat := length (file_bytes file).

Lemma read_loop_app (os1 os2 : list ReadOutcome) : forall job st,
  read_loop (os1 ++ os2) job st =
  match read_loop os1 job st with
  | (st', Some job') => read_loop os2 job' st'
  | (st', None) => (st', None)
  end.
Proof.
  induction os1 as [| [|] os1 IH]; intros job st; cbn [app read_loop]; [done | | done].
  destruct (onload job st) as [st' [job' |]]; [apply IH | done].
Qed.

Lemma pump_add (a b : nat) job st :
  pump (a + b) job st =
  match pump a job st with
  | (st', Some job') => pump b job' st'
  | (st', None) => (st', None)
  end.
Proof. unfold pump. rewrite repeat_app. apply read_loop_app. Qed.

(** Reads that are not needed are not made. *)
Lemma pump_more (a b : nat) job st :
  snd (pump a job st) = None -> pump (a + b) job st = pump a job st.
Proof.
  intros H. rewrite pump_add. destruct (pump a job st) as [st' [job' |]]; [done | done].
Qed.

Lemma chunk_length (i : nat) :
  length (firstn CHUNK_SIZE (skipn (i * CHUNK_SIZE) (file_bytes file))) =
  Nat.min CHUNK_SIZE (n - i * CHUNK_SIZE).
Proof. by rewrite length_take, length_drop. Qed.

(** A [load] that leaves part of the file unread schedules the next read. *)
Lemma onload_pending (i : nat) st :
  (S i < chunk_count n)%nat ->
  onload (J i) st = (after_chunk file fileId targets i st, Some (J (S i))).
Proof.
  intros Hi. pose proof CHUNK_SIZE_pos as Hpos.
  pose proof (chunk_count_spec n) as Hk.
  unfold onload, J. cbn [job_file job_fileId job_targets job_offset job_chunkIndex]. cbv zeta.
  rewrite chunk_length. unfold file_size. fold n.
  assert (Hlen : Nat.min CHUNK_SIZE (n - i * CHUNK_SIZE) = CHUNK_SIZE) by nia.
  rewrite Hlen.
  assert (Hlt : (Z.of_nat (i * CHUNK_SIZE + CHUNK_SIZE) <? Z.of_nat n)%Z = true)
    by (apply Z.ltb_lt; nia).
  rewrite Hlt. unfold after_chunk, chunk_message, progress_update, file_size. fold n.
  replace (i * CHUNK_SIZE + CHUNK_SIZE)%nat with (S i * CHUNK_SIZE)%nat by lia.
  replace (Z.of_nat i + 1)%Z with (Z.of_nat (S i)) by lia.
  reflexivity.
Qed.

(** The [load] of the last chunk ends the loop. *)
Lemma onload_last (i : nat) st :
  S i = chunk_count n -> snd (onload (J i) st) = None.
Proof.
  intros Hi. pose proof CHUNK_SIZE_pos as Hpos.
  pose proof (chunk_count_spec n) as Hk.
  unfold onload, J. cbn [job_file job_fileId job_targets job_offset job_chunkIndex]. cbv zeta.
  rewrite chunk_length. unfold file_size. fold n.
  assert (Hge : (Z.of_nat (i * CHUNK_SIZE + Nat.min CHUNK_SIZE (n - i * CHUNK_SIZE))
                 <? Z.of_nat n)%Z = false) by (apply Z.ltb_ge; nia).
  by rewrite Hge.
Qed.

Lemma pump_pending (k : nat) : forall i st,
  (i + k < chunk_count n)%nat ->
  snd (pump k (J i) st) = Some (J (i + k)) /\
  transfers (fst (pump k (J i) st)) =
    (if (k =? 0)%nat then transfers st
     else update_where fileId
            (progress_update (percent_round (Z.of_nat ((i + k) * CHUNK_SIZE)) (file_size file)))
            (transfers st)).
Proof.
  induction k as [| k IH]; intros i st Hi.
  - rewrite pump_0, Nat.add_0_r. done.
  - rewrite pump_S, onload_pending by lia.
    destruct (IH (S i) (after_chunk file fileId targets i st)) as [H1 H2]; [lia |].
    replace (i + S k)%nat with (S i + k)%nat by lia.
    split; [exact H1 |]. rewrite H2. cbn [Nat.eqb].
    assert (Ht : transfers (after_chunk file fileId targets i st) =
                 update_where fileId
                   (progress_update (percent_round (Z.of_nat (S i * CHUNK_SIZE)) (file_size file)))
                   (transfers st)).
    { unfold after_chunk. cbn [transfers updateTransfer set_transfers].
      by rewrite transfers_send_to_targets. }
    rewrite Ht. destruct k as [| k]; cbn [Nat.eqb].
    + by rewrite Nat.add_0_r.
    + apply (update_where_after_progress fileId (progress_update _)). by eexists.
Qed.

Lemma job_trace_pending (k : nat) : forall i,
  (i + k < chunk_count n)%nat ->
  job_trace k (J i) = map (chunk_message file fileId) (seq i k).
Proof.
  pose proof CHUNK_SIZE_pos as Hpos. pose proof (chunk_count_spec n) as Hk.
  induction k as [| k IH]; intros i Hi; [done |].
  unfold J. cbn [job_trace job_file job_fileId job_targets job_offset job_chunkIndex].
  cbv zeta. rewrite chunk_length. unfold file_size. fold n.
  assert (Hlen : Nat.min CHUNK_SIZE (n - i * CHUNK_SIZE) = CHUNK_SIZE) by nia.
  rewrite Hlen.
  assert (Hlt : (Z.of_nat (i * CHUNK_SIZE + CHUNK_SIZE) <? Z.of_nat n)%Z = true)
    by (apply Z.ltb_lt; nia).
  rewrite Hlt. cbn [seq map]. f_equal.
  replace (i * CHUNK_SIZE + CHUNK_SIZE)%nat with (S i * CHUNK_SIZE)%nat by lia.
  replace (Z.of_nat i + 1)%Z with (Z.of_nat (S i)) by lia.
  apply (IH (S i)). lia.
Qed.

(** [chunk_count] loads are exactly what the loop needs. *)
Lemma pump_exact st :
  snd (pump (chunk_count n) (J 0) st) = None /\
  pump (S n) (J 0) st = pump (chunk_count n) (J 0) st.
Proof.
  pose proof CHUNK_SIZE_pos as Hpos. pose proof (chunk_count_spec n) as Hk.
  assert (Hcc : (1 <= chunk_count n <= S n)%nat) by nia.
  assert (Hend : snd (pump (chunk_count n) (J 0) st) = None).
  { replace (chunk_count n) with ((chunk_count n - 1) + 1)%nat at 1 by lia.
    rewrite pump_add.
    destruct (pump_pending (chunk_count n - 1) 0 st) as [H1 _]; [lia |].
    destruct (pump (chunk_count n - 1) (J 0) st) as [st' o]. cbn [snd] in H1. subst o.
    rewrite pump_S. cbn [Nat.add].
    pose proof (onload_last (chunk_count n - 1) st' ltac:(lia)) as Hl.
    destruct (onload (J (chunk_count n - 1)) st') as [st'' [job' |]]; [done | done]. }
  split; [exact Hend |].
  replace (S n) with (chunk_count n + (S n - chunk_count n))%nat by lia.
  by apply pump_more.
Qed.

End ReadLoopFacts.

(** X12: the sender's report follows the reads, not the delivery.
    Whenever [sendFile] has at least one target connection, an entry
    [transferring] is added and the read loop starts.  If every read of the
    file ends in [load], the loop ends after [chunk_count] reads and the entry
    ends [completed] with progress 100, whatever was handed to the data
    channels: targets whose channel is missing or not open are skipped
    silently, and when no target has an open channel no channel is written
    to at all.  If read number [k] ends in [error], the loop stops there: the
    entry ends [failed] with error ["Error reading file"] and keeps the
    progress of the [k] chunks read, and an open target channel has been
    handed [file-start] and those [k] chunks, but no [done]. *)
Theorem sender_report_follows_the_reads (file : File)
    (targetPeerId : option string) (fileId : string) (now : Z) (st : Client) :
  targetConnections targetPeerId st <> [] ->
  let n := length (file_bytes file) in
  let entry :=
    mkTransfer fileId (file_name file) (file_size file) (file_type file) (of_Z 0)
      transferring dir_send (default "broadcast" (truthy targetPeerId)) None None
      None None now in
  exists job st1 metadata,
    sendFile file targetPeerId fileId now st = (st1, Some job) /\
    transfers st1 = transfers st ++ [entry] /\
    (let r := read_loop (repeat read_load (chunk_count n)) job st1 in
     snd r = None /\
     transfers (fst r) = update_where fileId completed_update (transfers st ++ [entry]) /\
     (exists t, last (transfers (fst r)) = Some t /\ ft_id t = fileId /\
                ft_status t = completed /\ ft_progress t = of_Z 100) /\
     (none_open (targetConnections targetPeerId st) (channels st) ->
      channels (fst r) = channels st)) /\
    (forall k rest, (k < chunk_count n)%nat ->
       let r := read_loop (repeat read_load k ++ read_error :: rest) job st1 in
       snd r = None /\
       transfers (fst r) =
         update_where fileId read_failed_update
           (if (k =? 0)%nat then transfers st ++ [entry]
            else update_where fileId
                   (progress_update
                      (percent_round (Z.of_nat (k * CHUNK_SIZE)) (file_size file)))
                   (transfers st ++ [entry])) /\
       (exists t, last (transfers (fst r)) = Some t /\ ft_id t = fileId /\
                  ft_status t = failed /\ ft_error t = Some "Error reading file") /\
       (none_open (targetConnections targetPeerId st) (channels st) ->
        channels (fst r) = channels st) /\
       (forall c dc,
          channels st !! c = Some dc -> dc_readyState dc = ch_open ->
          uses c (targetConnections targetPeerId st) = 1%nat ->
          dc_sent <$> channels (fst r) !! c =
            Some (dc_sent dc ++
                  FileStart metadata :: map (chunk_message file fileId) (seq 0 k)))).
Proof.
  intros Hne. cbv zeta.
  set (metadata :=
         mkMetadata fileId (file_name file) (file_size file)
           (default "application/octet-stream" (truthy (Some (file_type file))))
           (default "" (truthy (peerId st))) (Some (username st))).
  set (entry :=
         mkTransfer fileId (file_name file) (file_size file) (file_type file) (of_Z 0)
           transferring dir_send (default "broadcast" (truthy targetPeerId)) None None
           None None now).
  set (targets := targetConnections targetPeerId st) in *.
  set (job := mkJob file fileId targets 0 0).
  set (st1 := send_to_targets targets (FileStart metadata) (addTransfer entry st)).
  assert (Hsend : sendFile file targetPeerId fileId now st = (st1, Some job)).
  { unfold sendFile. cbv zeta. fold targets. by destruct targets. }
  assert (Ht1 : transfers st1 = transfers st ++ [entry]).
  { unfold st1. by rewrite transfers_send_to_targets. }
  assert (Hjob : job = mkJob file fileId targets (0 * CHUNK_SIZE) (Z.of_nat 0)) by done.
  assert (Hlast : forall u ts,
            last (update_where fileId u (ts ++ [entry])) = Some (apply_updates u entry)).
  { intros u ts. unfold update_where. rewrite map_app. cbn [map].
    rewrite last_snoc. cbn [entry ft_id]. by rewrite String.eqb_refl. }
  assert (Hlast' : forall u v ts,
            last (update_where fileId u (update_where fileId v (ts ++ [entry]))) =
            Some (apply_updates u (apply_updates v entry))).
  { intros u v ts. unfold update_where. rewrite !map_app. cbn [map].
    rewrite last_snoc. cbn [entry ft_id apply_updates]. by rewrite !String.eqb_refl. }
  exists job, st1, metadata.
  split; [exact Hsend |]. split; [exact Ht1 |]. split.
  - fold (pump (chunk_count (length (file_bytes file))) job st1).
    destruct (pump_exact file fileId targets st1) as [Hend Heq].
    rewrite <- Hjob in Hend, Heq. rewrite <- Heq.
    assert (Ht2 : transfers (fst (pump (S (length (file_bytes file))) job st1)) =
                  update_where fileId completed_update (transfers st ++ [entry])).
    { rewrite pump_transfers by (cbn [job job_file job_offset]; lia). by rewrite Ht1. }
    split_and!.
    + by rewrite Heq.
    + exact Ht2.
    + rewrite Ht2, Hlast. by eexists.
    + intros Hn. rewrite pump_closed.
      * unfold st1. by rewrite send_to_targets_closed.
      * cbn [job job_targets]. unfold st1. by rewrite send_to_targets_closed.
  - intros k rest Hk.
    rewrite read_loop_app. fold (pump k job st1).
    destruct (pump_pending file fileId targets k 0 st1 Hk) as [Hp1 Hp2].
    rewrite <- Hjob in Hp1, Hp2. cbn [Nat.add] in Hp1, Hp2.
    pose proof (pump_channel) as Hch.
    destruct (pump k job st1) as [stk o] eqn:Ek. cbn [fst snd] in Hp1, Hp2. subst o.
    cbn [read_loop fst snd].
    assert (Hte : transfers (onerror (mkJob file fileId targets (k * CHUNK_SIZE) (Z.of_nat k)) stk) =
                  update_where fileId read_failed_update (transfers stk)) by reflexivity.
    split_and!.
    + done.
    + rewrite Hte, Hp2, Ht1. done.
    + rewrite Hte, Hp2, Ht1. destruct (k =? 0)%nat.
      * rewrite Hlast. by eexists.
      * rewrite Hlast'. by eexists.
    + intros Hn. unfold onerror. cbn [channels updateTransfer set_transfers].
      replace stk with (fst (pump k job st1)) by (by rewrite Ek).
      rewrite pump_closed.
      * unfold st1. by rewrite send_to_targets_closed.
      * cbn [job job_targets]. unfold st1. by rewrite send_to_targets_closed.
    + intros c dc Hdc Ho Hu.
      unfold onerror. cbn [channels updateTransfer set_transfers].
      replace stk with (fst (pump k job st1)) by (by rewrite Ek).
      assert (H1 : channels st1 !! c = Some (pushed [FileStart metadata] dc)).
      { unfold st1.
        pose proof (send_to_targets_channel c (FileStart metadata) targets
                      (addTransfer entry st) dc Hdc Ho) as H.
        by rewrite Hu in H. }
      erewrite Hch; [| exact Hu | exact H1 | done].
      rewrite Hjob, (job_trace_pending file fileId targets k 0 Hk).
      cbn [pushed dc_sent fmap option_fmap option_map]. by rewrite <- app_assoc.
Qed.

(** A file sent before the channel to ["b"] has opened, every read loading:
    reported completed, nothing sent.  The same file when its first read
    fails: reported failed. *)
Lemma sender_report_follows_the_reads_witness :
  exists job st1,
    sendFile hi_file None "f9" 3 just_listed = (st1, Some job) /\
    (let r := read_loop [read_load] job st1 in
     snd r = None /\ ft_status <$> last (transfers (fst r)) = Some completed /\
     channels (fst r) = channels just_listed) /\
    (let r := read_loop [read_error] job st1 in
     snd r = None /\ ft_status <$> last (transfers (fst r)) = Some failed /\
     ft_error <$> last (transfers (fst r)) = Some (Some "Error reading file")).
Proof.
  destruct (sender_report_follows_the_reads hi_file None "f9" 3 just_listed)
    as (job & st1 & metadata & H1 & _ & (Ha & _ & (t & Hl & _ & Hs & _) & Hc) & Hfail).
  - vm_compute. discriminate.
  - exists job, st1. split; [exact H1 |]. split.
    + cbv zeta. split_and!; [exact Ha | |].
      * change (repeat read_load (chunk_count (length (file_bytes hi_file))))
          with [read_load] in Hl.
        rewrite Hl. cbn [fmap option_fmap option_map]. by rewrite Hs.
      * apply Hc. intros pc c ch Hin Hdc _.
        vm_compute in Hin. apply list_elem_of_singleton in Hin. subst pc. discriminate.
    + destruct (Hfail 0%nat []) as (Hb & _ & (t' & Hl' & _ & Hs' & He') & _).
      * vm_compute. lia.
      * cbv zeta. cbn [repeat app] in Hb, Hl'. split_and!; [exact Hb | |].
        -- rewrite Hl'. cbn [fmap option_fmap option_map]. by rewrite Hs'.
        -- rewrite Hl'. cbn [fmap option_fmap option_map]. by rewrite He'.
Defined.

(** *** The list of peers *)

(** The part of the store the negotiation and transfer handlers never write. *)
Definition roster (st : Client) : option string * string * option string * list PeerInfo :=
  (peerId st, username st, roomId st, peers st).

Section RosterFacts.

Variable createOffer : nat -> JSON.

Implicit Types (st : Client).

Lemma roster_resume target pc st :
  roster (initiateConnection_resume createOffer target pc st) = roster st /\
  peerConnections (initiateConnection_resume createOffer target pc st) = peerConnections st /\
  channels (initiateConnection_resume createOffer target pc st) = channels st /\
  length (links (initiateConnection_resume createOffer target pc st)) = length (links st).
Proof.
  unfold initiateConnection_resume, sendOffer. cbv zeta.
  cbn [ws_open roomId peerId set_links].
  destruct (ws_open st), (truthy (roomId st)), (truthy (peerId st));
    cbn [roster peerId username roomId peers peerConnections channels links set_ws_sent set_links];
    by rewrite length_alter.
Qed.

Lemma roster_resume_all (pending : list (string * nat)) : forall st,
  let st' := fold_left (fun st0 '(target, pc) => initiateConnection_resume createOffer target pc st0)
                       pending st in
  roster st' = roster st /\ peerConnections st' = peerConnections st /\
  channels st' = channels st /\ length (links st') = length (links st).
Proof.
  induction pending as [| [target pc] pending IH]; intros st; [done |].
  cbn [fold_left]. cbv zeta in *.
  destruct (IH (initiateConnection_resume createOffer target pc st)) as (H1 & H2 & H3 & H4).
  destruct (roster_resume target pc st) as (R1 & R2 & R3 & R4).
  rewrite H1, H2, H3, H4. done.
Qed.

(** The store and the channels after a peer list, whatever the state of the
    signaling socket. *)
Lemma handlePeerList_frame (l : list PeerInfo) st :
  let st' := handlePeerList createOffer l st in
  roster st' = roster st /\
  peerConnections st' = register_all l (length (links st)) (peerConnections st) /\
  channels st' = channels st ++ map fresh_channel l /\
  length (links st') = (length (links st) + length l)%nat.
Proof.
  cbv zeta. unfold handlePeerList. rewrite begin_all. cbn [app].
  set (st1 := mkClient _ _ _ _ _ _ _ _ _ _ _ _).
  destruct (roster_resume_all (zip (map pi_id l) (seq (length (links st)) (length l))) st1)
    as (H1 & H2 & H3 & H4).
  cbv zeta in *. rewrite H1, H2, H3, H4. unfold st1. cbn [roster peerId username roomId peers
    peerConnections channels links].
  split_and!; try done. by rewrite length_app, length_map, length_seq.
Qed.

Lemma roster_removePeerConnection id st :
  roster (removePeerConnection id st) = roster st.
Proof.
  unfold removePeerConnection.
  destruct (assoc_get id (peerConnections st)) as [pc |]; [| done].
  by destruct (pc_dataChannel pc).
Qed.

Lemma roster_handlePeerLeft leftPeerId st :
  roster (handlePeerLeft leftPeerId st) = roster st.
Proof.
  unfold handlePeerLeft.
  set (st1 := removePeerConnection leftPeerId st).
  assert (H : forall (snapshot : list FileTransfer) st0,
             roster (fold_left
               (fun st0 t =>
                  match String.eqb (ft_peerId t) leftPeerId, ft_status t with
                  | true, transferring =>
                      updateTransfer (ft_id t)
                        (mkUpdates None (Some failed) None (Some "Peer disconnected")) st0
                  | _, _ => st0
                  end) snapshot st0) = roster st0).
  { induction snapshot as [| t snapshot IH]; intros st0; [done |].
    cbn [fold_left]. rewrite IH.
    destruct (String.eqb (ft_peerId t) leftPeerId); [| done]. by destruct (ft_status t). }
  rewrite H. apply roster_removePeerConnection.
Qed.

End RosterFacts.

(** Nobody is listed twice, and the client does not list itself. *)
Definition peers_tidy (st : Client) : Prop :=
  NoDup (map pi_id (peers st)) /\
  forall p, p ∈ peers st -> Some (pi_id p) <> peerId st.

Section TidyFacts.

Lemma NoDup_map_filter {A B} (f : A -> B) (P : A -> bool) (l : list A) :
  NoDup (map f l) -> NoDup (map f (filter P l)).
Proof.
  induction l as [| a l IH]; [done |]. cbn [map]. intros Hnd.
  apply NoDup_cons in Hnd as [Ha Hnd]. rewrite filter_cons.
  destruct (P a); simpl; [| by apply IH].
  apply NoDup_cons. split; [| by apply IH].
  intros Hin. apply Ha. apply list_elem_of_fmap in Hin as (x & -> & Hx).
  apply list_elem_of_filter in Hx as [_ Hx]. apply list_elem_of_fmap. eauto.
Qed.

Lemma addPeer_peers peer st :
  peers (addPeer peer st) =
  filter (fun p => negb (String.eqb (pi_id p) (pi_id peer))) (peers st) ++ [peer].
Proof. reflexivity. Qed.

Lemma filter_other_id (id : string) (l : list PeerInfo) q :
  q ∈ filter (fun p => negb (String.eqb (pi_id p) id)) l <-> q ∈ l /\ pi_id q <> id.
Proof.
  rewrite list_elem_of_filter. destruct (String.eqb_spec (pi_id q) id); simpl; tauto.
Qed.

End TidyFacts.

(** X18: the list of peers.  Handling a server message leaves the client's
    own [peerId] alone and keeps the list of peers free of duplicate ids and
    of the client's own id (for a [peer-list], provided the list the server
    sent names nobody twice).  A [peer-list] replaces the list by the entries
    whose id is not the client's own, in the order sent; a [peer-joined] for
    another id puts that peer last, replacing any entry of the same id, and
    one for the client's own id is ignored; a [peer-left] removes every entry
    of that id. *)
Theorem peers_stay_tidy (createOffer : nat -> JSON) (message : ServerMessage) (st : Client) :
  peers_tidy st ->
  (forall payload, message = MPeerList payload -> NoDup (map pi_id payload)) ->
  let st' := handleMessage createOffer message st in
  peerId st' = peerId st /\
  peers_tidy st' /\
  (forall payload, message = MPeerList payload ->
     peers st' = filter (fun p => negb (bool_decide (Some (pi_id p) = peerId st))) payload) /\
  (forall p, message = MPeerJoined p ->
     if bool_decide (Some (pi_id p) = peerId st) then st' = st
     else peers st' =
          filter (fun q => negb (String.eqb (pi_id q) (pi_id p))) (peers st) ++ [p]) /\
  (forall id, message = MPeerLeft id ->
     forall q, q ∈ peers st' <-> q ∈ peers st /\ pi_id q <> id).
Proof.
  intros [Hnd Hown] Hpayload. cbv zeta.
  destruct message as [payload | p | id | e]; cbn [handleMessage].
  - destruct (handlePeerList_frame createOffer
                (filter (fun p => negb (bool_decide (Some (pi_id p) = peerId st))) payload)
                (setPeers (filter (fun p => negb (bool_decide (Some (pi_id p) = peerId st))) payload)
                   st)) as (Hr & _).
    cbv zeta in Hr. injection Hr as Hid _ _ Hp.
    cbn [peerId peers setPeers set_peers] in Hid, Hp.
    split_and!; try done.
    + split.
      * rewrite Hp. apply NoDup_map_filter. by apply Hpayload.
      * intros q Hq. rewrite Hp in Hq. apply list_elem_of_filter in Hq as [Hq _].
        rewrite Hid. apply negb_prop_elim in Hq.
        intros H. apply Hq. by apply bool_decide_pack.
    + by intros payload' [= <-].
  - unfold handlePeerJoined.
    destruct (bool_decide (Some (pi_id p) = peerId st)) eqn:Eb; cbn [negb].
    + split_and!; try done. intros p' [= <-]. by rewrite Eb.
    + apply bool_decide_eq_false in Eb.
      split_and!; try done.
      * split.
        -- rewrite addPeer_peers, map_app. cbn [map]. apply NoDup_app. split_and!.
           ++ by apply NoDup_map_filter.
           ++ intros x Hx Hx'. apply list_elem_of_singleton in Hx' as ->.
              apply list_elem_of_fmap in Hx as (q & Hq & Hin).
              apply filter_other_id in Hin as [_ Hne]. congruence.
           ++ apply NoDup_singleton.
        -- intros q Hq. rewrite addPeer_peers in Hq. cbn [peerId addPeer set_peers].
           apply elem_of_app in Hq as [Hq | Hq].
           ++ apply filter_other_id in Hq as [Hq _]. by apply Hown.
           ++ apply list_elem_of_singleton in Hq as ->. done.
      * intros p' [= <-]. rewrite bool_decide_eq_false_2 by done. apply addPeer_peers.
  - pose proof (roster_handlePeerLeft id (removePeer id st)) as Hr.
    injection Hr as Hid _ _ Hp. cbn [peerId peers removePeer set_peers] in Hid, Hp.
    split_and!; try done.
    + split.
      * rewrite Hp. by apply NoDup_map_filter.
      * intros q Hq. rewrite Hp in Hq. apply filter_other_id in Hq as [Hq _].
        rewrite Hid. by apply Hown.
    + intros id' [= <-] q. rewrite Hp. apply filter_other_id.
  - split_and!; done.
Qed.

(** A [peer-joined] for ["b"] on a client that lists nobody: ["b"] is listed once. *)
Lemma peers_stay_tidy_witness :
  peers (handleMessage (fun _ => JStr "sdp") (MPeerJoined (mkPeerInfo "b" (Some (JStr "bob")) 5))
           idle_client) = [mkPeerInfo "b" (Some (JStr "bob")) 5] /\
  peers_tidy (handleMessage (fun _ => JStr "sdp") (MPeerJoined (mkPeerInfo "b" (Some (JStr "bob")) 5))
                idle_client).
Proof.
  split; [reflexivity |].
  apply (peers_stay_tidy (fun _ => JStr "sdp") (MPeerJoined (mkPeerInfo "b" (Some (JStr "bob")) 5))
           idle_client).
  - split; [constructor | intros p Hp; by apply elem_of_nil in Hp].
  - intros payload H. discriminate H.
Defined.

(** *** The data channel opens *)

Section ChannelFacts.

Lemma NoDup_ids_eq (l : list PeerInfo) (p q : PeerInfo) :
  NoDup (map pi_id l) -> p ∈ l -> q ∈ l -> pi_id p = pi_id q -> p = q.
Proof.
  induction l as [| a l IH]; intros Hnd Hp Hq Hid; [by apply elem_of_nil in Hp |].
  cbn [map] in Hnd. apply NoDup_cons in Hnd as [Ha Hnd].
  apply elem_of_cons in Hp as [-> | Hp]; apply elem_of_cons in Hq as [-> | Hq]; try done.
  - exfalso. apply Ha. rewrite Hid. apply list_elem_of_fmap. eauto.
  - exfalso. apply Ha. rewrite <- Hid. apply list_elem_of_fmap. eauto.
  - by apply IH.
Qed.

End ChannelFacts.

(** X19: from the peer list to a usable channel.  After a peer list that
    names nobody twice has been handled, each listed peer has a store entry
    without data channel, not connected, and a data channel set up for it that
    is still connecting: until that channel opens, messages and files for the
    peer are skipped.  Once the channel's [onopen] has run, the entry holds the
    channel and is connected, the channel is open, and a chat message for that
    peer is handed to exactly that channel. *)
Theorem channel_usable_once_open (createOffer : nat -> JSON) (peerList : list PeerInfo)
    (p : PeerInfo) (st : Client) :
  NoDup (map pi_id peerList) ->
  p ∈ peerList ->
  pi_id p <> "" ->
  let st1 := handlePeerList createOffer peerList st in
  exists pc c,
    (length (links st) <= pc)%nat /\ (length (channels st) <= c)%nat /\
    assoc_get (pi_id p) (peerConnections st1) =
      Some (mkPeerConnection (pi_id p) (pi_username p) pc None false) /\
    channels st1 !! c = Some (mkChannel "aeroshare" true ch_connecting (Some (pi_id p)) []) /\
    (forall content id now,
       channels (sendChatMessage content (Some (pi_id p)) id now st1) = channels st1) /\
    let st2 := channel_onopen c st1 in
    assoc_get (pi_id p) (peerConnections st2) =
      Some (mkPeerConnection (pi_id p) (pi_username p) pc (Some c) true) /\
    channel_is_open st2 c = true /\
    (forall content id now,
       dc_sent <$> channels (sendChatMessage content (Some (pi_id p)) id now st2) !! c =
       Some [Chat (mkChat id (default "" (truthy (peerId st))) (username st) content now)]).
Proof.
  intros Hnd Hin Hne. cbv zeta.
  destruct (handlePeerList_frame createOffer peerList st) as (Hr & Hpc & Hch & Hlk).
  cbv zeta in *.
  set (st1 := handlePeerList createOffer peerList st) in *.
  destruct (register_all_lookup createOffer peerList (length (links st)) (peerConnections st)
              p Hin) as (j & p' & Hj & Hid & Hget).
  assert (Hp' : p' = p).
  { apply (NoDup_ids_eq peerList); [done | by eapply list_elem_of_lookup_2 | done | done]. }
  subst p'.
  assert (Hjlt : (j < length peerList)%nat) by (by eapply lookup_lt_Some).
  assert (Hc1 : channels st1 !! (length (channels st) + j)%nat = Some (fresh_channel p)).
  { rewrite Hch, lookup_app_r by lia.
    replace (length (channels st) + j - length (channels st))%nat with j by lia.
    by rewrite list_lookup_fmap, Hj. }
  assert (Ht : truthy (Some (pi_id p)) = Some (pi_id p)).
  { simpl. by destruct (String.eqb_spec (pi_id p) ""). }
  assert (Hg1 : assoc_get (pi_id p) (peerConnections st1) =
                Some (mkPeerConnection (pi_id p) (pi_username p) (length (links st) + j) None false)).
  { rewrite Hpc. exact Hget. }
  exists (length (links st) + j)%nat, (length (channels st) + j)%nat.
  split_and!; try lia; try done.
  - intros content id now.
    apply sendChatMessage_closed. intros pc c ch Hpcin Hdc _.
    unfold targetConnections in Hpcin. rewrite Ht, Hg1 in Hpcin.
    apply list_elem_of_singleton in Hpcin. subst pc. discriminate.
  - unfold channel_onopen. cbv zeta. rewrite Hc1. cbn [mbind option_bind fresh_channel dc_peer].
    unfold updatePeerConnection. cbn [peerConnections set_channels]. rewrite Hg1.
    cbn [peerConnections set_peerConnections]. by rewrite assoc_get_amap_set_eq.
  - unfold channel_onopen. cbv zeta. rewrite Hc1. cbn [mbind option_bind fresh_channel dc_peer].
    unfold updatePeerConnection. cbn [peerConnections set_channels]. rewrite Hg1.
    unfold channel_is_open. cbn [channels set_peerConnections set_channels].
    rewrite list_lookup_alter_eq, Hc1. reflexivity.
  - intros content id now.
    set (st2 := channel_onopen (length (channels st) + j) st1).
    assert (Hst2 : st2 = set_peerConnections
                     (amap_set (pi_id p)
                        (mkPeerConnection (pi_id p) (pi_username p) (length (links st) + j)
                           (Some (length (channels st) + j)%nat) true))
                     (set_channels (alter (dc_set_readyState ch_open) (length (channels st) + j)%nat)
                        st1)).
    { unfold st2, channel_onopen. cbv zeta. rewrite Hc1.
      cbn [mbind option_bind fresh_channel dc_peer].
      unfold updatePeerConnection. cbn [peerConnections set_channels]. by rewrite Hg1. }
    assert (Hc2 : channels st2 !! (length (channels st) + j)%nat =
                  Some (mkChannel "aeroshare" true ch_open (Some (pi_id p)) [])).
    { rewrite Hst2. cbn [channels set_peerConnections set_channels].
      by rewrite list_lookup_alter_eq, Hc1. }
    assert (Hr2 : peerId st2 = peerId st /\ username st2 = username st).
    { rewrite Hst2. cbn [peerId username set_peerConnections set_channels].
      injection Hr as -> -> _ _. done. }
    destruct Hr2 as [Hpi Hun].
    rewrite sendChatMessage_eq. cbv zeta. cbn [channels addMessage set_messages].
    rewrite (send_to_targets_channel _ _ _ st2 _ Hc2 eq_refl).
    assert (Hu : uses (length (channels st) + j) (targetConnections (Some (pi_id p)) st2) = 1%nat).
    { unfold targetConnections. rewrite Ht, Hst2.
      cbn [peerConnections set_peerConnections set_channels].
      rewrite assoc_get_amap_set_eq. unfold uses. rewrite filter_cons.
      cbn [pc_dataChannel]. by rewrite bool_decide_eq_true_2. }
    rewrite Hu, Hpi, Hun. reflexivity.
Qed.

(** The channel to ["b"] opens: a chat message for ["b"] is handed to it. *)
Lemma channel_usable_once_open_witness :
  dc_sent <$> channels (sendChatMessage "hello" (Some "b") "m1" 7
                          (channel_onopen 0 just_listed)) !! 0%nat =
  Some [Chat (mkChat "m1" "me" "alice" "hello" 7)].
Proof.
  destruct (channel_usable_once_open (fun _ => JStr "sdp") [mkPeerInfo "b" (Some (JStr "bob")) 5]
              (mkPeerInfo "b" (Some (JStr "bob")) 5) idle_client)
    as (pc & c & _ & _ & _ & Hc & _ & _ & _ & H).
  - apply NoDup_singleton.
  - apply list_elem_of_here.
  - discriminate.
  - assert (Hlt : (c < 1)%nat) by (apply lookup_lt_Some in Hc; exact Hc).
    assert (c = 0%nat) as -> by lia.
    exact (H "hello" "m1" 7%Z).
Defined.

(** *** Leaving the room *)

Definition set_peerId (o : option string) (st : Client) : Client :=
  mkClient o (username st) (roomId st) (peers st) (peerConnections st)
    (messages st) (transfers st) (fileBuffers st) (links st) (channels st)
    (ws_open st) (ws_sent st).

Definition set_ws_open (b : bool) (st : Client) : Client :=
  mkClient (peerId st) (username st) (roomId st) (peers st) (peerConnections st)
    (messages st) (transfers st) (fileBuffers st) (links st) (channels st)
    b (ws_sent st).

(** [pc.dataChannel?.close(); pc.connection.close()] *)
Definition close_connection (st : Client) (pc : PeerConnection) : Client :=
  let st0 := match pc_dataChannel pc with
             | Some c => set_channels (alter dc_close c) st
             | None => st
             end in
  set_links (alter rtc_close (pc_connection pc)) st0.

(** [reset] of the store: every connection of the store is closed and the
    store goes back to [initialState]; what the hooks keep in refs and the
    browser objects are not the store's. *)
Definition reset (st : Client) : Client :=
  let st1 := fold_left close_connection (map snd (peerConnections st)) st in
  mkClient None "" None [] [] [] [] (fileBuffers st1) (links st1) (channels st1)
    (ws_open st1) (ws_sent st1).

Module useSignaling.

(** [joinRoom]; [newPeerId] is the id the random generator yields. *)
Definition joinRoom (targetRoomId name newPeerId : string) (st : Client) : Client :=
  if ws_open st then
    set_ws_sent
      (fun l => l ++ [Backend.mkMsg Backend.join targetRoomId newPeerId None
                        (Some (JObj [("username", JStr name)]))])
      (set_peerId (Some newPeerId) st)
  else st.

Definition leaveRoom (st : Client) : Client :=
  match ws_open st, truthy (roomId st), truthy (peerId st) with
  | true, Some room, Some me =>
      set_ws_sent (fun l => l ++ [Backend.mkMsg Backend.leave room me None None]) st
  | _, _, _ => st
  end.

(** [disconnect]: [leaveRoom()], then the socket is closed and dropped. *)
Definition disconnect (st : Client) : Client :=
  set_ws_open false (leaveRoom st).

End useSignaling.

Module useRoom.

(** [leaveRoom]: [signalingLeave(); disconnect(); reset()]. *)
Definition leaveRoom (st : Client) : Client :=
  reset (useSignaling.disconnect (useSignaling.leaveRoom st)).

End useRoom.

Section LeaveFacts.

Implicit Types (st : Client).

Lemma close_connection_frame st pc :
  let st' := close_connection st pc in
  fileBuffers st' = fileBuffers st /\ ws_open st' = ws_open st /\ ws_sent st' = ws_sent st /\
  (forall i, link_closed st i -> link_closed st' i) /\
  (forall c, channel_closing st c -> channel_closing st' c) /\
  link_closed st' (pc_connection pc) /\
  (forall c, pc_dataChannel pc = Some c -> channel_closing st' c) /\
  (forall c, dc_sent <$> channels st' !! c = dc_sent <$> channels st !! c).
Proof.
  cbv zeta. unfold close_connection.
  set (st0 := match pc_dataChannel pc with
              | Some c => set_channels (alter dc_close c) st
              | None => st
              end).
  assert (Hl0 : links st0 = links st) by (unfold st0; by destruct (pc_dataChannel pc)).
  assert (H0 : fileBuffers st0 = fileBuffers st /\ ws_open st0 = ws_open st /\
               ws_sent st0 = ws_sent st)
    by (unfold st0; by destruct (pc_dataChannel pc)).
  destruct H0 as (Hf & Ho & Hs).
  assert (Hcl : forall c ch, channels st0 !! c = Some ch ->
                  (exists ch0, channels st !! c = Some ch0 /\
                     (ch = ch0 \/ ch = dc_close ch0)) /\
                  (pc_dataChannel pc = Some c -> exists ch0, ch = dc_close ch0)).
  { intros c ch. unfold st0. destruct (pc_dataChannel pc) as [c' |].
    - cbn [channels set_channels]. rewrite list_lookup_alter.
      destruct (decide (c' = c)) as [-> |].
      + destruct (channels st !! c) as [ch0 |]; simpl; [| done].
        intros [= <-]. split; [eauto | eauto].
      + intros H. split; [eauto | congruence].
    - intros H. split; [eauto | done]. }
  assert (Hdc : forall ch0, dc_readyState (dc_close ch0) = ch_closing \/
                            dc_readyState (dc_close ch0) = ch_closed).
  { intros ch0. unfold dc_close. simpl. destruct (dc_readyState ch0); auto. }
  unfold link_closed, channel_closing.
  cbn [fileBuffers ws_open ws_sent links channels set_links].
  split_and!; try done.
  - intros i Hi k. rewrite Hl0, list_lookup_alter.
    destruct (decide (pc_connection pc = i)) as [-> |]; [| apply Hi].
    destruct (links st !! i); simpl; [| done]. by intros [= <-].
  - intros c Hc ch Hch. destruct (Hcl c ch Hch) as [(ch0 & Hch0 & [-> | ->]) _].
    + by apply Hc.
    + apply Hdc.
  - intros k. rewrite Hl0, list_lookup_alter_eq.
    destruct (links st !! pc_connection pc); simpl; [| done]. by intros [= <-].
  - intros c Hc ch Hch. destruct (Hcl c ch Hch) as [_ H]. destruct (H Hc) as [ch0 ->].
    apply Hdc.
  - intros c. unfold st0. destruct (pc_dataChannel pc) as [c' |]; [| done].
    cbn [channels set_channels]. rewrite list_lookup_alter.
    destruct (decide (c' = c)) as [-> |]; [| done]. by destruct (channels st !! c).
Qed.

Lemma close_all_frame (pcs : list PeerConnection) : forall st,
  let st' := fold_left close_connection pcs st in
  fileBuffers st' = fileBuffers st /\ ws_open st' = ws_open st /\ ws_sent st' = ws_sent st /\
  (forall i, link_closed st i -> link_closed st' i) /\
  (forall c, channel_closing st c -> channel_closing st' c) /\
  (forall pc, pc ∈ pcs -> link_closed st' (pc_connection pc)) /\
  (forall pc c, pc ∈ pcs -> pc_dataChannel pc = Some c -> channel_closing st' c) /\
  (forall c, dc_sent <$> channels st' !! c = dc_sent <$> channels st !! c).
Proof.
  induction pcs as [| pc pcs IH]; intros st.
  - cbv zeta. cbn [fold_left]. split_and!; try done.
    + intros pc H. by apply elem_of_nil in H.
    + intros pc c H. by apply elem_of_nil in H.
  - cbn [fold_left]. cbv zeta in *.
    destruct (close_connection_frame st pc) as (F1 & F2 & F3 & F4 & F5 & F6 & F7 & F8).
    destruct (IH (close_connection st pc)) as (H1 & H2 & H3 & H4 & H5 & H6 & H7 & H8).
    cbv zeta in *. split_and!.
    + congruence.
    + congruence.
    + congruence.
    + auto.
    + auto.
    + intros pc' Hin. apply elem_of_cons in Hin as [-> | Hin]; auto.
    + intros pc' c Hin Hc. apply elem_of_cons in Hin as [-> | Hin]; eauto.
    + intros c. by rewrite H8, F8.
Qed.

End LeaveFacts.

(** The frames [useRoom]'s [leaveRoom] writes to the signaling socket. *)
Definition leave_frames (st : Client) : list Backend.SignalingMessage :=
  match ws_open st, truthy (roomId st), truthy (peerId st) with
  | true, Some room, Some me =>
      [Backend.mkMsg Backend.leave room me None None;
       Backend.mkMsg Backend.leave room me None None]
  | _, _, _ => []
  end.

Lemma disconnect_leaveRoom_frame (st : Client) :
  let st2 := useSignaling.disconnect (useSignaling.leaveRoom st) in
  ws_sent st2 = ws_sent st ++ leave_frames st /\
  ws_open st2 = false /\ fileBuffers st2 = fileBuffers st /\
  peerConnections st2 = peerConnections st.
Proof.
  cbv zeta. unfold useSignaling.disconnect, useSignaling.leaveRoom, leave_frames.
  destruct (ws_open st) eqn:Eo, (truthy (roomId st)) as [room |] eqn:Er,
           (truthy (peerId st)) as [me |] eqn:Ep;
    cbn [ws_open roomId peerId set_ws_sent set_ws_open ws_sent fileBuffers peerConnections];
    rewrite ?Eo, ?Er, ?Ep;
    cbn [ws_open roomId peerId set_ws_sent set_ws_open ws_sent fileBuffers peerConnections];
    rewrite ?app_nil_r, <- ?app_assoc; done.
Qed.

Lemma useRoom_leaveRoom_sent (st : Client) :
  ws_sent (useRoom.leaveRoom st) = ws_sent st ++ leave_frames st.
Proof.
  unfold useRoom.leaveRoom, reset. cbn [ws_sent].
  destruct (close_all_frame
              (map snd (peerConnections (useSignaling.disconnect (useSignaling.leaveRoom st))))
              (useSignaling.disconnect (useSignaling.leaveRoom st)))
    as (_ & _ & H3 & _).
  cbv zeta in H3. rewrite H3.
  by destruct (disconnect_leaveRoom_frame st) as (-> & _).
Qed.

(** X20: leaving the room.  [useRoom]'s [leaveRoom] on a client whose
    signaling socket is OPEN with [roomId] and [peerId] set hands the socket
    the [leave] message twice (once from [signalingLeave], once from the
    [leaveRoom] inside [disconnect]), then closes it; otherwise it sends
    nothing.  Either way the store is back to its initial state, every peer
    connection the store held and its data channel are closed, and the receive
    buffers of unfinished transfers are kept. *)
Theorem leaving_sends_leave_twice_and_resets (st : Client) :
  let st' := useRoom.leaveRoom st in
  ws_sent st' =
    ws_sent st ++
    match ws_open st, truthy (roomId st), truthy (peerId st) with
    | true, Some room, Some me =>
        [Backend.mkMsg Backend.leave room me None None;
         Backend.mkMsg Backend.leave room me None None]
    | _, _, _ => []
    end /\
  ws_open st' = false /\
  (peerId st', username st', roomId st', peers st') = (None, "", None, []) /\
  peerConnections st' = [] /\ messages st' = [] /\ transfers st' = [] /\
  fileBuffers st' = fileBuffers st /\
  (forall id pc, (id, pc) ∈ peerConnections st ->
     link_closed st' (pc_connection pc) /\
     forall c, pc_dataChannel pc = Some c -> channel_closing st' c).
Proof.
  cbv zeta. split; [apply useRoom_leaveRoom_sent |].
  unfold useRoom.leaveRoom, reset.
  set (st2 := useSignaling.disconnect (useSignaling.leaveRoom st)).
  destruct (close_all_frame (map snd (peerConnections st2)) st2)
    as (H1 & H2 & H3 & _ & _ & H6 & H7 & _).
  destruct (disconnect_leaveRoom_frame st) as (S1 & S2 & S3 & S4).
  cbv zeta in *. fold st2 in S1, S2, S3, S4.
  cbn [ws_sent ws_open peerId username roomId peers peerConnections messages transfers
       fileBuffers].
  split_and!; try done; try congruence.
  intros id pc Hin. rewrite <- S4 in Hin.
  assert (Hpc : pc ∈ map snd (peerConnections st2)).
  { apply list_elem_of_fmap. by exists (id, pc). }
  split.
  - intros k. cbn [links]. by apply H6.
  - intros c Hc ch. cbn [channels]. by eapply H7.
Qed.

(** *** A failure that does not last *)

(** The client connected to ["p"] and ["q"], sending the two bytes of
    ["hi"] to ["p"]: [file-start] is out, the first read is pending. *)
Definition sending_to_p : Client :=
  fst (sendFile hi_file (Some "p") "f9" 3 connected_to_p_q).

(** X25: a failure that does not last.  A transfer that the departure of its
    peer has marked [failed] does not stay so.  On the sending side the read
    loop goes on after the peer has left (its closed channel is skipped): if
    the reads that are left all end in [load], the loop ends by setting the
    transfer [completed] at 100.  On the receiving side a [done] for the
    transfer that arrives after the [peer-left] does the same and attaches the
    blob of what was received, its type being the announced one as
    [new Blob] normalizes it.  In both cases the entry keeps the error
    ["Peer disconnected"] next to the status [completed]. *)
Theorem departure_failure_is_overwritten (leftPeerId : string) (i : nat)
    (t : FileTransfer) (st : Client) :
  transfers st !! i = Some t ->
  ft_peerId t = leftPeerId ->
  ft_status t = transferring ->
  let st1 := handlePeerLeft leftPeerId st in
  (forall job,
     job_fileId job = ft_id t ->
     (job_offset job <= length (file_bytes (job_file job)))%nat ->
     let r := read_loop (repeat read_load (S (length (file_bytes (job_file job))))) job st1 in
     snd r = None /\
     exists t2, transfers (fst r) !! i = Some t2 /\
       ft_status t2 = completed /\ ft_progress t2 = of_Z 100 /\
       ft_error t2 = Some "Peer disconnected") /\
  (forall sender now buffer,
     fileBuffers st !! ft_id t = Some buffer ->
     let st2 := handleDataChannelMessage sender (FileComplete (ft_id t)) now st1 in
     exists t2, transfers st2 !! i = Some t2 /\
       ft_status t2 = completed /\ ft_progress t2 = of_Z 100 /\
       ft_error t2 = Some "Peer disconnected" /\
       ft_blob t2 = Some (mkBlob (concat (fb_chunks buffer))
                            (normalized_type (md_mime (fb_metadata buffer))))).
Proof.
  intros Hi Hp Hs. cbv zeta.
  pose proof (handlePeerLeft_fails leftPeerId i t st Hi Hp Hs) as H1.
  destruct (handlePeerLeft_frame leftPeerId st) as (_ & Hf & _).
  split.
  - intros job Hid Hoff.
    fold (pump (S (length (file_bytes (job_file job)))) job (handlePeerLeft leftPeerId st)).
    split; [apply pump_completes; lia |].
    rewrite pump_transfers by lia.
    unfold update_where. rewrite list_lookup_fmap, H1. cbn [fmap option_fmap option_map].
    eexists. split; [reflexivity |].
    cbn [ft_id apply_updates fail_update]. rewrite Hid, String.eqb_refl. done.
  - intros sender now buffer Hb.
    rewrite (handle_FileComplete_eq sender (ft_id t) now _ buffer) by (by rewrite Hf).
    cbn [transfers updateTransfer set_transfers set_fileBuffers].
    rewrite list_lookup_fmap, H1. cbn [fmap option_fmap option_map].
    eexists. split; [reflexivity |].
    cbn [ft_id apply_updates fail_update]. rewrite String.eqb_refl. done.
Qed.

(** ["p"] leaves while the file for it is being read: once the read has
    loaded, the entry shows [completed] with error ["Peer disconnected"], and
    neither channel has been handed a chunk. *)
Lemma departure_failure_is_overwritten_witness :
  let st1 := handlePeerLeft "p" sending_to_p in
  let r := read_loop [read_load; read_load; read_load]
             (mkJob hi_file "f9" [mkPeerConnection "p" (Some (JStr "pat")) 0 (Some 0%nat) true]
                0 0) st1 in
  snd r = None /\
  (exists t2, transfers (fst r) !! 0%nat = Some t2 /\
     ft_status t2 = completed /\ ft_error t2 = Some "Peer disconnected") /\
  dc_sent <$> channels (fst r) !! 0%nat =
    Some [FileStart (mkMetadata "f9" "hi.txt" 2 "text/plain" "me" (Some "alice"))] /\
  dc_sent <$> channels (fst r) !! 1%nat = Some [].
Proof.
  cbv zeta.
  destruct (departure_failure_is_overwritten "p" 0
              (mkTransfer "f9" "hi.txt" 2 "text/plain" (of_Z 0) transferring dir_send "p"
                 None None None None 3)
              sending_to_p) as [H _].
  - reflexivity.
  - reflexivity.
  - reflexivity.
  - destruct (H (mkJob hi_file "f9"
                   [mkPeerConnection "p" (Some (JStr "pat")) 0 (Some 0%nat) true] 0 0))
      as (Hend & t2 & H1 & H2 & _ & H3); [reflexivity | cbn; lia |].
    split; [exact Hend |]. split; [by exists t2 |].
    split; reflexivity.
Defined.

End Frontend.

(** ** Client and server together

    The client reads what the server wrote through [JSON.parse] and the
    typed views of [types/index.ts]; the server reads what the client wrote
    through [JSON.parse] into a [SignalingMessage]. *)

Module EndToEnd.

Import Backend.

(** A [PeerInfo] object as the client reads it: the properties [id],
    [username] (may be absent) and [joinedAt]. *)
Definition read_PeerInfo (j : JSON) : option Frontend.PeerInfo :=
  match j with
  | JObj fields =>
      match assoc_get "id" fields, assoc_get "joinedAt" fields with
      | Some (JStr id), Some (JNum t) =>
          Some (Frontend.mkPeerInfo id (assoc_get "username" fields) t)
      | _, _ => None
      end
  | _ => None
  end.

(** The server-originated messages under the views [handleMessage] casts
    them to; defined on the messages the server produces. *)
Definition read_message (m : SignalingMessage) : option Frontend.ServerMessage :=
  match msg_type m, msg_payload m with
  | peer_list, Some (JArr items) => Frontend.MPeerList <$> mapM read_PeerInfo items
  | peer_joined, Some j => Frontend.MPeerJoined <$> read_PeerInfo j
  | peer_left, Some (JObj fields) =>
      match assoc_get "peerId" fields with
      | Some (JStr id) => Some (Frontend.MPeerLeft id)
      | _ => None
      end
  | error, Some j => Some (Frontend.MError j)
  | _, _ => None
  end.

(** The client's view of a server-side [PeerInfo]. *)
Definition as_seen (p : PeerInfo) : Frontend.PeerInfo :=
  Frontend.mkPeerInfo (pi_id p) (pi_username p) (pi_joinedAt p).

Section WireFacts.

Lemma read_PeerInfo_json (p : PeerInfo) : read_PeerInfo (PeerInfo_json p) = Some (as_seen p).
Proof. destruct p as [id [u |] t]; reflexivity. Qed.

Lemma read_all_PeerInfo (l : list PeerInfo) :
  mapM read_PeerInfo (map PeerInfo_json l) = Some (map as_seen l).
Proof.
  apply mapM_Some. apply Forall2_fmap. apply Forall_Forall2_diag, Forall_forall.
  intros p _. apply read_PeerInfo_json.
Qed.

Lemma read_peerListMessage roomId (l : list PeerInfo) :
  read_message (peerListMessage roomId l) = Some (Frontend.MPeerList (map as_seen l)).
Proof.
  unfold read_message, peerListMessage. cbn [msg_type msg_payload].
  by rewrite read_all_PeerInfo.
Qed.

Lemma read_peerJoinedMessage roomId (p : PeerInfo) :
  read_message (peerJoinedMessage roomId p) = Some (Frontend.MPeerJoined (as_seen p)).
Proof.
  unfold read_message, peerJoinedMessage. cbn [msg_type msg_payload].
  by rewrite read_PeerInfo_json.
Qed.

Lemma read_peerLeftMessage roomId peerId :
  read_message (peerLeftMessage roomId peerId) = Some (Frontend.MPeerLeft peerId).
Proof. reflexivity. Qed.

(** A relayed message reaches a member of the named room whose socket is OPEN. *)
Lemma relay_delivers ws target (m : SignalingMessage) now st :
  is_relayed (msg_type m) = true ->
  truthy (msg_targetId m) = Some target ->
  target ∈ peers_of st (msg_roomId m) ->
  is_open st target = true ->
  sent_to (handleSignalingMessage ws m now st) target =
  sent_to st target ++ [mkMsg (msg_type m) (msg_roomId m) ws (Some target) (msg_payload m)].
Proof.
  intros Hty Htg Hin Ho.
  assert (Hh : handleSignalingMessage ws m now st =
               send target (mkMsg (msg_type m) (msg_roomId m) ws (Some target) (msg_payload m)) st).
  { unfold handleSignalingMessage, sendToPeer, peers_of in *.
    destruct (rooms st !! msg_roomId m) as [room |]; [| by apply elem_of_nil in Hin].
    simpl in Hin. apply mem_true in Hin.
    destruct (msg_type m); try discriminate; by rewrite Htg, Hin, Ho. }
  rewrite Hh. apply sent_to_push.
  - by rewrite lookup_send, decide_True.
  - unfold is_open in Ho. by destruct (sockets st !! target).
Qed.

End WireFacts.


Section JoinFrameFacts.

Lemma is_open_field (st : Server) (id : string) :
  is_open st id =
  match ws_readyState <$> sockets st !! id with
  | Some r => ReadyState_eqb r OPEN
  | None => false
  end.
Proof. unfold is_open. by destruct (sockets st !! id). Qed.

Lemma is_open_joinRoom roomId ws now st id :
  is_open (snd (joinRoom roomId ws now st)) id = is_open st id.
Proof. rewrite !is_open_field. by rewrite (field_joinRoom ws_readyState). Qed.

(** The frame [useSignaling.joinRoom] writes. *)
Definition join_frame (roomId me name : string) : SignalingMessage :=
  mkMsg join roomId me None (Some (JObj [("username", JStr name)])).

(** The name under which the server lists a connection that sent [join_frame]. *)
Definition listed_name (ws name : string) : string :=
  if String.eqb name "" then "Peer-" +:+ String.substring 0 4 ws else name.

(** The server just before [joinRoom] runs for a join frame: the name is recorded. *)
Definition named_for_join (ws name : string) (st : Server) : Server :=
  set_sockets (alter (ws_set_username (Some (JStr (listed_name ws name)))) ws) st.

Lemma step_join_frame roomId me name ws now st :
  step now st (Message ws (Some (join_frame roomId me name))) =
  snd (joinRoom roomId ws now (named_for_join ws name st)).
Proof.
  cbn [step]. unfold handleSignalingMessage, join_frame, named_for_join, listed_name.
  cbn [msg_type msg_roomId msg_payload]. unfold joined_username.
  cbn [payload_username assoc_get String.eqb Ascii.eqb Bool.eqb andb js_truthy].
  by destruct (String.eqb name "").
Qed.

Lemma named_for_join_frame ws name st :
  rooms (named_for_join ws name st) = rooms st /\
  (forall id, is_open (named_for_join ws name st) id = is_open st id) /\
  (forall id, sent_to (named_for_join ws name st) id = sent_to st id) /\
  (forall id, is_Some (sockets (named_for_join ws name st) !! id) <-> is_Some (sockets st !! id)) /\
  (forall id, username_of (named_for_join ws name st) id =
              if decide (id = ws) then (fun _ => JStr (listed_name ws name)) <$> sockets st !! ws
              else username_of st id).
Proof.
  unfold named_for_join. split_and!.
  - reflexivity.
  - intros id. by apply is_open_alter.
  - intros id. by apply sent_to_alter.
  - intros id. cbn [sockets set_sockets]. rewrite lookup_alter.
    destruct (decide (ws = id)) as [-> |]; [| done]. by rewrite fmap_is_Some.
  - intros id. unfold username_of. cbn [sockets set_sockets]. rewrite lookup_alter.
    destruct (decide (ws = id)) as [-> |].
    + rewrite decide_True by done. by destruct (sockets st !! id).
    + by rewrite decide_False by congruence.
Qed.

Lemma wf_named_for_join ws name st : wf st -> wf (named_for_join ws name st).
Proof. apply wf_same_rooms. reflexivity. Qed.

Lemma joinRoom_client_frame roomId name me (c : Frontend.Client) :
  Frontend.ws_open c = true ->
  let c1 := Frontend.useSignaling.joinRoom roomId name me c in
  Frontend.ws_sent c1 = Frontend.ws_sent c ++ [join_frame roomId me name] /\
  Frontend.peerId c1 = Some me /\ Frontend.roomId c1 = Frontend.roomId c /\
  Frontend.ws_open c1 = true /\ Frontend.username c1 = Frontend.username c /\
  Frontend.peers c1 = Frontend.peers c /\
  Frontend.peerConnections c1 = Frontend.peerConnections c /\
  Frontend.links c1 = Frontend.links c /\ Frontend.channels c1 = Frontend.channels c.
Proof. intros Ho. cbv zeta. unfold Frontend.useSignaling.joinRoom. rewrite Ho. by split_and!. Qed.

Lemma truthy_nonempty (s : string) : s <> "" -> truthy (Some s) = Some s.
Proof. intros H. simpl. by destruct (String.eqb_spec s ""). Qed.

End JoinFrameFacts.

(** X21: a joining client calls itself.  The client draws its own [peerId]
    and never learns the id the server gave its connection, while the peer
    list the server sends to a joiner holds the joiner's own entry under the
    server's id.  So the filter of [handleMessage] (entries whose id is the
    client's own [peerId] are dropped) keeps that entry: the client opens a peer
    connection to its own connection id and sends it an offer, and the server
    relays that offer back to the very socket it came from. *)
Theorem joiner_offers_to_itself (createOffer : nat -> JSON) (roomId ws me name : string)
    (now now' : Z) (st : Server) (c : Frontend.Client) :
  wf st ->
  is_open st ws = true ->
  Frontend.ws_open c = true ->
  truthy (Frontend.roomId c) = Some roomId ->
  me <> "" -> ws <> "" -> me <> ws ->
  let c1 := Frontend.useSignaling.joinRoom roomId name me c in
  let st1 := step now st (Message ws (Some (join_frame roomId me name))) in
  exists peerList payload pc,
    Frontend.ws_sent c1 = Frontend.ws_sent c ++ [join_frame roomId me name] /\
    last (sent_to st1 ws) = Some (peerListMessage roomId peerList) /\
    read_message (peerListMessage roomId peerList) = Some (Frontend.MPeerList payload) /\
    ws ∈ map Frontend.pi_id payload /\
    let c2 := Frontend.handleMessage createOffer (Frontend.MPeerList payload) c1 in
    let selfOffer := mkMsg offer roomId me (Some ws) (Some (createOffer pc)) in
    Frontend.pc_connection <$> assoc_get ws (Frontend.peerConnections c2) = Some pc /\
    selfOffer ∈ Frontend.ws_sent c2 /\
    sent_to (step now' st1 (Message ws (Some selfOffer))) ws =
      sent_to st1 ws ++ [mkMsg offer roomId ws (Some ws) (Some (createOffer pc))].
Proof.
  intros Hwf Hopen Ho Hroom Hme Hws Hne. cbv zeta.
  assert (Hsock : is_Some (sockets st !! ws)).
  { unfold is_open in Hopen. by destruct (sockets st !! ws). }
  destruct (joinRoom_client_frame roomId name me c Ho)
    as (C1 & C2 & C3 & C4 & C5 & C6 & C7 & C8 & C9).
  cbv zeta in *. set (c1 := Frontend.useSignaling.joinRoom roomId name me c) in *.
  rewrite step_join_frame.
  destruct (named_for_join_frame ws name st) as (N1 & N2 & N3 & N4 & N5).
  set (st0 := named_for_join ws name st) in *.
  set (st1 := snd (joinRoom roomId ws now st0)).
  set (peerList := map (fun id => mkPeerInfo id (username_of st0 id) now)
                       (peers_set ws (peers_of st0 roomId))).
  assert (Hsent : sent_to st1 ws = sent_to st0 ws ++ [peerListMessage roomId peerList]).
  { apply joinRoom_sent_to_joiner. by apply N4. }
  (* the joiner's own entry, as the client reads it *)
  set (own := Frontend.mkPeerInfo ws (username_of st0 ws) now).
  set (payload := map as_seen peerList).
  assert (Hown : own ∈ payload).
  { unfold payload, peerList. rewrite map_map. apply list_elem_of_fmap.
    exists ws. split; [done |]. apply elem_of_peers_set. by right. }
  set (filtered :=
         filter (fun p => negb (bool_decide (Some (Frontend.pi_id p) = Frontend.peerId c1)))
                payload).
  assert (Hkept : own ∈ filtered).
  { apply list_elem_of_filter. split; [| done].
    rewrite C2. apply negb_prop_intro. intros H. apply bool_decide_unpack in H.
    injection H as H. simpl in H. congruence. }
  set (c1' := Frontend.setPeers filtered c1).
  assert (Heq := Frontend.handlePeerList_eq createOffer filtered c1' roomId me).
  assert (Hc2 : Frontend.handleMessage createOffer (Frontend.MPeerList payload) c1 =
                Frontend.handlePeerList createOffer filtered c1') by reflexivity.
  assert (Hro : truthy (Frontend.roomId c1') = Some roomId).
  { unfold c1'. cbn [Frontend.roomId Frontend.setPeers Frontend.set_peers]. by rewrite C3. }
  assert (Hpe : truthy (Frontend.peerId c1') = Some me).
  { unfold c1'. cbn [Frontend.peerId Frontend.setPeers Frontend.set_peers].
    rewrite C2. by apply truthy_nonempty. }
  rewrite Heq in Hc2; [| exact C4 | exact Hro | exact Hpe].
  destruct (Frontend.register_all_lookup createOffer filtered
              (length (Frontend.links c1')) (Frontend.peerConnections c1') own Hkept)
    as (j & p' & Hj & Hid & Hget).
  assert (Hjlt : (j < length filtered)%nat) by (by eapply lookup_lt_Some).
  exists peerList, payload, (length (Frontend.links c1') + j)%nat.
  split_and!.
  - exact C1.
  - rewrite Hsent. apply last_snoc.
  - apply read_peerListMessage.
  - apply list_elem_of_fmap. by exists own.
  - rewrite Hc2. cbn [Frontend.peerConnections]. cbn [Frontend.pi_id own] in Hget.
    rewrite Hget. reflexivity.
  - rewrite Hc2. cbn [Frontend.ws_sent]. apply elem_of_app. right.
    apply list_elem_of_lookup. exists j.
    rewrite lookup_zip_with, list_lookup_fmap, Hj, lookup_seq_lt by done.
    simpl. unfold Frontend.offer_to. by rewrite Hid.
  - cbn [step]. rewrite (relay_delivers ws ws _ now' st1); [done | done | | |].
    + cbn [msg_targetId]. by apply truthy_nonempty.
    + cbn [msg_roomId]. unfold st1. rewrite joinRoom_peers. apply elem_of_peers_set. by right.
    + unfold st1. by rewrite is_open_joinRoom, N2.
Qed.


(** A client about to join room ["r"]: socket OPEN, room id set, no [peerId] yet. *)
Definition about_to_join : Frontend.Client :=
  Frontend.mkClient None "alice" (Some "r") [] [] [] [] ∅ [] [] true [].

(** The first client of room ["r"] is relayed its own offer. *)
Lemma joiner_offers_to_itself_witness :
  let st1 := step 1 one_client (Message "a" (Some (join_frame "r" "x1" "alice"))) in
  sent_to (step 2 st1 (Message "a" (Some (mkMsg offer "r" "x1" (Some "a") (Some (JStr "sdp"))))))
          "a" =
  sent_to st1 "a" ++ [mkMsg offer "r" "a" (Some "a") (Some (JStr "sdp"))].
Proof.
  cbv zeta.
  destruct (joiner_offers_to_itself (fun _ => JStr "sdp") "r" "a" "x1" "alice" 1 2
              one_client about_to_join)
    as (peerList & payload & pc & _ & _ & _ & _ & _ & _ & H).
  - apply wf_reachable.
  - reflexivity.
  - reflexivity.
  - reflexivity.
  - discriminate.
  - discriminate.
  - discriminate.
  - exact H.
Defined.

(** X22: the name the others see.  When a client joins with a name, every
    member already in the room whose socket is OPEN is handed a [peer-joined]
    that the client code reads as the joiner's connection id with that name, or
    with ["Peer-"] and the first four characters of the connection id when the
    name is empty; a receiving client (whose own [peerId] is another id) puts
    that entry last in its list of peers.  The [peerId] the joiner drew for
    itself is not part of what the others are told. *)
Theorem join_name_reaches_the_others (createOffer : nat -> JSON)
    (roomId ws me name b : string) (now : Z) (st : Server) (cb : Frontend.Client) :
  wf st ->
  is_Some (sockets st !! ws) ->
  b <> ws ->
  b ∈ peers_of st roomId ->
  is_open st b = true ->
  Frontend.peerId cb <> Some ws ->
  let st1 := step now st (Message ws (Some (join_frame roomId me name))) in
  let shown :=
    Frontend.mkPeerInfo ws
      (Some (JStr (if String.eqb name "" then "Peer-" +:+ String.substring 0 4 ws else name)))
      now in
  exists notice,
    sent_to st1 b = sent_to st b ++ [notice] /\
    read_message notice = Some (Frontend.MPeerJoined shown) /\
    last (Frontend.peers (Frontend.handleMessage createOffer (Frontend.MPeerJoined shown) cb))
      = Some shown.
Proof.
  intros Hwf [w Hw] Hne Hin Hopen Hcb. cbv zeta.
  rewrite step_join_frame.
  destruct (named_for_join_frame ws name st) as (N1 & N2 & N3 & N4 & N5).
  set (st0 := named_for_join ws name st) in *.
  assert (Hu : username_of st0 ws = Some (JStr (listed_name ws name))).
  { rewrite N5, decide_True by done. by rewrite Hw. }
  exists (peerJoinedMessage roomId (mkPeerInfo ws (username_of st0 ws) now)).
  split_and!.
  - rewrite sent_to_joinRoom_other; [| by apply wf_named_for_join | done].
    rewrite N3, N2, Hopen. unfold peers_of. rewrite N1. fold (peers_of st roomId).
    apply mem_true in Hin. by rewrite Hin.
  - rewrite read_peerJoinedMessage. unfold as_seen. cbn [pi_id pi_username pi_joinedAt].
    by rewrite Hu.
  - cbn [Frontend.handleMessage Frontend.pi_id].
    rewrite bool_decide_eq_false_2 by congruence. cbn [negb].
    unfold Frontend.handlePeerJoined. cbn [Frontend.peers Frontend.addPeer Frontend.set_peers].
    apply last_snoc.
Qed.

(** ["b"] joins room ["r"] without a name: ["a"] is told about ["Peer-b"]. *)
Lemma join_name_reaches_the_others_witness :
  exists notice,
    last (sent_to (step 3 (run empty_server
                             [(0, Connection "a"); (0, Connection "b");
                              (1, Message "a" (Some (join_msg "r" (Some "alice"))))]%Z)
                     (Message "b" (Some (join_frame "r" "x2" "")))) "a") = Some notice /\
    read_message notice =
      Some (Frontend.MPeerJoined (Frontend.mkPeerInfo "b" (Some (JStr "Peer-b")) 3)).
Proof.
  destruct (join_name_reaches_the_others (fun _ => JStr "sdp") "r" "b" "x2" "" "a" 3
              (run empty_server
                 [(0, Connection "a"); (0, Connection "b");
                  (1, Message "a" (Some (join_msg "r" (Some "alice"))))]%Z)
              Frontend.idle_client)
    as (notice & H1 & H2 & _).
  - apply wf_reachable.
  - vm_compute. eauto.
  - discriminate.
  - apply mem_true. vm_compute. reflexivity.
  - vm_compute. reflexivity.
  - discriminate.
  - exists notice. split; [| exact H2]. rewrite H1. apply last_snoc.
Defined.

(** X23: what the server makes of a client that leaves.  The two [leave]
    frames [useRoom]'s [leaveRoom] writes, handled in turn for the connection
    they arrive on and followed by the [close] of that connection, have the
    effect of a single [leaveRoom] for it: the second frame and the close find
    the connection in no room; the remaining members are handed one
    [peer-left], not three. *)
Theorem client_leave_is_handled_once (ws room me : string) (now now' : Z) (st : Server)
    (c : Frontend.Client) :
  Frontend.ws_open c = true ->
  truthy (Frontend.roomId c) = Some room ->
  truthy (Frontend.peerId c) = Some me ->
  let frames := drop (length (Frontend.ws_sent c)) (Frontend.ws_sent (Frontend.useRoom.leaveRoom c)) in
  let st' := run st (map (fun m => (now, Message ws (Some m))) frames ++ [(now', Close ws)]) in
  length frames = 2%nat /\
  st' = set_sockets (alter (ws_set_readyState CLOSED) ws) (leaveRoom ws st) /\
  rooms st' = rooms (leaveRoom ws st) /\
  (forall id, sent_to st' id = sent_to (leaveRoom ws st) id).
Proof.
  intros Ho Hr Hp. cbv zeta.
  rewrite Frontend.useRoom_leaveRoom_sent, drop_app_length.
  unfold Frontend.leave_frames. rewrite Ho, Hr, Hp.
  cbn [map app run fold_left fst snd step handleSignalingMessage msg_type length].
  rewrite leaveRoom_idempotent.
  assert (Hc : leaveRoom ws (set_sockets (alter (ws_set_readyState CLOSED) ws) (leaveRoom ws st))
               = set_sockets (alter (ws_set_readyState CLOSED) ws) (leaveRoom ws st)).
  { apply leaveRoom_guarded. rewrite leaves_alter_readyState. apply leaves_leaveRoom. }
  rewrite Hc. split_and!; try done.
  intros id. by apply sent_to_alter.
Qed.

(** ["a"] leaves room ["r"] of [two_members] from the client: ["b"] is told once. *)
Lemma client_leave_is_handled_once_witness :
  let frames := drop (length (Frontend.ws_sent Frontend.idle_client))
                     (Frontend.ws_sent (Frontend.useRoom.leaveRoom Frontend.idle_client)) in
  sent_to (run two_members
             (map (fun m => (5%Z, Message "a" (Some m))) frames ++ [(6%Z, Close "a")])) "b" =
  sent_to two_members "b" ++ [peerLeftMessage "r" "a"].
Proof.
  cbv zeta.
  destruct (client_leave_is_handled_once "a" "r" "me" 5 6 two_members Frontend.idle_client)
    as (_ & _ & _ & H).
  - reflexivity.
  - reflexivity.
  - reflexivity.
  - rewrite (H "b"). vm_compute. reflexivity.
Defined.

End EndToEnd.
